(** * Shenzhen port CCTV and API clients: the request envelope

    A shallow embedding of [src/ka-cctv-client.js], which holds two
    programs: the CCTV client (lines 1-369) and the API client (lines
    370-714).  Both sign a request in two layers (AEP: SHA-256, KA: SM3),
    draw a fresh SM4 key and iv, wrap them with SM2, send the SM4-CBC
    encrypted body, and decrypt the response under the same key and iv.

    Layout, definitions first:
    - [JsString], [JsNumber], [Js]: the fragment of the host language the
      programs use: string methods, binary64 arithmetic and its printing,
      dynamic values with property access, truthiness and [JSON.stringify];
    - [Bytes], [Word], [Sha256], [Sm3], [Sm4]: the library primitives the
      programs call.  They are not code of the repository: [Sha256] models
      Node's [crypto.createHash('sha256')]; [Sm3] and [Sm4] model the [sm3]
      function and the [sm4] object of the sm-crypto package.  Each is
      written from its standard and checked on the standard's test vectors;
    - the effects: the clock, the random source, the asymmetric encryption
      (randomized), the network and [JSON.parse] are answers of an
      environment [Env]; a run threads a [World] that counts what it has
      asked and logs the network calls; exceptions are an [outcome]; the one
      unbounded loop of the source takes fuel;
    - the programs, function by function under the source's names: the
      helpers the two clients share, then [CctvClient] and [ApiClient];
    - a reference environment to run them in ([Json], [Reference]) and the
      environments of the examples;
    - the vocabulary of the properties.
    Then the facts: about the primitives first, then, per function of the
    program, the properties C1 to C10 of the envelope and the further
    properties X1, X2, ... read off the code.

    Modelling choices:
    - a string is the sequence of the bytes of its UTF-8 encoding, one
      [ascii] each; text is well-formed (no lone surrogate).  The
      conversions of sm-crypto between strings and bytes ([utf8ToArray],
      [arrayToUtf8]) are modelled branch by branch in [Bytes], on the code
      points of the text;
    - numbers inside JSON data are integers; the binary64 arithmetic the
      programs perform on clock readings and random draws is exact
      ([SpecFloat], precision 53);
    - thrown values are [Error] objects with a name and a message. *)

From Stdlib Require Import ZArith List String Ascii Bool Lia Arith.
From Stdlib Require Import Floats.SpecFloat.
Import ListNotations.

Local Open Scope string_scope.
Local Open Scope Z_scope.

(* ================================================================== *)
(** * Strings of the host language *)
(* ================================================================== *)

(** A JS string is modelled by a [string]: the bytes of its UTF-8
    encoding, one [ascii] each.  Every string the envelope builds itself
    (timestamps, nonces, hex digests, keys, header names) is ASCII, so that
    a byte is a character and the operations on positions below ([take],
    [substring], [slice], [padStart], [indexOf]) are those of the host
    language; the program applies them to such strings only.  For other
    text (payloads), [characters] and [length16] give what the host language
    sees: the code points a [for ... of] loop visits and the number of
    UTF-16 code units that [length] reports. *)
Module JsString.

Fixpoint take (n : nat) (s : string) : string :=
  match n, s with
  | S n', String c s' => String c (take n' s')
  | _, _ => EmptyString
  end.

Fixpoint drop (n : nat) (s : string) : string :=
  match n, s with
  | S n', String _ s' => drop n' s'
  | _, _ => s
  end.

Definition len (s : string) : Z := Z.of_nat (String.length s).

(** [clamp l x]: an index argument brought into [0 .. l]. *)
Definition clamp (l x : Z) : Z := Z.max 0 (Z.min x l).

(** [s.substring(a, b)]: both arguments are clamped to [0 .. s.length] and
    swapped when [a > b]. *)
Definition substring (s : string) (a b : Z) : string :=
  let a' := clamp (len s) a in
  let b' := clamp (len s) b in
  let lo := Z.min a' b' in
  let hi := Z.max a' b' in
  take (Z.to_nat (hi - lo)) (drop (Z.to_nat lo) s).

(** [s.substring(a)]. *)
Definition substring_from (s : string) (a : Z) : string :=
  substring s a (len s).

(** [s.slice(a, b)]: a negative argument counts from the end. *)
Definition slice (s : string) (a b : Z) : string :=
  let l := len s in
  let from := if a <? 0 then Z.max (l + a) 0 else Z.min a l in
  let to := if b <? 0 then Z.max (l + b) 0 else Z.min b l in
  take (Z.to_nat (Z.max (to - from) 0)) (drop (Z.to_nat from) s).

(** [n] characters read cyclically from [fill], continuing at [cur]. *)
Fixpoint cycle (n : nat) (fill cur : string) : string :=
  match n with
  | O => EmptyString
  | S n' =>
      match cur with
      | String c rest => String c (cycle n' fill rest)
      | EmptyString =>
          match fill with
          | String c rest => String c (cycle n' fill rest)
          | EmptyString => EmptyString
          end
      end
  end.

(** [s.padStart(target, fill)]. *)
Definition padStart (s : string) (target : Z) (fill : string) : string :=
  if (target <=? len s) || (String.length fill =? 0)%nat then s
  else cycle (Z.to_nat (target - len s)) fill fill ++ s.

(** Position of the first occurrence of the character [c], from [i]. *)
Fixpoint indexOf_from (c : ascii) (s : string) (i : Z) : Z :=
  match s with
  | EmptyString => -1
  | String d s' => if Ascii.eqb c d then i else indexOf_from c s' (i + 1)
  end.

(** [s.indexOf(c)] for a one-character pattern: [-1] when absent. *)
Definition indexOf (s : string) (c : ascii) : Z := indexOf_from c s 0.

Definition is_lower (c : ascii) : bool :=
  let n := nat_of_ascii c in ((97 <=? n) && (n <=? 122))%nat.

Definition upper_char (c : ascii) : ascii :=
  if is_lower c then ascii_of_nat (nat_of_ascii c - 32) else c.

Fixpoint map (f : ascii -> ascii) (s : string) : string :=
  match s with
  | EmptyString => EmptyString
  | String c s' => String (f c) (map f s')
  end.

Fixpoint forallb (p : ascii -> bool) (s : string) : bool :=
  match s with
  | EmptyString => true
  | String c s' => p c && forallb p s'
  end.

(** [s.toUpperCase()], on the ASCII letters. *)
Definition toUpperCase (s : string) : string := map upper_char s.

Definition is_digit (c : ascii) : bool :=
  let n := nat_of_ascii c in ((48 <=? n) && (n <=? 57))%nat.

(** The digits [toString(16)] and [digest('hex')] write. *)
Definition is_lower_hex (c : ascii) : bool :=
  let n := nat_of_ascii c in
  is_digit c || ((97 <=? n) && (n <=? 102))%nat.

Definition is_upper_hex (c : ascii) : bool :=
  let n := nat_of_ascii c in
  is_digit c || ((65 <=? n) && (n <=? 70))%nat.

Definition is_hex (c : ascii) : bool := is_lower_hex c || is_upper_hex c.

(** The digit character of [d] in [0 .. 35], lower case. *)
Definition digit_char (d : Z) : ascii :=
  if d <? 10 then ascii_of_nat (Z.to_nat (48 + d))
  else ascii_of_nat (Z.to_nat (87 + d)).

Fixpoint digits_aux (fuel : nat) (radix n : Z) (acc : string) : string :=
  match fuel with
  | O => acc
  | S fuel' =>
      let acc' := String (digit_char (n mod radix)) acc in
      if n / radix =? 0 then acc' else digits_aux fuel' radix (n / radix) acc'
  end.

(** The digits of [n >= 0] in [radix], most significant first; ["0"] for 0. *)
Definition digits (radix n : Z) : string :=
  digits_aux (S (Z.to_nat (Z.log2 n))) radix n EmptyString.

(** [n.toString(radix)] for an integer [n]. *)
Definition of_int (radix n : Z) : string :=
  if n <? 0 then String "-" (digits radix (- n)) else digits radix n.

Fixpoint concat (l : list string) : string :=
  match l with
  | [] => EmptyString
  | s :: l' => s ++ concat l'
  end.

(** The number of bytes of the UTF-8 sequence that starts with [c]. *)
Definition sequence_length (c : ascii) : nat :=
  let n := nat_of_ascii c in
  if (n <? 192)%nat then 1%nat
  else if (n <? 224)%nat then 2%nat
  else if (n <? 240)%nat then 3%nat
  else 4%nat.

Fixpoint characters_from (fuel : nat) (s : string) : list string :=
  match fuel, s with
  | S fuel', String c _ =>
      take (sequence_length c) s
      :: characters_from fuel' (drop (sequence_length c) s)
  | _, _ => []
  end.

(** The characters (code points) of a string, each by its own UTF-8
    sequence: what a [for ... of] loop over the string visits. *)
Definition characters (s : string) : list string :=
  characters_from (String.length s) s.

(** [s.length]: the number of UTF-16 code units, two for a character
    beyond U+FFFF (a sequence of four bytes), one for any other. *)
Definition length16 (s : string) : Z :=
  fold_left (fun n ch => if (String.length ch =? 4)%nat then n + 2 else n + 1)
            (characters s) 0.

End JsString.

(* ================================================================== *)
(** * Numbers of the host language *)
(* ================================================================== *)

(** A JS number is an IEEE 754 binary64 value: [spec_float] at precision 53
    and maximal exponent 1024, with the Standard Library's correctly rounded
    operations.  Integers the program handles as such (clock readings in
    milliseconds, whole seconds) are carried as [Z]. *)
Module JsNumber.

Definition double : Type := spec_float.

Definition prec : Z := 53.
Definition emax : Z := 1024.

Definition of_Z (n : Z) : double := binary_normalize prec emax n 0 false.
Definition mul (x y : double) : double := SFmul prec emax x y.
Definition add (x y : double) : double := SFadd prec emax x y.
Definition div (x y : double) : double := SFdiv prec emax x y.
Definition ltb (x y : double) : bool := SFltb x y.
Definition leb (x y : double) : bool := SFleb x y.

(** The numerator [n] and the binary exponent [k >= 0] of a finite value
    written [n / 2^k]. *)
Definition as_fraction (x : double) : option (Z * Z) :=
  match x with
  | S754_zero _ => Some (0, 0)
  | S754_finite s m e =>
      let v := cond_Zopp s (Zpos m) in
      Some (if 0 <=? e then (v * 2 ^ e, 0) else (v, - e))
  | _ => None
  end.

(** [Math.floor(x)] of a finite [x], as an integer ([0] stands for the
    non-finite values, which the program's arithmetic never produces). *)
Definition floor (x : double) : Z :=
  match as_fraction x with
  | Some (n, k) => n / 2 ^ k
  | None => 0
  end.

(** Does [x] have a fractional part? *)
Definition has_fraction (x : double) : bool :=
  match as_fraction x with
  | Some (n, k) => negb (n mod 2 ^ k =? 0)
  | None => false
  end.

(** The hexadecimal expansion of the fraction [r / 2^k], [0 <= r < 2^k]:
    it is finite, at most [k] digits. *)
Fixpoint fraction_digits (fuel : nat) (r k : Z) : string :=
  match fuel with
  | O => EmptyString
  | S fuel' =>
      if r =? 0 then EmptyString
      else String (JsString.digit_char ((16 * r) / 2 ^ k))
                  (fraction_digits fuel' ((16 * r) mod 2 ^ k) k)
  end.

(** [x.toString(16)] of a finite [x]: the sign, the integer part in hexadecimal,
    then, only when [x] has a fractional part, a point and the digits of
    the fraction.  (An engine may print fewer fraction digits than the exact
    expansion written here; the integer part and the presence of the point
    are as here, and the program reads nothing beyond the point.) *)
Definition toString16 (x : double) : string :=
  match as_fraction x with
  | Some (n, k) =>
      let i := Z.abs n / 2 ^ k in
      let r := Z.abs n mod 2 ^ k in
      (if n <? 0 then "-" else "") ++
      (if r =? 0 then JsString.of_int 16 i
       else JsString.of_int 16 i ++ "." ++ fraction_digits (Z.to_nat k) r k)
  | None => "NaN"
  end.

(** [x.toFixed(3)] of a finite [x] below 10^21 in absolute value: the
    integer [m] with [m / 1000] nearest to [|x|] (the larger one on a tie),
    written with its sign and three decimals. *)
Definition toFixed3 (x : double) : string :=
  match as_fraction x with
  | Some (n, k) =>
      let m := (2 * 1000 * Z.abs n + 2 ^ k) / (2 * 2 ^ k) in
      (if n <? 0 then "-" else "") ++
      JsString.of_int 10 (m / 1000) ++ "." ++
      JsString.padStart (JsString.of_int 10 (m mod 1000)) 3 "0"
  | None => "NaN"
  end.

End JsNumber.

(* ================================================================== *)
(** * Dynamic values *)
(* ================================================================== *)

Module Js.

#[local] Set Warnings "-register-all".

(** The values that travel as request data and as response bodies.  Numbers
    inside such data are integers (the requests the program builds carry
    nothing else); the binary64 arithmetic the program performs itself is
    done in [JsNumber]. *)
Inductive value : Type :=
| VUndefined
| VNull
| VBool (b : bool)
| VNum (n : Z)
| VStr (s : string)
| VArr (items : list value)
| VObj (props : list (string * value)).

(** A thrown value: every throw site of the program and of the libraries it
    calls throws an [Error] object, of which the program reads [message]
    and, to log it, [response] (set by the HTTP client when the server
    answered with an error status). *)
Record Error : Type := mkError
  { name : string; message : string; response : option value }.

Definition TypeError (msg : string) : Error := mkError "TypeError" msg None.

(** [typeof v]. *)
Definition typeof (v : value) : string :=
  match v with
  | VUndefined => "undefined"
  | VNull => "object"
  | VBool _ => "boolean"
  | VNum _ => "number"
  | VStr _ => "string"
  | VArr _ => "object"
  | VObj _ => "object"
  end.

(** [Array.isArray(v)]. *)
Definition isArray (v : value) : bool :=
  match v with VArr _ => true | _ => false end.

(** The truth value of [v] in a condition. *)
Definition truthy (v : value) : bool :=
  match v with
  | VUndefined | VNull => false
  | VBool b => b
  | VNum n => negb (n =? 0)
  | VStr s => negb (String.length s =? 0)%nat
  | VArr _ | VObj _ => true
  end.

(** [a || b]. *)
Definition or (a b : value) : value := if truthy a then a else b.

(** A parameter with a default value: the default stands for an argument
    that is absent or [undefined]. *)
Definition default (v d : value) : value :=
  match v with VUndefined => d | _ => v end.

Definition nullish (v : value) : bool :=
  match v with VUndefined | VNull => true | _ => false end.

Fixpoint lookup (k : string) (props : list (string * value)) : option value :=
  match props with
  | [] => None
  | (k', v) :: rest => if String.eqb k k' then Some v else lookup k rest
  end.

(** Writing a property: an existing key keeps its place. *)
Fixpoint set (k : string) (v : value) (props : list (string * value))
  : list (string * value) :=
  match props with
  | [] => [(k, v)]
  | (k', v') :: rest =>
      if String.eqb k k' then (k, v) :: rest else (k', v') :: set k v rest
  end.

(** [{...a, ...b}]: the properties of [b] written over those of [a]. *)
Definition spread (a b : list (string * value)) : list (string * value) :=
  fold_left (fun acc kv => set (fst kv) (snd kv) acc) b a.

(** [v.k] where it does not throw, for the keys the program reads (none of
    them names a method of a prototype): a data property of an object, the
    length of a string or of an array, [undefined] otherwise. *)
Definition prop (v : value) (k : string) : value :=
  match v with
  | VObj props =>
      match lookup k props with Some x => x | None => VUndefined end
  | VArr items =>
      if String.eqb k "length" then VNum (Z.of_nat (List.length items))
      else VUndefined
  | VStr s =>
      if String.eqb k "length" then VNum (JsString.length16 s)
      else VUndefined
  | _ => VUndefined
  end.

(** [v.k]: reading a property of [undefined] or [null] throws. *)
Definition get (v : value) (k : string) : Error + value :=
  if nullish v
  then inl (TypeError ("Cannot read properties of " ++
                       (match v with VNull => "null" | _ => "undefined" end)
                       ++ " (reading '" ++ k ++ "')"))
  else inr (prop v k).

(** [v?.k]. *)
Definition get_opt (v : value) (k : string) : value :=
  if nullish v then VUndefined else prop v k.

(** The items a [for ... of] loop visits: the elements of an array, the
    characters of a string; any other value of this model is not iterable. *)
Definition iterate (v : value) : Error + list value :=
  match v with
  | VArr items => inr items
  | VStr s => inr (List.map VStr (JsString.characters s))
  | _ => inl (TypeError (typeof v ++ " is not iterable"))
  end.

(** [a === b] on the primitive values the program compares. *)
Definition strict_eq_str (v : value) (s : string) : bool :=
  match v with VStr t => String.eqb t s | _ => false end.

Definition quote_char : ascii := ascii_of_nat 34.
Definition backslash : ascii := ascii_of_nat 92.

Definition hex4 (n : Z) : string :=
  JsString.padStart (JsString.of_int 16 n) 4 "0".

(** One character inside a JSON string literal. *)
Definition escape_char (c : ascii) : string :=
  let n := Z.of_nat (nat_of_ascii c) in
  if n =? 34 then String backslash (String quote_char EmptyString)
  else if n =? 92 then String backslash (String backslash EmptyString)
  else if n =? 8 then String backslash "b"
  else if n =? 9 then String backslash "t"
  else if n =? 10 then String backslash "n"
  else if n =? 12 then String backslash "f"
  else if n =? 13 then String backslash "r"
  else if n <? 32 then String backslash ("u" ++ hex4 n)
  else String c EmptyString.

Fixpoint escape (s : string) : string :=
  match s with
  | EmptyString => EmptyString
  | String c s' => escape_char c ++ escape s'
  end.

Definition quote (s : string) : string :=
  String quote_char (escape s ++ String quote_char EmptyString).

Fixpoint join (sep : string) (l : list string) : string :=
  match l with
  | [] => EmptyString
  | [s] => s
  | s :: l' => s ++ sep ++ join sep l'
  end.

(** [JSON.stringify(v)]: [None] is the result [undefined]. *)
Fixpoint stringify (v : value) : option string :=
  match v with
  | VUndefined => None
  | VNull => Some "null"
  | VBool b => Some (if b then "true" else "false")
  | VNum n => Some (JsString.of_int 10 n)
  | VStr s => Some (quote s)
  | VArr items =>
      Some ("[" ++
            join "," (List.map (fun x => match stringify x with
                                         | Some s => s
                                         | None => "null"
                                         end) items)
            ++ "]")
  | VObj props =>
      Some ("{" ++
            join "," (List.flat_map
                        (fun kv => match stringify (snd kv) with
                                   | Some s => [quote (fst kv) ++ ":" ++ s]
                                   | None => []
                                   end) props)
            ++ "}")
  end.

(** [JSON.stringify(v)] as a value. *)
Definition JSON_stringify (v : value) : value :=
  match stringify v with Some s => VStr s | None => VUndefined end.

(** The text of [v] inside a template literal.  An object is converted by
    its [toString]: the inherited one gives [[object Object]]; an own
    property of that name, which in this model is never a function, leaves
    no way to convert the object, and the conversion throws.  An array joins
    the texts of its elements, the empty text for [null] and [undefined]. *)
Fixpoint toString (v : value) : Error + string :=
  match v with
  | VUndefined => inr "undefined"
  | VNull => inr "null"
  | VBool b => inr (if b then "true" else "false")
  | VNum n => inr (JsString.of_int 10 n)
  | VStr s => inr s
  | VArr items =>
      match
        (fix elements (l : list value) : Error + list string :=
           match l with
           | [] => inr []
           | x :: l' =>
               match (if nullish x then inr EmptyString else toString x) with
               | inl e => inl e
               | inr t =>
                   match elements l' with
                   | inl e => inl e
                   | inr ts => inr (t :: ts)
                   end
               end
           end) items
      with
      | inl e => inl e
      | inr ts => inr (join "," ts)
      end
  | VObj props =>
      match lookup "toString" props with
      | Some _ => inl (TypeError "Cannot convert object to primitive value")
      | None => inr "[object Object]"
      end
  end.

End Js.

(* ================================================================== *)
(** * Library primitives *)
(* ================================================================== *)

(** Bytes are integers in [0 .. 255]; 32-bit words are integers in
    [0 .. 2^32 - 1], every operation that can leave the range wraps. *)
Module Bytes.

(** The bytes of a string of the model, that is its UTF-8 encoding (what
    Node's [update(s)] hashes), and the string made of given bytes. *)
Definition of_string (s : string) : list Z :=
  List.map (fun c => Z.of_nat (nat_of_ascii c)) (list_ascii_of_string s).

Definition to_string (l : list Z) : string :=
  string_of_list_ascii
    (List.map (fun b => ascii_of_nat (Z.to_nat (b mod 256))) l).

(** The code point of a sequence of two, three and four bytes, as the
    library's [arrayToUtf8] computes it. *)
Definition point2 (b0 b1 : Z) : Z :=
  Z.shiftl (Z.land b0 0x1f) 6 + Z.land b1 0x3f.

Definition point3 (b0 b1 b2 : Z) : Z :=
  Z.shiftl (Z.land b0 0x0f) 12 + Z.shiftl (Z.land b1 0x3f) 6
  + Z.land b2 0x3f.

Definition point4 (b0 b1 b2 b3 : Z) : Z :=
  Z.shiftl (Z.land b0 0x07) 18 + Z.shiftl (Z.land b1 0x3f) 12
  + Z.shiftl (Z.land b2 0x3f) 6 + Z.land b3 0x3f.

(** The loop of the library's [arrayToUtf8]: the code points it reads from
    an array of bytes.  The first byte of a sequence decides its length; an
    element past the end of the array counts as 0; a byte that starts no
    sequence is the code point of its own value. *)
Fixpoint points_from (fuel : nat) (arr : list Z) : list Z :=
  match fuel, arr with
  | S fuel', b :: r =>
      if (0xf0 <=? b) && (b <=? 0xf7) then
        point4 b (nth 0 r 0) (nth 1 r 0) (nth 2 r 0)
        :: points_from fuel' (skipn 3 r)
      else if (0xe0 <=? b) && (b <=? 0xef) then
        point3 b (nth 0 r 0) (nth 1 r 0) :: points_from fuel' (skipn 2 r)
      else if (0xc0 <=? b) && (b <=? 0xdf) then
        point2 b (nth 0 r 0) :: points_from fuel' (skipn 1 r)
      else b :: points_from fuel' r
  | _, _ => []
  end.

Definition points (arr : list Z) : list Z :=
  points_from (List.length arr) arr.

(** The code points of a string of the model, read from its UTF-8
    encoding: what [str.codePointAt] gives along the string. *)
Definition code_points (s : string) : list Z := points (of_string s).

Definition not_supported : Js.Error :=
  Js.mkError "Error" "input is not supported" None.

(** The loop of the library's [utf8ToArray], on the code points of its
    argument.  The first byte of a sequence of four is written
    [0xf0 | (point >>> 18) & 0x1c]; a code point that is a lone surrogate
    is refused. *)
Fixpoint bytes_of_points (pts : list Z) : Js.Error + list Z :=
  match pts with
  | [] => inr []
  | point :: rest =>
      let continue (bs : list Z) : Js.Error + list Z :=
        match bytes_of_points rest with
        | inr arr => inr (bs ++ arr)%list
        | inl e => inl e
        end in
      if point <=? 0x007f then continue [point]
      else if point <=? 0x07ff then
        continue [ Z.lor 0xc0 (Z.shiftr point 6);
                   Z.lor 0x80 (Z.land point 0x3f) ]
      else if (point <=? 0xD7FF)
              || ((0xE000 <=? point) && (point <=? 0xFFFF)) then
        continue [ Z.lor 0xe0 (Z.shiftr point 12);
                   Z.lor 0x80 (Z.land (Z.shiftr point 6) 0x3f);
                   Z.lor 0x80 (Z.land point 0x3f) ]
      else if (0x010000 <=? point) && (point <=? 0x10FFFF) then
        continue [ Z.lor 0xf0 (Z.land (Z.shiftr point 18) 0x1c);
                   Z.lor 0x80 (Z.land (Z.shiftr point 12) 0x3f);
                   Z.lor 0x80 (Z.land (Z.shiftr point 6) 0x3f);
                   Z.lor 0x80 (Z.land point 0x3f) ]
      else inl not_supported
  end.

(** The library's [utf8ToArray]. *)
Definition utf8ToArray (s : string) : Js.Error + list Z :=
  bytes_of_points (code_points s).

(** The UTF-8 sequence of a code point. *)
Definition utf8 (point : Z) : list Z :=
  if point <? 0x80 then [point]
  else if point <? 0x800 then [0xc0 + point / 64; 0x80 + point mod 64]
  else if point <? 0x10000 then
    [0xe0 + point / 4096; 0x80 + point / 64 mod 64; 0x80 + point mod 64]
  else
    [0xf0 + point / 262144; 0x80 + point / 4096 mod 64;
     0x80 + point / 64 mod 64; 0x80 + point mod 64].

Definition high_surrogate (p : Z) : bool := (0xD800 <=? p) && (p <=? 0xDBFF).
Definition low_surrogate (p : Z) : bool := (0xDC00 <=? p) && (p <=? 0xDFFF).

(** Joining the strings of code points: a high surrogate followed by a low
    one are the two halves of one character. *)
Fixpoint join_surrogates (pts : list Z) : list Z :=
  match pts with
  | h :: rest =>
      match rest with
      | l :: rest' =>
          if high_surrogate h && low_surrogate l
          then (0x10000 + (h - 0xD800) * 0x400 + (l - 0xDC00))
               :: join_surrogates rest'
          else h :: join_surrogates rest
      | [] => [h]
      end
  | [] => []
  end.

(** The string of the model made of given code points. *)
Definition string_of_points (pts : list Z) : string :=
  to_string (List.flat_map utf8 (join_surrogates pts)).

(** The library's [arrayToUtf8]: [String.fromCodePoint] of each code point
    read, joined; a code point beyond U+10FFFF is a [RangeError]. *)
Definition arrayToUtf8 (arr : list Z) : Js.Error + string :=
  let pts := points arr in
  match List.find (fun p => 0x10FFFF <? p) pts with
  | Some p =>
      inl (Js.mkError "RangeError"
             ("Invalid code point " ++ JsString.of_int 10 p) None)
  | None => inr (string_of_points pts)
  end.

(** The value of a hexadecimal digit, either case. *)
Definition digit_value (c : ascii) : option Z :=
  let n := Z.of_nat (nat_of_ascii c) in
  if (48 <=? n) && (n <=? 57) then Some (n - 48)
  else if (97 <=? n) && (n <=? 102) then Some (n - 87)
  else if (65 <=? n) && (n <=? 70) then Some (n - 55)
  else None.

(** [parseInt(c1 + c2, 16)] of a two-character piece: the digits it starts
    with are read; with none the result is NaN, which every later bit
    operation reads as 0. *)
Definition parse_pair (c1 : ascii) (c2 : option ascii) : Z :=
  match digit_value c1 with
  | None => 0
  | Some h =>
      match c2 with
      | None => h
      | Some c =>
          match digit_value c with
          | Some l => 16 * h + l
          | None => h
          end
      end
  end.

(** The library's [hexToArray]: one element per two characters. *)
Fixpoint hexToArray (s : string) : list Z :=
  match s with
  | EmptyString => []
  | String c1 EmptyString => [parse_pair c1 None]
  | String c1 (String c2 rest) => parse_pair c1 (Some c2) :: hexToArray rest
  end.

(** Two lower-case hexadecimal digits per byte. *)
Definition hex2 (b : Z) : string :=
  String (JsString.digit_char (b / 16 mod 16))
         (String (JsString.digit_char (b mod 16)) EmptyString).

(** The library's [ArrayToHex]. *)
Fixpoint ArrayToHex (l : list Z) : string :=
  match l with
  | [] => EmptyString
  | b :: l' => hex2 b ++ ArrayToHex l'
  end.

(** [l] cut into pieces of [n] elements (the last one may be shorter). *)
Fixpoint chunks_aux {A : Type} (fuel n : nat) (l : list A) : list (list A) :=
  match fuel with
  | O => []
  | S fuel' =>
      match l with
      | [] => []
      | _ => firstn n l :: chunks_aux fuel' n (skipn n l)
      end
  end.

Definition chunks {A : Type} (n : nat) (l : list A) : list (list A) :=
  chunks_aux (List.length l) n l.

End Bytes.

Module Word.

Definition modulus : Z := 2 ^ 32.
Definition wrap (x : Z) : Z := x mod modulus.
Definition add (x y : Z) : Z := wrap (x + y).
Definition xor (x y : Z) : Z := Z.lxor x y.
Definition not (x : Z) : Z := modulus - 1 - x.

(** Rotation to the left by [n] bits, [0 <= n <= 32]. *)
Definition rotl (x n : Z) : Z :=
  wrap (Z.lor (Z.shiftl x n) (Z.shiftr x (32 - n))).

Definition rotr (x n : Z) : Z := rotl x (32 - n).

(** Big-endian. *)
Definition of_bytes (l : list Z) : Z :=
  fold_left (fun acc b => 256 * acc + Z.land b 255) l 0.

Definition to_bytes (w : Z) : list Z :=
  [ Z.shiftr w 24 mod 256; Z.shiftr w 16 mod 256;
    Z.shiftr w 8 mod 256; w mod 256 ].

Definition words_of_bytes (l : list Z) : list Z :=
  List.map of_bytes (Bytes.chunks 4 l).

Definition bytes_of_words (l : list Z) : list Z :=
  List.flat_map to_bytes l.

(** The words written in a hexadecimal string, eight digits each. *)
Definition words_of_hex (s : string) : list Z :=
  words_of_bytes (Bytes.hexToArray s).

End Word.

(** SHA-256 (FIPS 180-4), as [crypto.createHash('sha256')] computes it. *)
Module Sha256.

Definition K : list Z := Eval vm_compute in Word.words_of_hex
  ("428a2f9871374491b5c0fbcfe9b5dba53956c25b59f111f1923f82a4ab1c5ed5" ++
   "d807aa9812835b01243185be550c7dc372be5d7480deb1fe9bdc06a7c19bf174" ++
   "e49b69c1efbe47860fc19dc6240ca1cc2de92c6f4a7484aa5cb0a9dc76f988da" ++
   "983e5152a831c66db00327c8bf597fc7c6e00bf3d5a7914706ca635114292967" ++
   "27b70a852e1b21384d2c6dfc53380d13650a7354766a0abb81c2c92e92722c85" ++
   "a2bfe8a1a81a664bc24b8b70c76c51a3d192e819d6990624f40e3585106aa070" ++
   "19a4c1161e376c082748774c34b0bcb5391c0cb34ed8aa4a5b9cca4f682e6ff3" ++
   "748f82ee78a5636f84c878148cc7020890befffaa4506cebbef9a3f7c67178f2").

Definition H0 : list Z := Eval vm_compute in Word.words_of_hex
  "6a09e667bb67ae853c6ef372a54ff53a510e527f9b05688c1f83d9ab5be0cd19".

Definition Ch (x y z : Z) : Z :=
  Z.lxor (Z.land x y) (Z.land (Word.not x) z).
Definition Maj (x y z : Z) : Z :=
  Z.lxor (Z.lxor (Z.land x y) (Z.land x z)) (Z.land y z).
Definition Sigma0 (x : Z) : Z :=
  Z.lxor (Z.lxor (Word.rotr x 2) (Word.rotr x 13)) (Word.rotr x 22).
Definition Sigma1 (x : Z) : Z :=
  Z.lxor (Z.lxor (Word.rotr x 6) (Word.rotr x 11)) (Word.rotr x 25).
Definition sigma0 (x : Z) : Z :=
  Z.lxor (Z.lxor (Word.rotr x 7) (Word.rotr x 18)) (Z.shiftr x 3).
Definition sigma1 (x : Z) : Z :=
  Z.lxor (Z.lxor (Word.rotr x 17) (Word.rotr x 19)) (Z.shiftr x 10).

(** Padding: a 1 bit, zeros up to 56 modulo 64 bytes, then the length in
    bits on 8 bytes. *)
Definition pad (msg : list Z) : list Z :=
  let l := Z.of_nat (List.length msg) in
  let k := (55 - l) mod 64 in
  (msg ++ [128] ++ List.repeat 0 (Z.to_nat k) ++
   Word.to_bytes (Z.shiftr (8 * l) 32) ++ Word.to_bytes (8 * l))%list.

(** The message schedule, most recent word first: [n] more words. *)
Fixpoint schedule (n : nat) (w : list Z) : list Z :=
  match n with
  | O => w
  | S n' =>
      let x := Word.add (Word.add (sigma1 (nth 1 w 0)) (nth 6 w 0))
                        (Word.add (sigma0 (nth 14 w 0)) (nth 15 w 0)) in
      schedule n' (x :: w)
  end.

Definition round (st : list Z) (kw : Z * Z) : list Z :=
  match st with
  | [a; b; c; d; e; f; g; h] =>
      let t1 := Word.add (Word.add (Word.add h (Sigma1 e))
                                   (Word.add (Ch e f g) (fst kw))) (snd kw) in
      let t2 := Word.add (Sigma0 a) (Maj a b c) in
      [Word.add t1 t2; a; b; c; Word.add d t1; e; f; g]
  | _ => st
  end.

Definition compress (st : list Z) (block : list Z) : list Z :=
  let w := List.rev (schedule 48 (List.rev (Word.words_of_bytes block))) in
  let st' := fold_left round (List.combine K w) st in
  List.map (fun p => Word.add (fst p) (snd p)) (List.combine st st').

Definition digest (msg : list Z) : list Z :=
  fold_left compress (Bytes.chunks 64 (pad msg)) H0.

(** [crypto.createHash('sha256').update(s).digest('hex')]. *)
Definition hex (s : string) : string :=
  Bytes.ArrayToHex (Word.bytes_of_words (digest (Bytes.of_string s))).

End Sha256.

(** SM3 (GB/T 32905-2016), the [sm3] function of the sm-crypto package. *)
Module Sm3.

Definition IV : list Z := Eval vm_compute in Word.words_of_hex
  "7380166f4914b2b9172442d7da8a0600a96f30bc163138aae38dee4db0fb0e4e".

Definition T (j : Z) : Z := if j <? 16 then 0x79cc4519 else 0x7a879d8a.

Definition FF (j x y z : Z) : Z :=
  if j <? 16 then Z.lxor (Z.lxor x y) z
  else Z.lor (Z.lor (Z.land x y) (Z.land x z)) (Z.land y z).

Definition GG (j x y z : Z) : Z :=
  if j <? 16 then Z.lxor (Z.lxor x y) z
  else Z.lor (Z.land x y) (Z.land (Word.not x) z).

Definition P0 (x : Z) : Z :=
  Z.lxor (Z.lxor x (Word.rotl x 9)) (Word.rotl x 17).
Definition P1 (x : Z) : Z :=
  Z.lxor (Z.lxor x (Word.rotl x 15)) (Word.rotl x 23).

(** The expanded words W0 .. W67, most recent first: [n] more words. *)
Fixpoint expand (n : nat) (w : list Z) : list Z :=
  match n with
  | O => w
  | S n' =>
      let x := Z.lxor
                 (Z.lxor (P1 (Z.lxor (Z.lxor (nth 15 w 0) (nth 8 w 0))
                                     (Word.rotl (nth 2 w 0) 15)))
                         (Word.rotl (nth 12 w 0) 7))
                 (nth 5 w 0) in
      expand n' (x :: w)
  end.

(** One round on the registers, with its index [j], [W_j] and [W'_j]. *)
Definition round (st : list Z) (jw : Z * (Z * Z)) : list Z :=
  match st with
  | [a; b; c; d; e; f; g; h] =>
      let j := fst jw in
      let w := fst (snd jw) in
      let w' := snd (snd jw) in
      let a12 := Word.rotl a 12 in
      let ss1 := Word.rotl (Word.add (Word.add a12 e)
                                     (Word.rotl (T j) (j mod 32))) 7 in
      let ss2 := Z.lxor ss1 a12 in
      let tt1 := Word.add (Word.add (Word.add (FF j a b c) d) ss2) w' in
      let tt2 := Word.add (Word.add (Word.add (GG j e f g) h) ss1) w in
      [tt1; a; Word.rotl b 9; c; P0 tt2; e; Word.rotl f 19; g]
  | _ => st
  end.

Definition indices : list Z := List.map Z.of_nat (List.seq 0 64).

Definition compress (st : list Z) (block : list Z) : list Z :=
  let w := List.rev (expand 52 (List.rev (Word.words_of_bytes block))) in
  let w' := List.map (fun p => Z.lxor (fst p) (snd p))
                     (List.combine w (skipn 4 w)) in
  let st' := fold_left round
                       (List.combine indices (List.combine w w')) st in
  List.map (fun p => Z.lxor (fst p) (snd p)) (List.combine st st').

Definition digest (msg : list Z) : list Z :=
  fold_left compress (Bytes.chunks 64 (Sha256.pad msg)) IV.

(** The digest of a sequence of bytes, in lower-case hexadecimal. *)
Definition hex (msg : list Z) : string :=
  Bytes.ArrayToHex (Word.bytes_of_words (digest msg)).

(** [sm3(s)]: the digest of the bytes the library's [utf8ToArray] makes of
    [s]. *)
Definition sm3 (s : string) : Js.Error + string :=
  match Bytes.utf8ToArray s with
  | inr msg => inr (hex msg)
  | inl e => inl e
  end.

End Sm3.

(** SM4 (GB/T 32907-2016) with CBC chaining and PKCS#7 padding: the [sm4]
    object of the sm-crypto package ([sm4.encrypt], [sm4.decrypt]). *)
Module Sm4.

Definition Sbox : list Z := Eval vm_compute in Bytes.hexToArray
  ("d690e9fecce13db716b614c228fb2c052b679a762abe04c3aa44132649860699" ++
   "9c4250f491ef987a33540b43edcfac62e4b31ca9c908e89580df94fa758f3fa6" ++
   "4707a7fcf37317ba83593c19e6854fa8686b81b27164da8bf8eb0f4b70569d35" ++
   "1e240e5e6358d1a225227c3b01217887d40046579fd327524c3602e7a0c4c89e" ++
   "eabf8ad240c738b5a3f7f2cef96115a1e0ae5da49b341a55ad933230f58cb1e3" ++
   "1df6e22e8266ca60c02923ab0d534e6fd5db3745defd8e2f03ff6a726d6c5b51" ++
   "8d1baf92bbddbc7f11d95c411f105ad80ac13188a5cd7bbd2d74d012b8e5b4b0" ++
   "8969974a0c96777e65b9f109c56ec68418f07dec3adc4d2079ee5f3ed7cb3948").

Definition FK : list Z := Eval vm_compute in Word.words_of_hex
  "a3b1bac656aa3350677d9197b27022dc".

(** The constants CK_i: the bytes [(4 i + j) * 7 mod 256], [j = 0 .. 3]. *)
Definition CK : list Z := Eval vm_compute in
  List.map (fun i => Word.of_bytes
                       (List.map (fun j => ((4 * i + j) * 7) mod 256)
                                 [0; 1; 2; 3]))
           (List.map Z.of_nat (List.seq 0 32)).

Definition sbox (b : Z) : Z := nth (Z.to_nat b) Sbox 0.

(** The non-linear substitution, byte by byte. *)
Definition byteSub (a : Z) : Z :=
  Word.of_bytes (List.map sbox (Word.to_bytes a)).

(** The linear transformations of the round function and of the key
    schedule. *)
Definition l1 (b : Z) : Z :=
  Z.lxor (Z.lxor (Z.lxor (Z.lxor b (Word.rotl b 2)) (Word.rotl b 10))
                 (Word.rotl b 18)) (Word.rotl b 24).

Definition l2 (b : Z) : Z :=
  Z.lxor (Z.lxor b (Word.rotl b 13)) (Word.rotl b 23).

Definition state : Type := (Z * Z * Z * Z)%type.

(** One round: [x4 = x0 xor f (x1 xor x2 xor x3 xor k)], the window moves
    by one word. *)
Definition step (f : Z -> Z) (x : state) (k : Z) : state :=
  let '(x0, x1, x2, x3) := x in
  (x1, x2, x3, Z.lxor x0 (f (Z.lxor (Z.lxor (Z.lxor x1 x2) x3) k))).

Definition reverse (x : state) : state :=
  let '(x0, x1, x2, x3) := x in (x3, x2, x1, x0).

(** The four big-endian words of a 16-byte block. *)
Definition words (block : list Z) : state :=
  (Word.of_bytes (firstn 4 block),
   Word.of_bytes (firstn 4 (skipn 4 block)),
   Word.of_bytes (firstn 4 (skipn 8 block)),
   Word.of_bytes (firstn 4 (skipn 12 block))).

Definition bytes (x : state) : list Z :=
  let '(x0, x1, x2, x3) := x in
  (Word.to_bytes x0 ++ Word.to_bytes x1 ++
   Word.to_bytes x2 ++ Word.to_bytes x3)%list.

(** The round keys produced from the window [k], one per constant. *)
Fixpoint expandKey (cks : list Z) (k : state) : list Z :=
  match cks with
  | [] => []
  | ck :: rest =>
      let k' := step (fun m => l2 (byteSub m)) k ck in
      snd k' :: expandKey rest k'
  end.

(** [sms4KeyExt]: the 32 round keys of a 16-byte key, in reverse order for
    decryption. *)
Definition sms4KeyExt (key : list Z) (decrypt : bool) : list Z :=
  let '(k0, k1, k2, k3) := words key in
  let rks := expandKey CK (Z.lxor k0 (nth 0 FK 0), Z.lxor k1 (nth 1 FK 0),
                           Z.lxor k2 (nth 2 FK 0), Z.lxor k3 (nth 3 FK 0)) in
  if decrypt then List.rev rks else rks.

(** [sms4Crypt]: 32 rounds on one block, then the reverse transformation. *)
Definition sms4Crypt (input : list Z) (roundKey : list Z) : list Z :=
  bytes (reverse (fold_left (step (fun m => l1 (byteSub m)))
                            roundKey (words input))).

Definition BLOCK : nat := 16.

Fixpoint xor_bytes (a b : list Z) : list Z :=
  match a, b with
  | x :: a', y :: b' => Z.lxor x y :: xor_bytes a' b'
  | _, [] => a
  | [], _ => []
  end.

(** The blocks the main loop visits: while at least 16 bytes are left, the
    next 16. *)
Fixpoint blocks_from (n : nat) (l : list Z) : list (list Z) :=
  match n with
  | O => []
  | S n' => firstn BLOCK l :: blocks_from n' (skipn BLOCK l)
  end.

Definition blocks (l : list Z) : list (list Z) :=
  blocks_from (List.length l / BLOCK) l.

(** The main loop.  In CBC mode the chaining vector is xored into the input
    before encryption and into the output after decryption; it becomes the
    ciphertext block just produced, respectively just consumed. *)
Fixpoint crypt_blocks (cbc decrypt : bool) (roundKey lastVector : list Z)
         (bs : list (list Z)) : list Z :=
  match bs with
  | [] => []
  | input :: rest =>
      if decrypt then
        let output := sms4Crypt input roundKey in
        let output := if cbc then xor_bytes output lastVector else output in
        (output ++ crypt_blocks cbc decrypt roundKey input rest)%list
      else
        let input := if cbc then xor_bytes input lastVector else input in
        let output := sms4Crypt input roundKey in
        (output ++ crypt_blocks cbc decrypt roundKey output rest)%list
  end.

(** PKCS#7: [n] bytes of value [n] bring the length to a multiple of 16. *)
Definition add_padding (l : list Z) : list Z :=
  let n := (BLOCK - List.length l mod BLOCK)%nat in
  (l ++ List.repeat (Z.of_nat n) n)%list.

Definition padding_error : Js.Error := Js.mkError "Error" "padding is invalid" None.

(** Removal of the padding: the last byte [p] announces [p] bytes of value
    [p]; anything else is an error. *)
Definition remove_padding (l : list Z) : Js.Error + list Z :=
  match List.rev l with
  | [] => inr l
  | p :: _ =>
      let n := Z.of_nat (List.length l) in
      if (p <=? n) && List.forallb (Z.eqb p) (skipn (Z.to_nat (n - p)) l)
      then inr (firstn (Z.to_nat (n - p)) l)
      else inl padding_error
  end.

(** The options object of a call. *)
Record options : Type := mkOptions
  { mode : string; padding : string; iv : string }.

Definition pads (o : options) : bool :=
  String.eqb (padding o) "pkcs#5" || String.eqb (padding o) "pkcs#7".

(** The library's [sm4(inArray, key, cryptFlag, options)] with string input
    and output: text in and hexadecimal out for encryption, the converse for
    decryption.  Key and iv are hexadecimal strings. *)
Definition sm4 (inArray : Js.value) (key : string) (decrypt : bool)
           (o : options) : Js.Error + string :=
  let cbc := String.eqb (mode o) "cbc" in
  let ivb := Bytes.hexToArray (iv o) in
  if cbc && negb (List.length ivb =? BLOCK)%nat
  then inl (Js.mkError "Error" "iv is invalid" None)
  else
    let keyb := Bytes.hexToArray key in
    if negb (List.length keyb =? BLOCK)%nat
    then inl (Js.mkError "Error" "key is invalid" None)
    else
      match inArray with
      | Js.VStr s =>
          match (if decrypt then inr (Bytes.hexToArray s)
                 else Bytes.utf8ToArray s) with
          | inl e => inl e
          | inr input =>
              let input :=
                if pads o && negb decrypt then add_padding input
                else input in
              let roundKey := sms4KeyExt keyb decrypt in
              let outArray :=
                crypt_blocks cbc decrypt roundKey ivb (blocks input) in
              if decrypt then
                if pads o then
                  match remove_padding outArray with
                  | inr out => Bytes.arrayToUtf8 out
                  | inl e => inl e
                  end
                else Bytes.arrayToUtf8 outArray
              else inr (Bytes.ArrayToHex outArray)
          end
      | _ => inl (Js.TypeError (Js.typeof inArray ++ " is not iterable"))
      end.

Definition encrypt (inArray : Js.value) (key : string) (o : options)
  : Js.Error + string := sm4 inArray key false o.

Definition decrypt (inArray : Js.value) (key : string) (o : options)
  : Js.Error + string := sm4 inArray key true o.

End Sm4.

(* ================================================================== *)
(** * Effects *)
(* ================================================================== *)

(** What a call to [axios] is given, and what it resolves to. *)
Module Axios.

Record config : Type := mkConfig
  { method : string;
    url : string;
    headers : list (string * Js.value);
    data : string;
    timeout : option Z;            (* milliseconds; absent: no timeout *)
    responseType : option string }.

Record response : Type := mkResponse
  { status : Z;
    body : Js.value }.             (* [response.data] *)

End Axios.

(** The environment of a run: what the clock, the random source, the
    asymmetric encryption (which draws its own randomness), the network and
    the JSON parser answer.  The [k]-th reading, draw or call of a run gets
    the answer at index [k].  [loop_fuel] bounds the iterations of a loop
    the source leaves unbounded.  In a run of the program a clock reading
    is a whole number of milliseconds (a safe integer) and a draw is a
    number of [0, 1); the properties that depend on it say so. *)
Record Env : Type := mkEnv
  { Date_now : nat -> Z;
    Math_random : nat -> JsNumber.double;
    sm2_doEncrypt : nat -> string -> string -> Z -> Js.Error + string;
    axios : nat -> Axios.config -> Js.Error + Axios.response;
    JSON_parse : string -> Js.Error + Js.value;
    loop_fuel : nat }.

(** The state a run threads: how many clock readings, random draws and
    asymmetric encryptions it has made, the network calls it has issued
    (oldest first) and the number of lines it has logged. *)
Record World : Type := mkWorld
  { clock_reads : nat;
    random_draws : nat;
    sm2_calls : nat;
    network : list Axios.config;
    console : nat }.

Definition initial : World := mkWorld 0 0 0 [] 0.

(** How a computation ends: with a value, with a thrown error, or with the
    fuel of a loop exhausted. *)
Inductive outcome (A : Type) : Type :=
| Return (a : A)
| Throw (e : Js.Error)
| OutOfFuel.

Arguments Return {A} a.
Arguments Throw {A} e.
Arguments OutOfFuel {A}.

Definition M (A : Type) : Type := World -> World * outcome A.

Definition ret {A : Type} (a : A) : M A := fun w => (w, Return a).

Definition throw {A : Type} (e : Js.Error) : M A := fun w => (w, Throw e).

Definition bind {A B : Type} (m : M A) (k : A -> M B) : M B :=
  fun w =>
    match m w with
    | (w', Return a) => k a w'
    | (w', Throw e) => (w', Throw e)
    | (w', OutOfFuel) => (w', OutOfFuel)
    end.

(** [try { m } catch (e) { handler e }]. *)
Definition try_catch {A : Type} (m : M A) (handler : Js.Error -> M A) : M A :=
  fun w =>
    match m w with
    | (w', Throw e) => handler e w'
    | r => r
    end.

(** A library call that returns or throws. *)
Definition lift {A : Type} (r : Js.Error + A) : M A :=
  match r with
  | inr a => ret a
  | inl e => throw e
  end.

Notation "x <- m ;; k" := (bind m (fun x => k))
  (at level 61, m at next level, right associativity).

(** [console.log(...)] and [console.error(...)]: one more line. *)
Definition console_log : M unit :=
  fun w => (mkWorld (clock_reads w) (random_draws w) (sm2_calls w)
                    (network w) (S (console w)), Return tt).

(** The constant strings of the program that are not ASCII, by their UTF-8
    bytes. *)
Definition text_exit : string := Eval vm_compute in
  Bytes.to_string [229; 135; 186; 229; 162; 131].
Definition text_entry : string := Eval vm_compute in
  Bytes.to_string [229; 133; 165; 229; 162; 131].
Definition text_port_required : string := Eval vm_compute in
  Bytes.to_string [229; 143; 163; 229; 178; 184; 229; 175; 185; 232; 177; 161;
                   228; 184; 141; 232; 131; 189; 228; 184; 186; 231; 169; 186].

(* ================================================================== *)
(** * The program *)
(* ================================================================== *)

(** The configuration object [CONFIG]. *)
Record Config : Type := mkConfigRecord
  { baseUrl : string;
    aepAppKey : string;
    aepSecret : string;
    sm2PublicKey : string }.

Definition CONFIG : Config :=
  {| baseUrl := "https://i.ka.sz.gov.cn";
     aepAppKey := "ysxt";
     aepSecret := "791685057029865473";
     sm2PublicKey :=
       "04957D171CF9866FAD456FC18578E2F31D07244EC9828E17B990BB7A6F1EF520" ++
       "255A776ADAFC64FD8B9ECA59F4159402DCE0AB6E3AB1D74DCD60B363280F1443E8" |}.

(** What [generateKaHeaders] returns. *)
Record KaHeaders : Type := mkKaHeaders
  { headers : list (string * Js.value);
    key : string;
    iv : string }.

(** [generateAepSignature]: SHA-256 of the concatenation, in upper case. *)
Definition generateAepSignature (timestamp appKey nonce secret : string)
  : string :=
  let signStr := (((timestamp ++ appKey) ++ nonce) ++ secret) ++ timestamp in
  JsString.toUpperCase (Sha256.hex signStr).

(** [generateKaSignature]: SM3 of the concatenation, in upper case.  The
    timestamp is a safe integer (at most 2^53 - 1 in absolute value, as
    [Math.floor(Date.now() / 1000)] is), which the concatenation writes in
    decimal with all its digits. *)
Definition generateKaSignature (nonce : string) (timestamp : Z)
  : Js.Error + string :=
  let signStr :=
    (JsString.of_int 10 timestamp ++ nonce) ++ JsString.of_int 10 timestamp in
  match Sm3.sm3 signStr with
  | inr h => inr (JsString.toUpperCase h)
  | inl e => inl e
  end.

(** The options both cipher calls pass: [{mode: 'cbc', padding: 'pkcs#5',
    iv: iv}]. *)
Definition sm4_options (iv : string) : Sm4.options :=
  {| Sm4.mode := "cbc"; Sm4.padding := "pkcs#5"; Sm4.iv := iv |}.

(** [sm4Encrypt]: a string is encrypted as it is, any other value through
    its JSON text. *)
Definition sm4Encrypt (data : Js.value) (key iv : string)
  : Js.Error + string :=
  let plaintext :=
    if String.eqb (Js.typeof data) "string" then data
    else Js.JSON_stringify data in
  Sm4.encrypt plaintext key (sm4_options iv).

(** [sm4Decrypt]. *)
Definition sm4Decrypt (ciphertext key iv : string) : Js.Error + string :=
  Sm4.decrypt (Js.VStr ciphertext) key (sm4_options iv).

(** [(Math.random() * Math.pow(10, 10)).toString(16)] for the draw [r]. *)
Definition draw_text (r : JsNumber.double) : string :=
  JsNumber.toString16 (JsNumber.mul r (JsNumber.of_Z (10 ^ 10))).

(** What one draw adds to the result of [randomHex]: the text of the draw up
    to its point. *)
Definition draw_chunk (r : JsNumber.double) : string :=
  let rand := draw_text r in
  JsString.substring rand 0 (JsString.indexOf rand ".").

Section Envelope.

Variable env : Env.

(** [Date.now()]. *)
Definition now : M Z :=
  fun w => (mkWorld (S (clock_reads w)) (random_draws w) (sm2_calls w)
                    (network w) (console w),
            Return (Date_now env (clock_reads w))).

(** [Math.random()]. *)
Definition random : M JsNumber.double :=
  fun w => (mkWorld (clock_reads w) (S (random_draws w)) (sm2_calls w)
                    (network w) (console w),
            Return (Math_random env (random_draws w))).

(** [sm2.doEncrypt(msg, publicKey, cipherMode)]. *)
Definition doEncrypt (msg publicKey : string) (cipherMode : Z) : M string :=
  fun w => (mkWorld (clock_reads w) (random_draws w) (S (sm2_calls w))
                    (network w) (console w),
            match sm2_doEncrypt env (sm2_calls w) msg publicKey cipherMode with
            | inr c => Return c
            | inl e => Throw e
            end).

(** [await axios(config)]. *)
Definition send (c : Axios.config) : M Axios.response :=
  fun w => (mkWorld (clock_reads w) (random_draws w) (sm2_calls w)
                    (network w ++ [c])%list (console w),
            match axios env (List.length (network w)) c with
            | inr r => Return r
            | inl e => Throw e
            end).

(** The arrow function [hex] of [generateUUID]. *)
Definition generateUUID_hex : M string :=
  r <- random ;;
  ret (JsString.substring_from
         (JsString.of_int 16
            (JsNumber.floor
               (JsNumber.mul (JsNumber.add (JsNumber.of_Z 1) r)
                             (JsNumber.of_Z 65536))))
         1).

(** [generateUUID()]: eight groups of four hexadecimal digits. *)
Definition generateUUID : M string :=
  h1 <- generateUUID_hex ;;
  h2 <- generateUUID_hex ;;
  h3 <- generateUUID_hex ;;
  h4 <- generateUUID_hex ;;
  h5 <- generateUUID_hex ;;
  h6 <- generateUUID_hex ;;
  h7 <- generateUUID_hex ;;
  h8 <- generateUUID_hex ;;
  ret (JsString.concat
         [h1; h2; "-"; h3; "-"; h4; "-"; h5; "-"; h6; h7; h8]).

(** The loop of [randomHex]. *)
Fixpoint randomHex_loop (fuel : nat) (length : Z) (result : string)
  : M string :=
  if JsString.len result <? length then
    match fuel with
    | O => fun w => (w, OutOfFuel)
    | S fuel' =>
        r <- random ;;
        randomHex_loop fuel' length (result ++ draw_chunk r)
    end
  else ret result.

(** [randomHex(length)]. *)
Definition randomHex (length : Z) : M string :=
  result <- randomHex_loop (loop_fuel env) length "" ;;
  ret (JsString.padStart (JsString.slice result 0 length) length "0").

(** [generateAepHeaders()]: the outer layer reads the clock itself. *)
Definition generateAepHeaders : M (list (string * Js.value)) :=
  t <- now ;;
  let timestamp :=
    JsNumber.toFixed3 (JsNumber.div (JsNumber.of_Z t) (JsNumber.of_Z 1000)) in
  nonce <- generateUUID ;;
  let signature :=
    generateAepSignature timestamp (aepAppKey CONFIG) nonce
                         (aepSecret CONFIG) in
  ret [ ("x-aep-appkey", Js.VStr (aepAppKey CONFIG));
        ("x-aep-timestamp", Js.VStr timestamp);
        ("x-aep-nonce", Js.VStr nonce);
        ("x-aep-signature", Js.VStr signature) ].

(** [encryptKeyWithSm2(key, iv)]. *)
Definition encryptKeyWithSm2 (key iv : string) : M string :=
  let plaintext := (key ++ "&") ++ iv in
  ciphertext <- doEncrypt plaintext (sm2PublicKey CONFIG) 1 ;;
  ret ("04" ++ JsString.toUpperCase ciphertext).

(** [generateKaHeaders()]: the inner layer reads the clock itself, too. *)
Definition generateKaHeaders : M KaHeaders :=
  t <- now ;;
  let timestamp :=
    JsNumber.floor (JsNumber.div (JsNumber.of_Z t) (JsNumber.of_Z 1000)) in
  nonce <- generateUUID ;;
  signature <- lift (generateKaSignature nonce timestamp) ;;
  key <- randomHex 32 ;;
  iv <- randomHex 32 ;;
  encryptedKey <- encryptKeyWithSm2 key iv ;;
  ret {| headers :=
           [ ("x-ka-timestamp", Js.VStr (JsString.of_int 10 timestamp));
             ("x-ka-nonce", Js.VStr nonce);
             ("x-ka-signature", Js.VStr signature);
             ("x-ka-t", Js.VStr encryptedKey) ];
         key := key;
         iv := iv |}.

End Envelope.

(** ** The CCTV client (the first program of the file) *)
Module CctvClient.

Section Client.

Variable env : Env.

(** [request(path, data = {})]. *)
Definition request (path : string) (data : Js.value) : M Js.value :=
  let data := Js.default data (Js.VObj []) in
  aepHeaders <- generateAepHeaders env ;;
  ka <- generateKaHeaders env ;;
  encryptedData <- lift (sm4Encrypt data (key ka) (iv ka)) ;;
  let headers :=
    Js.spread (Js.spread aepHeaders (headers ka))
      [ ("Content-Type", Js.VStr "application/json");
        ("Accept", Js.VStr "application/json, text/plain, */*");
        ("Origin", Js.VStr (baseUrl CONFIG));
        ("Referer", Js.VStr (baseUrl CONFIG)) ] in
  response <- send env
    {| Axios.method := "POST";
       Axios.url := (baseUrl CONFIG ++ "/local/ika-api") ++ path;
       Axios.headers := headers;
       Axios.data := encryptedData;
       Axios.timeout := Some 30000;
       Axios.responseType := None |} ;;
  match Axios.body response with
  | Js.VStr s =>
      if 0 <? JsString.len s then
        decryptedData <- lift (sm4Decrypt s (key ka) (iv ka)) ;;
        lift (JSON_parse env decryptedData)
      else ret (Axios.body response)
  | _ => ret (Axios.body response)
  end.

(** [getPortList()]. *)
Definition getPortList : M Js.value :=
  result <- request "/open/port"
              (Js.VObj [("pageNum", Js.VNum 1); ("pageSize", Js.VNum 20)]) ;;
  rows <- lift (Js.get result "rows") ;;
  ret (Js.or rows (Js.VArr [])).

(** [getMonitorPic(portId, cameraCode, cameraType)]. *)
Definition getMonitorPic (portId cameraCode cameraType : Js.value)
  : M Js.value :=
  request "/open/port/getPortMonitorPic"
          (Js.VObj [("portId", portId); ("code", cameraCode);
                    ("type", cameraType)]).

(** [camera.type === '1' ? '出境' : '入境']. *)
Definition direction (type : Js.value) : Js.value :=
  Js.VStr (if Js.strict_eq_str type "1" then text_exit else text_entry).

(** The body of the [try] block of the camera loop: the arguments are read,
    the picture is requested, the entry is built. *)
Definition camera_try (port camera : Js.value) : M Js.value :=
  code <- lift (Js.get camera "code") ;;
  type <- lift (Js.get camera "type") ;;
  picResult <- getMonitorPic (Js.prop port "id") code type ;;
  name <- lift (Js.get camera "name") ;;
  data <- lift (Js.get picResult "data") ;;
  ret (Js.VObj
         [ ("name", name);
           ("code", code);
           ("type", direction type);
           ("imageUrl",
            Js.or (Js.or (Js.get_opt data "picUrl")
                         (Js.prop picResult "videoPic"))
                  Js.VNull) ]).

(** The body of its [catch] block. *)
Definition camera_catch (camera : Js.value) (e : Js.Error) : M Js.value :=
  name <- lift (Js.get camera "name") ;;
  code <- lift (Js.get camera "code") ;;
  type <- lift (Js.get camera "type") ;;
  ret (Js.VObj
         [ ("name", name);
           ("code", code);
           ("type", direction type);
           ("imageUrl", Js.VNull);
           ("error", Js.VStr (Js.message e)) ]).

(** The camera loop: one entry pushed per camera. *)
Fixpoint camera_loop (port : Js.value) (items : list Js.value)
         (cameras : list Js.value) : M (list Js.value) :=
  match items with
  | [] => ret cameras
  | camera :: rest =>
      entry <- try_catch (camera_try port camera) (camera_catch camera) ;;
      camera_loop port rest (cameras ++ [entry])%list
  end.

(** The list of cameras of a port: parsed from a string (nothing on a parse
    error), taken as it is from an array, empty otherwise. *)
Definition entryAndExitList (port : Js.value) : M Js.value :=
  let json := Js.prop port "entryAndExitJson" in
  match json with
  | Js.VStr s =>
      try_catch (lift (JSON_parse env s)) (fun _ => ret (Js.VArr []))
  | Js.VArr _ => ret json
  | _ => ret (Js.VArr [])
  end.

(** [getPortCCTVImages(port)]. *)
Definition getPortCCTVImages (port : Js.value) : M Js.value :=
  if negb (Js.truthy port)
  then throw (Js.mkError "Error" text_port_required None)
  else
    cameraList <- entryAndExitList port ;;
    items <- lift (Js.iterate cameraList) ;;
    cameras <- camera_loop port items [] ;;
    ret (Js.VObj
           [ ("portId", Js.prop port "id");
             ("portName", Js.prop port "portName");
             ("smoothness", Js.prop port "smoothness");
             ("exit", Js.prop port "exit");
             ("entry", Js.prop port "entry");
             ("exitClearanceTime", Js.prop port "exitClearanceTime");
             ("entryClearanceTime", Js.prop port "entryClearanceTime");
             ("cameras", Js.VArr cameras) ]).

(** The body of the [catch] block of the port loop. *)
Definition port_catch (port : Js.value) (e : Js.Error) : M Js.value :=
  id <- lift (Js.get port "id") ;;
  portName <- lift (Js.get port "portName") ;;
  ret (Js.VObj
         [ ("portId", id);
           ("portName", portName);
           ("error", Js.VStr (Js.message e));
           ("cameras", Js.VArr []) ]).

(** The port loop: the name of the port is read, written into the text of
    the log line and logged, then one entry is pushed per port. *)
Fixpoint port_loop (ports : list Js.value) (results : list Js.value)
  : M (list Js.value) :=
  match ports with
  | [] => ret results
  | port :: rest =>
      portName <- lift (Js.get port "portName") ;;
      _ <- lift (Js.toString portName) ;;
      _ <- console_log ;;
      entry <- try_catch (getPortCCTVImages port) (port_catch port) ;;
      port_loop rest (results ++ [entry])%list
  end.

(** [getAllPortsCCTV()]. *)
Definition getAllPortsCCTV : M Js.value :=
  ports <- getPortList ;;
  items <- lift (Js.iterate ports) ;;
  results <- port_loop items [] ;;
  ret (Js.VArr results).

End Client.

End CctvClient.

(** ** The API client (the second program of the file) *)
Module ApiClient.

Section Client.

Variable env : Env.

Fixpoint console_logs (n : nat) : M unit :=
  match n with
  | O => ret tt
  | S n' => _ <- console_log ;; console_logs n'
  end.

(** The [catch] block of [request]: the error is logged, with the response
    it carries if any, and thrown again. *)
Definition request_catch (e : Js.Error) : M Js.value :=
  _ <- console_logs 2 ;;
  _ <- match Js.response e with
       | Some _ => console_logs 2
       | None => ret tt
       end ;;
  throw e.

(** [request(path, data = {}, method = 'POST')]; [None] is an absent
    method. *)
Definition request (path : string) (data : Js.value) (method : option string)
  : M Js.value :=
  let data := Js.default data (Js.VObj []) in
  let method := match method with Some m => m | None => "POST" end in
  aepHeaders <- generateAepHeaders env ;;
  ka <- generateKaHeaders env ;;
  encryptedData <- lift (sm4Encrypt data (key ka) (iv ka)) ;;
  let headers :=
    Js.spread (Js.spread aepHeaders (headers ka))
      [ ("Content-Type", Js.VStr "application/json");
        ("Accept", Js.VStr "application/json, text/plain, */*");
        ("Origin", Js.VStr (baseUrl CONFIG));
        ("Referer", Js.VStr (baseUrl CONFIG)) ] in
  _ <- console_logs 8 ;;
  try_catch
    (response <- send env
       {| Axios.method := method;
          Axios.url := (baseUrl CONFIG ++ "/local/ika-api") ++ path;
          Axios.headers := headers;
          Axios.data := encryptedData;
          Axios.timeout := Some 30000;
          Axios.responseType := None |} ;;
     _ <- console_logs 3 ;;
     match Axios.body response with
     | Js.VStr s =>
         if 0 <? JsString.len s then
           decryptedData <- lift (sm4Decrypt s (key ka) (iv ka)) ;;
           _ <- console_log ;;
           try_catch (lift (JSON_parse env decryptedData))
                     (fun _ => ret (Js.VStr decryptedData))
         else ret (Axios.body response)
     | _ => ret (Axios.body response)
     end)
    request_catch.

(** [getPortList()]. *)
Definition getPortList : M Js.value :=
  request "/open/port"
          (Js.VObj [("pageNum", Js.VNum 1); ("pageSize", Js.VNum 20)]) None.

(** [downloadFile(fileId)]. *)
Definition downloadFile (fileId : Js.value) : M Js.value :=
  aepHeaders <- generateAepHeaders env ;;
  ka <- generateKaHeaders env ;;
  let headers :=
    Js.spread (Js.spread aepHeaders (headers ka))
      [ ("Content-Type", Js.VStr "application/json");
        ("x-ka-fileid", fileId) ] in
  encryptedData <- lift (sm4Encrypt (Js.VObj []) (key ka) (iv ka)) ;;
  response <- send env
    {| Axios.method := "POST";
       Axios.url := baseUrl CONFIG ++ "/local/ika-api/file/download";
       Axios.headers := headers;
       Axios.data := encryptedData;
       Axios.timeout := None;
       Axios.responseType := Some "arraybuffer" |} ;;
  ret (Axios.body response).

End Client.

(** The arrow function [clearAppId] of [main]: every [appId] of the data is
    set to the empty string, in every object at every depth.  The source
    writes into the objects of [cleanData], a copy no other variable
    reaches ([JSON.parse(JSON.stringify(result))]); the function here
    returns what the data has become.  The source writes the empty string
    and then visits the values of the object, the written one included, on
    which nothing is done; here the values are visited and the empty string
    is written over the visited value. *)
Fixpoint clearAppId (obj : Js.value) : Js.value :=
  match obj with
  | Js.VArr items => Js.VArr (List.map clearAppId items)
  | Js.VObj props =>
      let values := List.map (fun kv => (fst kv, clearAppId (snd kv))) props in
      Js.VObj (match Js.lookup "appId" props with
               | Some _ => Js.set "appId" (Js.VStr "") values
               | None => values
               end)
  | _ => obj
  end.

End ApiClient.

(* ================================================================== *)
(** * A reference environment *)
(* ================================================================== *)

(** A JSON reader for the values of [Js.value]: objects, arrays, strings
    with their escapes, [true], [false], [null] and integer numbers.  It is
    the [JSON_parse] of the reference environment; a number with a fraction
    or an exponent has no counterpart in [Js.value] and is refused here. *)
Module Json.

Definition syntax_error : Js.Error :=
  Js.mkError "SyntaxError" "Unexpected token in JSON" None.

Definition is_space (c : ascii) : bool :=
  let n := nat_of_ascii c in
  ((n =? 32) || (n =? 9) || (n =? 10) || (n =? 13))%nat.

Fixpoint skip_ws (s : string) : string :=
  match s with
  | String c s' => if is_space c then skip_ws s' else s
  | EmptyString => s
  end.

(** [s] without the prefix [p], when it starts with it. *)
Fixpoint strip (p s : string) : option string :=
  match p, s with
  | EmptyString, _ => Some s
  | String a p', String b s' => if Ascii.eqb a b then strip p' s' else None
  | _, _ => None
  end.

Fixpoint read_digits (s : string) (acc : Z) : Z * string :=
  match s with
  | String c s' =>
      if JsString.is_digit c
      then read_digits s' (10 * acc + (Z.of_nat (nat_of_ascii c) - 48))
      else (acc, s)
  | EmptyString => (acc, s)
  end.

(** An integer literal: no leading zero, no fraction, no exponent. *)
Definition read_int (s : string) : option (Z * string) :=
  let (neg, s1) :=
    match s with
    | String "-" s' => (true, s')
    | _ => (false, s)
    end in
  match s1 with
  | String c s2 =>
      if JsString.is_digit c then
        let (n, rest) :=
          if Ascii.eqb c "0" then (0, s2) else read_digits s1 0 in
        match rest with
        | String d _ =>
            if JsString.is_digit d || Ascii.eqb d "." || Ascii.eqb d "e"
               || Ascii.eqb d "E"
            then None
            else Some (if neg then - n else n, rest)
        | EmptyString => Some (if neg then - n else n, rest)
        end
      else None
  | EmptyString => None
  end.

(** The UTF-8 bytes of a code point of the basic plane. *)
Definition utf8 (n : Z) : string :=
  Bytes.to_string
    (if n <? 128 then [n]
     else if n <? 2048 then [192 + n / 64; 128 + n mod 64]
     else [224 + n / 4096; 128 + (n / 64) mod 64; 128 + n mod 64]).

Definition read_hex4 (s : string) : option (Z * string) :=
  match s with
  | String a (String b (String c (String d rest))) =>
      match Bytes.digit_value a, Bytes.digit_value b,
            Bytes.digit_value c, Bytes.digit_value d with
      | Some x, Some y, Some z, Some t =>
          Some (((x * 16 + y) * 16 + z) * 16 + t, rest)
      | _, _, _, _ => None
      end
  | _ => None
  end.

(** The characters of a string literal after its opening quote. *)
Fixpoint read_string (fuel : nat) (s : string) : option (string * string) :=
  match fuel with
  | O => None
  | S fuel' =>
      match s with
      | EmptyString => None
      | String c rest =>
          if Ascii.eqb c Js.quote_char then Some (EmptyString, rest)
          else if Ascii.eqb c Js.backslash then
            match rest with
            | String e rest' =>
                let continue (t : string) (r : string) :=
                  match read_string fuel' r with
                  | Some (u, r') => Some (t ++ u, r')
                  | None => None
                  end in
                if Ascii.eqb e "u" then
                  match read_hex4 rest' with
                  | Some (n, r) =>
                      if (55296 <=? n) && (n <=? 57343) then None
                      else continue (utf8 n) r
                  | None => None
                  end
                else if Ascii.eqb e "n" then continue (utf8 10) rest'
                else if Ascii.eqb e "t" then continue (utf8 9) rest'
                else if Ascii.eqb e "r" then continue (utf8 13) rest'
                else if Ascii.eqb e "b" then continue (utf8 8) rest'
                else if Ascii.eqb e "f" then continue (utf8 12) rest'
                else if Ascii.eqb e "/" || Ascii.eqb e Js.backslash
                        || Ascii.eqb e Js.quote_char
                then continue (String e EmptyString) rest'
                else None
            | EmptyString => None
            end
          else if (nat_of_ascii c <? 32)%nat then None
          else
            match read_string fuel' rest with
            | Some (u, r) => Some (String c u, r)
            | None => None
            end
      end
  end.

Definition read_quoted (s : string) : option (string * string) :=
  match s with
  | String c rest =>
      if Ascii.eqb c Js.quote_char
      then read_string (S (String.length rest)) rest
      else None
  | EmptyString => None
  end.

Fixpoint read_value (fuel : nat) (s : string) : option (Js.value * string) :=
  match fuel with
  | O => None
  | S fuel' =>
      match skip_ws s with
      | EmptyString => None
      | String c rest as s0 =>
          if Ascii.eqb c "{" then
            match skip_ws rest with
            | String "}" r => Some (Js.VObj [], r)
            | members =>
                (fix loop (n : nat) (t : string)
                     (acc : list (string * Js.value)) :=
                   match n with
                   | O => None
                   | S n' =>
                       match read_quoted (skip_ws t) with
                       | Some (k, t1) =>
                           match skip_ws t1 with
                           | String ":" t2 =>
                               match read_value fuel' t2 with
                               | Some (v, t3) =>
                                   match skip_ws t3 with
                                   | String "," t4 =>
                                       loop n' t4 (Js.set k v acc)
                                   | String "}" t4 =>
                                       Some (Js.VObj (Js.set k v acc), t4)
                                   | _ => None
                                   end
                               | None => None
                               end
                           | _ => None
                           end
                       | None => None
                       end
                   end) (String.length members) members []
            end
          else if Ascii.eqb c "[" then
            match skip_ws rest with
            | String "]" r => Some (Js.VArr [], r)
            | elements =>
                (fix loop (n : nat) (t : string) (acc : list Js.value) :=
                   match n with
                   | O => None
                   | S n' =>
                       match read_value fuel' t with
                       | Some (v, t1) =>
                           match skip_ws t1 with
                           | String "," t2 => loop n' t2 (acc ++ [v])%list
                           | String "]" t2 =>
                               Some (Js.VArr (acc ++ [v])%list, t2)
                           | _ => None
                           end
                       | None => None
                       end
                   end) (String.length elements) elements []
            end
          else if Ascii.eqb c Js.quote_char then
            match read_quoted s0 with
            | Some (t, r) => Some (Js.VStr t, r)
            | None => None
            end
          else
            match strip "true" s0, strip "false" s0, strip "null" s0 with
            | Some r, _, _ => Some (Js.VBool true, r)
            | _, Some r, _ => Some (Js.VBool false, r)
            | _, _, Some r => Some (Js.VNull, r)
            | _, _, _ =>
                match read_int s0 with
                | Some (n, r) => Some (Js.VNum n, r)
                | None => None
                end
            end
      end
  end.

(** The whole text must be one value. *)
Definition parse (s : string) : Js.Error + Js.value :=
  match read_value (S (String.length s)) s with
  | Some (v, rest) =>
      match skip_ws rest with
      | EmptyString => inr v
      | _ => inl syntax_error
      end
  | None => inl syntax_error
  end.

End Json.

(** A deterministic environment to run the program in: a clock that
    advances by one millisecond per reading, a multiplicative random source,
    and a mock of the service.  The mock of the asymmetric encryption writes
    its message in hexadecimal, so the mock service can unwrap the key
    material of a request, decrypt its body, and encrypt its reply under the
    same key and iv. *)
Module Reference.

Definition clock (start : Z) (k : nat) : Z := start + Z.of_nat k.

(** One period of the random source: 97 multiples of 2^-53 in [0, 1). *)
Definition draws : list JsNumber.double := Eval vm_compute in
  List.map (fun k => binary_normalize JsNumber.prec JsNumber.emax
                       (((Z.of_nat k + 1) * 6364136223846793005) mod 2 ^ 53)
                       (-53) false)
           (List.seq 0 97).

(** The draw of index [k]. *)
Definition draw (k : nat) : JsNumber.double :=
  nth (k mod 97) draws (S754_zero false).

Definition sm2 (k : nat) (msg publicKey : string) (cipherMode : Z)
  : Js.Error + string :=
  inr (Bytes.ArrayToHex (Bytes.of_string msg)).

(** [s] cut at the first [c]. *)
Definition split_at (c : ascii) (s : string) : string * string :=
  let i := JsString.indexOf s c in
  if i <? 0 then (s, EmptyString)
  else (JsString.substring s 0 i, JsString.substring_from s (i + 1)).

(** The key and iv a request carries in its [x-ka-t] header. *)
Definition unwrap (c : Axios.config) : string * string :=
  match Js.lookup "x-ka-t" (Axios.headers c) with
  | Some (Js.VStr t) =>
      split_at "&" (Bytes.to_string
                      (Bytes.hexToArray (JsString.substring_from t 2)))
  | _ => (EmptyString, EmptyString)
  end.

Definition timeout_error : Js.Error :=
  Js.mkError "AxiosError" "timeout of 30000ms exceeded" None.

(** A service given by [reply]: for the call of index [k], its URL and its
    decrypted body, the text to send back encrypted ([inr (Some text)]), an
    empty body ([inr None]) or a failure of the call ([inl e]). *)
Definition service
  (reply : nat -> string -> string -> Js.Error + option string)
  (k : nat) (c : Axios.config) : Js.Error + Axios.response :=
  let (key, iv) := unwrap c in
  match sm4Decrypt (Axios.data c) key iv with
  | inl e => inl e
  | inr body =>
      match reply k (Axios.url c) body with
      | inl e => inl e
      | inr None => inr (Axios.mkResponse 200 (Js.VStr EmptyString))
      | inr (Some text) =>
          match sm4Encrypt (Js.VStr text) key iv with
          | inr ct => inr (Axios.mkResponse 200 (Js.VStr ct))
          | inl e => inl e
          end
      end
  end.

Definition env_of (start : Z)
  (server : nat -> Axios.config -> Js.Error + Axios.response) : Env :=
  {| Date_now := clock start;
     Math_random := draw;
     sm2_doEncrypt := sm2;
     axios := server;
     JSON_parse := Json.parse;
     loop_fuel := 64 |}.

(** The service that sends every request body back. *)
Definition echo : Env :=
  env_of 1762117200123 (service (fun _ _ body => inr (Some body))).

End Reference.

(* ================================================================== *)
(** * Environments of the examples *)
(* ================================================================== *)

(** The draw 0.5: scaled by 10^10 it is the whole number 5000000000, whose
    text has no point. *)
Definition one_half : JsNumber.double := S754_finite false 4503599627370496 (-53).

(** An environment whose random source always draws 0.5. *)
Definition stuck_env (fuel : nat) : Env :=
  {| Date_now := Reference.clock 0;
     Math_random := fun _ => one_half;
     sm2_doEncrypt := Reference.sm2;
     axios := fun _ _ => inl Reference.timeout_error;
     JSON_parse := Json.parse;
     loop_fuel := fuel |}.

(** The request body of [getPortList]. *)
Definition port_query : Js.value :=
  Js.VObj [("pageNum", Js.VNum 1); ("pageSize", Js.VNum 20)].

(** The echoing service, with a clock at 1762117200999: the next reading
    falls in the next second. *)
Definition boundary : Env :=
  Reference.env_of 1762117200999
    (Reference.service (fun _ _ body => inr (Some body))).

(** A service that answers every request with the encrypted [text]. *)
Definition answering (text : string) : Env :=
  Reference.env_of 1762117200123
    (Reference.service (fun _ _ _ => inr (Some text))).

(** The service answers with an object whose rows are an array of one
    port. *)
Definition one_port_text : string :=
  "{" ++ Js.quote "rows" ++ ":[{" ++ Js.quote "id" ++ ":7}]}".

(** A mock of the service for the batch: one port with three cameras; the
    request for the picture of the second camera times out. *)
Module Scenario.

Definition camera (name code type : string) : Js.value :=
  Js.VObj [("name", Js.VStr name); ("code", Js.VStr code);
           ("type", Js.VStr type)].

Definition cameras : list Js.value :=
  [camera "north" "01" "1"; camera "south" "02" "2"; camera "east" "03" "1"].

Definition text_of (v : Js.value) : string :=
  match Js.stringify v with Some s => s | None => EmptyString end.

Definition port : Js.value := Eval vm_compute in
  Js.VObj [("id", Js.VNum 7); ("portName", Js.VStr "Futian");
           ("entryAndExitJson", Js.VStr (text_of (Js.VArr cameras)))].

Definition ports_text : string := Eval vm_compute in
  text_of (Js.VObj [("rows", Js.VArr [port])]).

Definition picture_text : string := Eval vm_compute in
  text_of (Js.VObj [("data", Js.VObj [("picUrl", Js.VStr "http://pic/1")])]).

Definition reply (k : nat) (url body : string) : Js.Error + option string :=
  if String.eqb url "https://i.ka.sz.gov.cn/local/ika-api/open/port"
  then inr (Some ports_text)
  else
    match Json.parse body with
    | inr query =>
        if Js.strict_eq_str (Js.prop query "code") "02"
        then inl Reference.timeout_error
        else inr (Some picture_text)
    | inl e => inl e
    end.

Definition env : Env :=
  Reference.env_of 1762117200123 (Reference.service reply).

End Scenario.

(** The character U+E0100 (VARIATION SELECTOR-17, which follows an
    ideograph in a variation sequence), and the character U+20100: their
    UTF-8 encodings differ in the first byte only. *)
Definition selector_17 : string :=
  Eval vm_compute in Bytes.to_string [0xf3; 0xa0; 0x84; 0x80].
Definition ideograph_20100 : string :=
  Eval vm_compute in Bytes.to_string [0xf0; 0xa0; 0x84; 0x80].

(** A key and an iv of the reference random source. *)
Definition sample_key : string := "1d82bffb16bed3789664bcb161b4b642".
Definition sample_iv : string := "af14d6321fd7f4dbff7dde14d2464858".

(** A text of three characters, of three bytes, four bytes and one byte:
    U+845B, U+1F600 and the letter a. *)
Definition sample_text : string :=
  Eval vm_compute in
    Bytes.to_string [0xe8; 0x91; 0x9b; 0xf0; 0x9f; 0x98; 0x80; 0x61].

(** Batches with an item that is null: a port whose second camera is null,
    and a list of ports whose first port is null.  The service answers
    every request. *)
Module NullItem.

Definition cameras : list Js.value :=
  [Scenario.camera "north" "01" "1"; Js.VNull; Scenario.camera "east" "03" "1"].

Definition port : Js.value := Eval vm_compute in
  Js.VObj [("id", Js.VNum 7); ("portName", Js.VStr "Futian");
           ("entryAndExitJson", Js.VStr (Scenario.text_of (Js.VArr cameras)))].

Definition ports_text : string := Eval vm_compute in
  Scenario.text_of (Js.VObj [("rows", Js.VArr [Js.VNull; Scenario.port])]).

Definition reply (k : nat) (url body : string) : Js.Error + option string :=
  if String.eqb url "https://i.ka.sz.gov.cn/local/ika-api/open/port"
  then inr (Some ports_text)
  else inr (Some Scenario.picture_text).

Definition env : Env :=
  Reference.env_of 1762117200123 (Reference.service reply).

End NullItem.

(* ================================================================== *)
(** * Vocabulary of the properties *)
(* ================================================================== *)

(** Bytes and 32-bit words, as ranges of integers. *)
Definition in_byte (x : Z) : Prop := 0 <= x < 256.
Definition in_word (x : Z) : Prop := 0 <= x < 2 ^ 32.

(** The four words of a cipher state are words. *)
Definition state_ok (x : Sm4.state) : Prop :=
  let '(x0, x1, x2, x3) := x in
  in_word x0 /\ in_word x1 /\ in_word x2 /\ in_word x3.

(** A block: 16 bytes. *)
Definition block_ok (b : list Z) : Prop :=
  List.length b = 16%nat /\ Forall in_byte b.

(** The ciphertext blocks of a CBC encryption, one per plaintext block. *)
Fixpoint cipher_blocks (roundKey lastVector : list Z) (bs : list (list Z))
  : list (list Z) :=
  match bs with
  | [] => []
  | b :: rest =>
      let c := Sm4.sms4Crypt (Sm4.xor_bytes b lastVector) roundKey in
      c :: cipher_blocks roundKey c rest
  end.

(** A key or an iv as the envelope generates them: 32 hexadecimal digits,
    that is 16 bytes. *)
Definition valid_key (k : string) : bool :=
  (String.length k =? 32)%nat && JsString.forallb JsString.is_hex k.

(** The text [sm4Encrypt] encrypts for [data]: the string itself, the JSON
    text of any other value that has one. *)
Definition plaintext_of (data : Js.value) : option string :=
  match data with
  | Js.VStr s => Some s
  | _ => Js.stringify data
  end.

(** Text made of ASCII characters only. *)
Definition ascii_text (s : string) : bool :=
  JsString.forallb (fun c => (nat_of_ascii c <? 128)%nat) s.

(** A Unicode scalar value: a code point up to U+10FFFF that is not a
    surrogate. *)
Definition scalar (p : Z) : bool :=
  (0 <=? p) && (p <=? 0x10FFFF)
  && negb ((0xD800 <=? p) && (p <=? 0xDFFF)).

Fixpoint same_bytes (a b : list Z) : bool :=
  match a, b with
  | [], [] => true
  | x :: a', y :: b' => (x =? y) && same_bytes a' b'
  | _, _ => false
  end.

(** Well-formed text: the UTF-8 encoding of its own code points, all of
    them scalar values. *)
Definition well_formed (s : string) : bool :=
  List.forallb scalar (Bytes.code_points s)
  && same_bytes (List.flat_map Bytes.utf8 (Bytes.code_points s))
                (Bytes.of_string s).

(** The code points U+40000 to U+FFFFF, whose first byte the library's
    [utf8ToArray] writes wrong. *)
Definition miscoded (p : Z) : bool := (0x40000 <=? p) && (p <=? 0xFFFFF).

(** Text the library converts to bytes and back as UTF-8: well-formed, and
    without a code point from U+40000 to U+FFFFF. *)
Definition convertible (s : string) : bool :=
  well_formed s && List.forallb (fun p => negb (miscoded p))
                                (Bytes.code_points s).

(** A safe integer: at most 2^53 - 1 in absolute value. *)
Definition safe_integer (n : Z) : bool := Z.abs n <? 2 ^ 53.

(** The draws of index [start .. start + count - 1] each contribute at least
    one character: their text has a point (the scaled draw has a fraction). *)
Definition productive (env : Env) (start count : nat) : bool :=
  List.forallb
    (fun k => negb (String.length (draw_chunk (Math_random env k)) =? 0)%nat)
    (List.seq start count).

(** A run that only draws random numbers leaves the rest of the world as it
    was. *)
Definition draws_only (w w' : World) : Prop :=
  clock_reads w' = clock_reads w /\ sm2_calls w' = sm2_calls w /\
  network w' = network w /\ console w' = console w /\
  (random_draws w <= random_draws w')%nat.

(** No draw is negative. *)
Definition nonneg_draws (env : Env) : Prop :=
  forall k, JsNumber.leb (JsNumber.of_Z 0) (Math_random env k) = true.

(** A computation that never runs out of fuel. *)
Definition terminates {A : Type} (m : M A) : Prop :=
  forall w, snd (m w) <> OutOfFuel.

(** Every draw contributes at least one character. *)
Definition Productive (env : Env) : Prop :=
  forall k, draw_chunk (Math_random env k) <> EmptyString.

(** The timestamp each layer derives from a clock reading [t] in
    milliseconds: [(t / 1000).toFixed(3)] for the outer layer,
    [Math.floor(t / 1000)] for the inner one. *)
Definition aep_timestamp (t : Z) : string :=
  JsNumber.toFixed3 (JsNumber.div (JsNumber.of_Z t) (JsNumber.of_Z 1000)).

Definition ka_timestamp (t : Z) : Z :=
  JsNumber.floor (JsNumber.div (JsNumber.of_Z t) (JsNumber.of_Z 1000)).

(** The asymmetric encryption answers the next call, whatever the text. *)
Definition sm2_answers (env : Env) (w : World) : Prop :=
  forall msg, exists c,
    sm2_doEncrypt env (sm2_calls w) msg (sm2PublicKey CONFIG) 1 = inr c.

(** The call [c] is stamped from the clock readings [t1] and [t2]: its
    outer timestamp is that of [t1] and its outer signature is the one of
    that timestamp and of the outer nonce it carries; its inner timestamp
    is that of [t2] and its inner signature is the one of that timestamp
    and of the inner nonce it carries. *)
Definition stamped (t1 t2 : Z) (c : Axios.config) : Prop :=
  exists nonce1 nonce2 signature2,
    Js.lookup "x-aep-timestamp" (Axios.headers c) =
      Some (Js.VStr (aep_timestamp t1)) /\
    Js.lookup "x-aep-nonce" (Axios.headers c) = Some (Js.VStr nonce1) /\
    Js.lookup "x-aep-signature" (Axios.headers c) =
      Some (Js.VStr (generateAepSignature (aep_timestamp t1)
                       (aepAppKey CONFIG) nonce1 (aepSecret CONFIG))) /\
    Js.lookup "x-ka-timestamp" (Axios.headers c) =
      Some (Js.VStr (JsString.of_int 10 (ka_timestamp t2))) /\
    Js.lookup "x-ka-nonce" (Axios.headers c) = Some (Js.VStr nonce2) /\
    generateKaSignature nonce2 (ka_timestamp t2) = inr signature2 /\
    Js.lookup "x-ka-signature" (Axios.headers c) =
      Some (Js.VStr signature2).

(** The outcome of a request whose network call ended as [r], under the key
    and iv of the request: a failed call throws; a body that is a non-empty
    string is decrypted (a failure throws) and parsed; any other body is
    returned as it is.  On a parse error the decrypted text is returned
    when [fallback] holds, the error is thrown otherwise. *)
Definition response_result (fallback : bool) (env : Env) (key iv : string)
           (r : Js.Error + Axios.response) : outcome Js.value :=
  match r with
  | inl e => Throw e
  | inr response =>
      match Axios.body response with
      | Js.VStr s =>
          if 0 <? JsString.len s then
            match sm4Decrypt s key iv with
            | inl e => Throw e
            | inr decryptedData =>
                match JSON_parse env decryptedData with
                | inr v => Return v
                | inl e =>
                    if fallback then Return (Js.VStr decryptedData)
                    else Throw e
                end
            end
          else Return (Axios.body response)
      | _ => Return (Axios.body response)
      end
  end.

(** Every network call [m] issues satisfies [p]. *)
Definition issues_with {A : Type} (p : Axios.config -> bool) (m : M A)
  : Prop :=
  forall w, exists calls,
    network (fst (m w)) = (network w ++ calls)%list /\
    List.forallb p calls = true.

(** A computation that issues no network call. *)
Definition offline {A : Type} (m : M A) : Prop :=
  forall w, network (fst (m w)) = network w.

(** The timeout of a call is [t]. *)
Definition timeout_is (t : option Z) (c : Axios.config) : bool :=
  match Axios.timeout c, t with
  | Some a, Some b => a =? b
  | None, None => true
  | _, _ => false
  end.

(** The items of a loop are visited in order, each at the world the previous
    ones left, and each leaves one entry, recorded from its own outcome:
    [visited run recorded w items entries w'] relates the world before the
    loop, the items, their entries and the world after the loop. *)
Inductive visited {A : Type} (run : Js.value -> M A)
          (recorded : Js.value -> outcome A -> Js.value -> Prop)
  : World -> list Js.value -> list Js.value -> World -> Prop :=
| visited_nil (w : World) : visited run recorded w [] [] w
| visited_cons (w w' : World) (item entry : Js.value)
               (items entries : list Js.value) :
    recorded item (snd (run item w)) entry ->
    visited run recorded (fst (run item w)) items entries w' ->
    visited run recorded w (item :: items) (entry :: entries) w'.

(** The entry of a camera whose picture request ended as [r].  It carries
    the name, the code and the direction of the camera.  When the request
    returned a result, the entry has no error and its picture is the first
    truthy one of [data.picUrl] and [videoPic] of the result, null when
    there is none.  When the request threw, or returned null or undefined
    (reading the picture throws), the entry has the message of the error
    and no picture. *)
Definition camera_entry (camera : Js.value) (r : outcome Js.value)
           (entry : Js.value) : Prop :=
  Js.prop entry "name" = Js.prop camera "name" /\
  Js.prop entry "code" = Js.prop camera "code" /\
  Js.prop entry "type" = CctvClient.direction (Js.prop camera "type") /\
  match r with
  | Return picResult =>
      match Js.get picResult "data" with
      | inr data =>
          Js.prop entry "error" = Js.VUndefined /\
          Js.prop entry "imageUrl"
          = Js.or (Js.or (Js.get_opt data "picUrl")
                         (Js.prop picResult "videoPic"))
                  Js.VNull
      | inl e =>
          Js.prop entry "error" = Js.VStr (Js.message e) /\
          Js.prop entry "imageUrl" = Js.VNull
      end
  | Throw e =>
      Js.prop entry "error" = Js.VStr (Js.message e) /\
      Js.prop entry "imageUrl" = Js.VNull
  | OutOfFuel => False
  end.

(** The entry of a port whose pictures were collected with the outcome [r]:
    the result of the collection when it returned; when it threw, the id
    and the name of the port, the message of the error and no camera. *)
Definition port_entry (port : Js.value) (r : outcome Js.value)
           (entry : Js.value) : Prop :=
  match r with
  | Return cctvData => entry = cctvData
  | Throw e =>
      Js.prop entry "portId" = Js.prop port "id" /\
      Js.prop entry "portName" = Js.prop port "portName" /\
      Js.prop entry "error" = Js.VStr (Js.message e) /\
      Js.prop entry "cameras" = Js.VArr []
  | OutOfFuel => False
  end.

(** An item that is an object, or any value other than null and
    undefined. *)
Definition present (item : Js.value) : bool := negb (Js.nullish item).

(** A port that can be announced: it is present and its name has a text. *)
Definition announceable (port : Js.value) : bool :=
  present port &&
  match Js.toString (Js.prop port "portName") with
  | inr _ => true
  | inl _ => false
  end.

(** The cameras of a port are [items]: its [entryAndExitJson] is that
    array, or a text that parses to it. *)
Definition camera_list (env : Env) (port : Js.value) (items : list Js.value)
  : Prop :=
  Js.prop port "entryAndExitJson" = Js.VArr items \/
  exists s, Js.prop port "entryAndExitJson" = Js.VStr s /\
            JSON_parse env s = inr (Js.VArr items).

(** Every request of the CCTV client settles: it returns or throws. *)
Definition settles (env : Env) : Prop :=
  forall path data, terminates (CctvClient.request env path data).
(** The picture request of one camera of a port. *)
Definition picture (env : Env) (port camera : Js.value) : M Js.value :=
  CctvClient.getMonitorPic env (Js.prop port "id") (Js.prop camera "code")
                           (Js.prop camera "type").

(** The collection of the pictures of one port, after its line of log. *)
Definition collection (env : Env) (port : Js.value) : M Js.value :=
  _ <- console_log ;; CctvClient.getPortCCTVImages env port.

(** [inside v o]: the value [o] occurs in [v], at any depth: [v] itself, an
    element of an array inside [v], or the value of a property of an object
    inside [v]. *)
Inductive inside : Js.value -> Js.value -> Prop :=
| inside_here (v : Js.value) : inside v v
| inside_element (items : list Js.value) (x o : Js.value) :
    In x items -> inside x o -> inside (Js.VArr items) o
| inside_property (props : list (string * Js.value)) (k : string)
                  (x o : Js.value) :
    In (k, x) props -> inside x o -> inside (Js.VObj props) o.

(** The keys of an object, in order; none for another value. *)
Definition keys (v : Js.value) : list string :=
  match v with
  | Js.VObj props => List.map fst props
  | _ => []
  end.

(** ['k' in o] for an object of the data: [k] is one of its keys. *)
Definition owns (o : Js.value) (k : string) : bool :=
  match o with
  | Js.VObj props =>
      match Js.lookup k props with Some _ => true | None => false end
  | _ => false
  end.

(** One group of [generateUUID] for the draw [r]. *)
Definition uuid_group (r : JsNumber.double) : string :=
  JsString.substring_from
    (JsString.of_int 16
       (JsNumber.floor
          (JsNumber.mul (JsNumber.add (JsNumber.of_Z 1) r)
                        (JsNumber.of_Z 65536))))
    1.

(** A computation that does not read the clock. *)
Definition keeps_clock {A : Type} (m : M A) : Prop :=
  forall w, clock_reads (fst (m w)) = clock_reads w.

(** Every value [m] returns satisfies [Q]. *)
Definition returns_with {A : Type} (Q : A -> Prop) (m : M A) : Prop :=
  forall w w' a, m w = (w', Return a) -> Q a.

(** The headers of the outer layer for the clock reading [t] and a nonce,
    and those of the inner layer for the clock reading [t], a nonce, its
    signature and the wrapped key. *)
Definition aep_headers (t : Z) (nonce : string) : list (string * Js.value) :=
  [ ("x-aep-appkey", Js.VStr (aepAppKey CONFIG));
    ("x-aep-timestamp", Js.VStr (aep_timestamp t));
    ("x-aep-nonce", Js.VStr nonce);
    ("x-aep-signature",
     Js.VStr (generateAepSignature (aep_timestamp t) (aepAppKey CONFIG)
                                   nonce (aepSecret CONFIG))) ].

Definition ka_headers (t : Z) (nonce signature wrapped : string)
  : list (string * Js.value) :=
  [ ("x-ka-timestamp", Js.VStr (JsString.of_int 10 (ka_timestamp t)));
    ("x-ka-nonce", Js.VStr nonce);
    ("x-ka-signature", Js.VStr signature);
    ("x-ka-t", Js.VStr wrapped) ].

(** What [generateKaHeaders] returns when the clock reads [t]: the headers
    of the inner layer, signed for their timestamp and nonce, with a key and
    an iv of 32 characters whose wrapping, the answer of the asymmetric
    encryption number [n], is the header [x-ka-t]. *)
Definition ka_shape (env : Env) (t : Z) (ka : KaHeaders) : Prop :=
  exists nonce signature n c,
    headers ka
    = ka_headers t nonce signature ("04" ++ JsString.toUpperCase c) /\
    generateKaSignature nonce (ka_timestamp t) = inr signature /\
    sm2_doEncrypt env n ((key ka ++ "&") ++ iv ka) (sm2PublicKey CONFIG) 1
    = inr c /\
    String.length (key ka) = 32%nat /\ String.length (iv ka) = 32%nat.

(** Every network call [m] issues satisfies the proposition [P]. *)
Definition issues_such {A : Type} (P : Axios.config -> Prop) (m : M A)
  : Prop :=
  forall w, exists calls,
    network (fst (m w)) = (network w ++ calls)%list /\ Forall P calls.

(** The call [c] is signed: it is stamped from two clock readings. *)
Definition signed (c : Axios.config) : Prop :=
  Js.lookup "x-aep-appkey" (Axios.headers c)
  = Some (Js.VStr (aepAppKey CONFIG)) /\
  exists t1 t2, stamped t1 t2 c.

(** The call [c] carries [text]: its header [x-ka-t] is the marker 04
    followed by what the asymmetric encryption answered, in upper case, for
    a key and an iv of 32 characters joined by an ampersand; its body is the
    encryption of [text] under that key and that iv, and decrypts under
    them to [text]. *)
Definition carries (env : Env) (text : string) (c : Axios.config) : Prop :=
  exists key iv n wrapped,
    String.length key = 32%nat /\ String.length iv = 32%nat /\
    sm2_doEncrypt env n ((key ++ "&") ++ iv) (sm2PublicKey CONFIG) 1
    = inr wrapped /\
    Js.lookup "x-ka-t" (Axios.headers c)
    = Some (Js.VStr ("04" ++ JsString.toUpperCase wrapped)) /\
    sm4Encrypt (Js.VStr text) key iv = inr (Axios.data c) /\
    sm4Decrypt (Axios.data c) key iv = inr text.

(** The text a request sends for [data]: a string as it is, any other value
    by its JSON text, an absent value as the empty object. *)
Definition body_text (data : Js.value) : string :=
  match plaintext_of (Js.default data (Js.VObj [])) with
  | Some text => text
  | None => EmptyString
  end.

(** The fixed headers a request adds, and those of a download. *)
Definition request_headers : list (string * Js.value) :=
  [ ("Content-Type", Js.VStr "application/json");
    ("Accept", Js.VStr "application/json, text/plain, */*");
    ("Origin", Js.VStr (baseUrl CONFIG));
    ("Referer", Js.VStr (baseUrl CONFIG)) ].

Definition download_headers (fileId : Js.value) : list (string * Js.value) :=
  [ ("Content-Type", Js.VStr "application/json");
    ("x-ka-fileid", fileId) ].

(** The call a request issues for the headers of the two layers, the
    encrypted body, a path and a method. *)
Definition request_call (aep : list (string * Js.value)) (ka : KaHeaders)
           (ct path method : string) : Axios.config :=
  {| Axios.method := method;
     Axios.url := (baseUrl CONFIG ++ "/local/ika-api") ++ path;
     Axios.headers :=
       Js.spread (Js.spread aep (headers ka))
         [ ("Content-Type", Js.VStr "application/json");
           ("Accept", Js.VStr "application/json, text/plain, */*");
           ("Origin", Js.VStr (baseUrl CONFIG));
           ("Referer", Js.VStr (baseUrl CONFIG)) ];
     Axios.data := ct;
     Axios.timeout := Some 30000;
     Axios.responseType := None |}.

(** The summary [getPortCCTVImages] returns for a port and the entries of
    its cameras. *)
Definition port_summary (port : Js.value) (cameras : list Js.value)
  : Js.value :=
  Js.VObj [ ("portId", Js.prop port "id");
            ("portName", Js.prop port "portName");
            ("smoothness", Js.prop port "smoothness");
            ("exit", Js.prop port "exit");
            ("entry", Js.prop port "entry");
            ("exitClearanceTime", Js.prop port "exitClearanceTime");
            ("entryClearanceTime", Js.prop port "entryClearanceTime");
            ("cameras", Js.VArr cameras) ].

(* ================================================================== *)
(** * Facts about strings *)
(* ================================================================== *)

Lemma length_append (a b : string) :
  String.length (a ++ b) = (String.length a + String.length b)%nat.
Proof.
  induction a as [|c a IH]; simpl; [reflexivity | now rewrite IH].
Qed.

Lemma string_length_map (f : ascii -> ascii) (s : string) :
  String.length (JsString.map f s) = String.length s.
Proof.
  induction s as [|c s IH]; simpl; [reflexivity | now rewrite IH].
Qed.

Lemma forallb_append (p : ascii -> bool) (a b : string) :
  JsString.forallb p (a ++ b) = JsString.forallb p a && JsString.forallb p b.
Proof.
  induction a as [|c a IH]; simpl; [reflexivity|].
  rewrite IH. now rewrite andb_assoc.
Qed.

Lemma forallb_map (p q : ascii -> bool) (f : ascii -> ascii) (s : string) :
  (forall c, p c = true -> q (f c) = true) ->
  JsString.forallb p s = true -> JsString.forallb q (JsString.map f s) = true.
Proof.
  intros Hf. induction s as [|c s IH]; simpl; [reflexivity|].
  intros H. apply andb_true_iff in H as [Hc Hs].
  rewrite (Hf c Hc). now apply IH.
Qed.

Lemma length_take (n : nat) (s : string) :
  String.length (JsString.take n s) = Nat.min n (String.length s).
Proof.
  revert s. induction n as [|n IH]; intros [|c s]; simpl; try reflexivity.
  now rewrite IH.
Qed.

Lemma length_toUpperCase (s : string) :
  String.length (JsString.toUpperCase s) = String.length s.
Proof. apply string_length_map. Qed.

(** Upper-casing a lower-case hexadecimal digit gives an upper-case one. *)
Lemma upper_char_hex (c : ascii) :
  JsString.is_lower_hex c = true ->
  JsString.is_upper_hex (JsString.upper_char c) = true.
Proof.
  destruct c as [[] [] [] [] [] [] [] []]; vm_compute; congruence.
Qed.

Lemma toUpperCase_hex (s : string) :
  JsString.forallb JsString.is_lower_hex s = true ->
  JsString.forallb JsString.is_upper_hex (JsString.toUpperCase s) = true.
Proof. apply forallb_map. exact upper_char_hex. Qed.

(** The sixteen digits are lower-case hexadecimal characters. *)
Lemma digit_char_hex (x : Z) :
  JsString.is_lower_hex (JsString.digit_char (x mod 16)) = true.
Proof.
  assert (H : 0 <= x mod 16 < 16) by (apply Z.mod_pos_bound; lia).
  assert (E : x mod 16 = 0 \/ x mod 16 = 1 \/ x mod 16 = 2 \/ x mod 16 = 3 \/
              x mod 16 = 4 \/ x mod 16 = 5 \/ x mod 16 = 6 \/ x mod 16 = 7 \/
              x mod 16 = 8 \/ x mod 16 = 9 \/ x mod 16 = 10 \/
              x mod 16 = 11 \/ x mod 16 = 12 \/ x mod 16 = 13 \/
              x mod 16 = 14 \/ x mod 16 = 15) by lia.
  repeat (destruct E as [E|E]; [rewrite E; reflexivity|]).
  rewrite E; reflexivity.
Qed.

(* ================================================================== *)
(** * Facts about the digests *)
(* ================================================================== *)

Lemma ArrayToHex_length (l : list Z) :
  String.length (Bytes.ArrayToHex l) = (2 * List.length l)%nat.
Proof.
  induction l as [|b l IH]; simpl; [reflexivity|].
  rewrite IH. lia.
Qed.

Lemma ArrayToHex_hex (l : list Z) :
  JsString.forallb JsString.is_lower_hex (Bytes.ArrayToHex l) = true.
Proof.
  induction l as [|b l IH]; [reflexivity|].
  change (Bytes.ArrayToHex (b :: l))
    with (Bytes.hex2 b ++ Bytes.ArrayToHex l).
  rewrite forallb_append, IH, andb_true_r.
  unfold Bytes.hex2. cbn [JsString.forallb].
  now rewrite !digit_char_hex.
Qed.

Lemma bytes_of_words_length (l : list Z) :
  List.length (Word.bytes_of_words l) = (4 * List.length l)%nat.
Proof.
  unfold Word.bytes_of_words.
  induction l as [|w l IH]; [reflexivity|].
  cbn [flat_map]. rewrite length_app, IH. cbn [Word.to_bytes List.length]. lia.
Qed.

(** A digest is rendered as 64 lower-case hexadecimal digits as soon as its
    state has eight words. *)
Lemma digest_text (st : list Z) :
  List.length st = 8%nat ->
  String.length (Bytes.ArrayToHex (Word.bytes_of_words st)) = 64%nat /\
  JsString.forallb JsString.is_lower_hex
    (Bytes.ArrayToHex (Word.bytes_of_words st)) = true.
Proof.
  intros H. split; [|apply ArrayToHex_hex].
  rewrite ArrayToHex_length, bytes_of_words_length, H. reflexivity.
Qed.

Lemma fold_left_invariant {A B : Type} (P : A -> Prop) (f : A -> B -> A)
      (l : list B) (a : A) :
  (forall x y, P x -> P (f x y)) -> P a -> P (fold_left f l a).
Proof.
  intros Hf. revert a. induction l as [|b l IH]; intros a Ha; simpl; auto.
Qed.

Lemma map_combine_length {A B C : Type} (f : A * B -> C) (l : list A)
      (l' : list B) :
  List.length l = List.length l' ->
  List.length (List.map f (List.combine l l')) = List.length l.
Proof.
  intros H. rewrite length_map, length_combine, <- H. apply Nat.min_id.
Qed.

Lemma sha256_round_length (st : list Z) (kw : Z * Z) :
  List.length st = 8%nat -> List.length (Sha256.round st kw) = 8%nat.
Proof.
  intros H.
  do 9 (destruct st as [|? st]; try discriminate H).
  reflexivity.
Qed.

Lemma sha256_compress_length (st block : list Z) :
  List.length st = 8%nat -> List.length (Sha256.compress st block) = 8%nat.
Proof.
  intros H. unfold Sha256.compress.
  rewrite map_combine_length; [exact H|].
  rewrite H. symmetry.
  apply (fold_left_invariant (fun s => List.length s = 8%nat)); [|exact H].
  intros; now apply sha256_round_length.
Qed.

Lemma sha256_digest_length (msg : list Z) :
  List.length (Sha256.digest msg) = 8%nat.
Proof.
  unfold Sha256.digest.
  apply (fold_left_invariant (fun s => List.length s = 8%nat)).
  - intros; now apply sha256_compress_length.
  - reflexivity.
Qed.

Lemma sm3_round_length (st : list Z) (jw : Z * (Z * Z)) :
  List.length st = 8%nat -> List.length (Sm3.round st jw) = 8%nat.
Proof.
  intros H.
  do 9 (destruct st as [|? st]; try discriminate H).
  reflexivity.
Qed.

Lemma sm3_compress_length (st block : list Z) :
  List.length st = 8%nat -> List.length (Sm3.compress st block) = 8%nat.
Proof.
  intros H. unfold Sm3.compress.
  rewrite map_combine_length; [exact H|].
  rewrite H. symmetry.
  apply (fold_left_invariant (fun s => List.length s = 8%nat)); [|exact H].
  intros; now apply sm3_round_length.
Qed.

Lemma sm3_digest_length (msg : list Z) :
  List.length (Sm3.digest msg) = 8%nat.
Proof.
  unfold Sm3.digest.
  apply (fold_left_invariant (fun s => List.length s = 8%nat)).
  - intros; now apply sm3_compress_length.
  - reflexivity.
Qed.

(** The digests on the published test vectors. *)
Example sha256_abc :
  Sha256.hex "abc" =
  "ba7816bf8f01cfea414140de5dae2223b00361a396177a9cb410ff61f20015ad".
Proof. vm_compute. reflexivity. Qed.

Example sha256_two_blocks :
  Sha256.hex "abcdbcdecdefdefgefghfghighijhijkijkljklmklmnlmnomnopnopq" =
  "248d6a61d20638b8e5c026930c3e6039a33ce45964ff2167f6ecedd419db06c1".
Proof. vm_compute. reflexivity. Qed.

Example sm3_abc :
  Sm3.sm3 "abc" =
  inr "66c7f0f462eeedd9d1f2d46bdc10e4e24167c4875cf2f7a2297da02b8f4ba8e0".
Proof. vm_compute. reflexivity. Qed.

Example sm3_one_block :
  Sm3.sm3 "abcdabcdabcdabcdabcdabcdabcdabcdabcdabcdabcdabcdabcdabcdabcdabcd" =
  inr "debe9ff92275b8a138604889c18e5a4d6fdb70e5387e5765293dcba39c0c5732".
Proof. vm_compute. reflexivity. Qed.

(** The block cipher on the test vector of the standard, and its S-box as
    a permutation of the bytes. *)
Example sm4_standard_vector :
  Bytes.ArrayToHex
    (Sm4.sms4Crypt (Bytes.hexToArray "0123456789abcdeffedcba9876543210")
       (Sm4.sms4KeyExt (Bytes.hexToArray "0123456789abcdeffedcba9876543210")
                       false)) =
  "681edf34d206965e86b3e94f536e4246".
Proof. vm_compute. reflexivity. Qed.

Example sm4_sbox_permutation :
  List.length (List.nodup Z.eq_dec Sm4.Sbox) = 256%nat.
Proof. vm_compute. reflexivity. Qed.

(* ================================================================== *)
(** * Facts about bytes and words *)
(* ================================================================== *)

Lemma lxor_bound (n a b : Z) :
  0 <= n -> 0 <= a < 2 ^ n -> 0 <= b < 2 ^ n -> 0 <= Z.lxor a b < 2 ^ n.
Proof.
  intros Hn Ha Hb.
  assert (H0 : 0 <= Z.lxor a b) by (apply Z.lxor_nonneg; lia).
  split; [exact H0|].
  destruct (Z.eq_dec (Z.lxor a b) 0) as [E|E].
  - rewrite E. apply Z.pow_pos_nonneg; lia.
  - assert (0 < n).
    { destruct (Z.eq_dec n 0) as [->|]; [|lia].
      change (2 ^ 0) with 1 in *.
      assert (a = 0) by lia. assert (b = 0) by lia. subst a b.
      now elim E. }
    apply Z.log2_lt_pow2; [lia|].
    pose proof (Z.log2_lxor a b (proj1 Ha) (proj1 Hb)) as Hl.
    assert (Z.log2 a < n).
    { destruct (Z.eq_dec a 0) as [->|]; [simpl; lia|].
      apply Z.log2_lt_pow2; lia. }
    assert (Z.log2 b < n).
    { destruct (Z.eq_dec b 0) as [->|]; [simpl; lia|].
      apply Z.log2_lt_pow2; lia. }
    lia.
Qed.

Lemma lxor_word (a b : Z) : in_word a -> in_word b -> in_word (Z.lxor a b).
Proof. apply lxor_bound; lia. Qed.

Lemma lxor_byte (a b : Z) : in_byte a -> in_byte b -> in_byte (Z.lxor a b).
Proof. apply (lxor_bound 8); lia. Qed.

Lemma wrap_word (x : Z) : in_word (Word.wrap x).
Proof. apply Z.mod_pos_bound. reflexivity. Qed.

Lemma rotl_word (x n : Z) : in_word (Word.rotl x n).
Proof. apply wrap_word. Qed.

Lemma land_255 (b : Z) : Z.land b 255 = b mod 256.
Proof. apply (Z.land_ones b 8). lia. Qed.

Lemma of_bytes_four (a b c d : Z) :
  Word.of_bytes [a; b; c; d] =
  256 * (256 * (256 * (a mod 256) + b mod 256) + c mod 256) + d mod 256.
Proof.
  unfold Word.of_bytes. cbn [fold_left]. rewrite !land_255. lia.
Qed.

Lemma of_bytes_bound (l : list Z) (acc n : Z) :
  0 <= n -> 0 <= acc < 256 ^ n ->
  0 <= fold_left (fun acc b => 256 * acc + Z.land b 255) l acc
    < 256 ^ (n + Z.of_nat (List.length l)).
Proof.
  revert acc n. induction l as [|b l IH]; intros acc n Hn Hacc.
  - cbn [fold_left List.length]. now rewrite Z.add_0_r.
  - cbn [fold_left]. replace (n + Z.of_nat (List.length (b :: l)))
      with ((n + 1) + Z.of_nat (List.length l))
      by (cbn [List.length]; lia).
    apply IH; [lia|].
    rewrite land_255, Z.pow_add_r by lia.
    pose proof (Z.mod_pos_bound b 256 ltac:(lia)). lia.
Qed.

Lemma of_bytes_word (l : list Z) :
  (List.length l <= 4)%nat -> in_word (Word.of_bytes l).
Proof.
  intros H. unfold Word.of_bytes, in_word.
  pose proof (of_bytes_bound l 0 0 ltac:(lia) ltac:(simpl; lia)) as B.
  cbn [Z.add] in B.
  assert (256 ^ Z.of_nat (List.length l) <= 2 ^ 32).
  { change (2 ^ 32) with (256 ^ 4). apply Z.pow_le_mono_r; lia. }
  lia.
Qed.

Lemma of_to_bytes (w : Z) : in_word w -> Word.of_bytes (Word.to_bytes w) = w.
Proof.
  unfold in_word, Word.to_bytes. intros H.
  rewrite of_bytes_four, !Z.shiftr_div_pow2 by lia.
  rewrite !Z.mod_mod by lia.
  change (2 ^ 32) with 4294967296 in H.
  change (2 ^ 24) with 16777216. change (2 ^ 16) with 65536.
  change (2 ^ 8) with 256.
  Z.to_euclidean_division_equations. lia.
Qed.

Lemma to_of_bytes (a b c d : Z) :
  in_byte a -> in_byte b -> in_byte c -> in_byte d ->
  Word.to_bytes (Word.of_bytes [a; b; c; d]) = [a; b; c; d].
Proof.
  unfold in_byte, Word.to_bytes. intros Ha Hb Hc Hd.
  rewrite of_bytes_four, !Z.shiftr_div_pow2 by lia.
  rewrite (Z.mod_small a), (Z.mod_small b), (Z.mod_small c),
    (Z.mod_small d) by lia.
  change (2 ^ 24) with 16777216. change (2 ^ 16) with 65536.
  change (2 ^ 8) with 256.
  repeat f_equal; Z.to_euclidean_division_equations; lia.
Qed.

Lemma to_bytes_byte (w : Z) : Forall in_byte (Word.to_bytes w).
Proof.
  unfold Word.to_bytes.
  repeat constructor; apply Z.mod_pos_bound; lia.
Qed.

(* ================================================================== *)
(** * The block cipher is invertible *)
(* ================================================================== *)

(** A round is undone by the same round on the reversed window, whatever
    the round function. *)
Lemma step_reverse (f : Z -> Z) (x : Sm4.state) (k : Z) :
  Sm4.step f (Sm4.reverse (Sm4.step f x k)) k = Sm4.reverse x.
Proof.
  destruct x as [[[x0 x1] x2] x3]. cbn [Sm4.step Sm4.reverse].
  repeat f_equal.
  replace (Z.lxor (Z.lxor (Z.lxor x3 x2) x1) k)
    with (Z.lxor (Z.lxor (Z.lxor x1 x2) x3) k).
  - rewrite Z.lxor_assoc, Z.lxor_nilpotent. apply Z.lxor_0_r.
  - f_equal. rewrite (Z.lxor_comm x1 x2), (Z.lxor_comm x3 x2).
    rewrite !Z.lxor_assoc. f_equal. apply Z.lxor_comm.
Qed.

(** The rounds run with the keys in reverse order undo the rounds. *)
Lemma rounds_reverse (f : Z -> Z) (ks : list Z) (x : Sm4.state) :
  fold_left (Sm4.step f) (List.rev ks)
            (Sm4.reverse (fold_left (Sm4.step f) ks x)) = Sm4.reverse x.
Proof.
  revert x. induction ks as [|k ks IH]; intros x; [reflexivity|].
  cbn [fold_left List.rev]. rewrite fold_left_app, IH.
  cbn [fold_left]. apply step_reverse.
Qed.

Lemma reverse_involutive (x : Sm4.state) : Sm4.reverse (Sm4.reverse x) = x.
Proof. now destruct x as [[[x0 x1] x2] x3]. Qed.

Lemma reverse_ok (x : Sm4.state) : state_ok x -> state_ok (Sm4.reverse x).
Proof. destruct x as [[[x0 x1] x2] x3]. cbn. tauto. Qed.

Lemma byteSub_word (a : Z) : in_word (Sm4.byteSub a).
Proof. apply of_bytes_word. reflexivity. Qed.

Lemma l1_word (b : Z) : in_word b -> in_word (Sm4.l1 b).
Proof.
  intros H. unfold Sm4.l1.
  repeat apply lxor_word; try apply rotl_word; exact H.
Qed.

Lemma step_ok (f : Z -> Z) (x : Sm4.state) (k : Z) :
  (forall m, in_word (f m)) -> state_ok x -> state_ok (Sm4.step f x k).
Proof.
  intros Hf. destruct x as [[[x0 x1] x2] x3]. cbn [Sm4.step state_ok].
  intros (H0 & H1 & H2 & H3). repeat split; try tauto; try apply H0;
    try apply H1; try apply H2; try apply H3.
  - apply lxor_word; [exact H0 | apply Hf].
  - apply lxor_word; [exact H0 | apply Hf].
Qed.

Lemma rounds_ok (f : Z -> Z) (ks : list Z) (x : Sm4.state) :
  (forall m, in_word (f m)) -> state_ok x ->
  state_ok (fold_left (Sm4.step f) ks x).
Proof.
  intros Hf. apply fold_left_invariant. intros; now apply step_ok.
Qed.

Lemma words_ok (block : list Z) : state_ok (Sm4.words block).
Proof.
  unfold Sm4.words, state_ok.
  repeat split; try (apply of_bytes_word; apply firstn_le_length);
    apply of_bytes_word; apply firstn_le_length.
Qed.

Lemma words_bytes (x : Sm4.state) : state_ok x -> Sm4.words (Sm4.bytes x) = x.
Proof.
  destruct x as [[[x0 x1] x2] x3]. intros (H0 & H1 & H2 & H3).
  unfold Sm4.words, Sm4.bytes.
  change (firstn 4 (Word.to_bytes x0 ++ Word.to_bytes x1 ++
                    Word.to_bytes x2 ++ Word.to_bytes x3))
    with (Word.to_bytes x0).
  change (firstn 4 (skipn 4 (Word.to_bytes x0 ++ Word.to_bytes x1 ++
                             Word.to_bytes x2 ++ Word.to_bytes x3)))
    with (Word.to_bytes x1).
  change (firstn 4 (skipn 8 (Word.to_bytes x0 ++ Word.to_bytes x1 ++
                             Word.to_bytes x2 ++ Word.to_bytes x3)))
    with (Word.to_bytes x2).
  change (firstn 4 (skipn 12 (Word.to_bytes x0 ++ Word.to_bytes x1 ++
                              Word.to_bytes x2 ++ Word.to_bytes x3)))
    with (Word.to_bytes x3).
  now rewrite !of_to_bytes.
Qed.

Lemma bytes_words (block : list Z) :
  block_ok block -> Sm4.bytes (Sm4.words block) = block.
Proof.
  intros [Hl Hb].
  do 17 (destruct block as [|? block]; try discriminate Hl).
  repeat match goal with
         | H : Forall _ (_ :: _) |- _ => inversion H; clear H; subst
         end.
  unfold Sm4.words, Sm4.bytes. cbn [firstn skipn].
  now rewrite !to_of_bytes.
Qed.

Lemma bytes_ok (x : Sm4.state) : block_ok (Sm4.bytes x).
Proof.
  destruct x as [[[x0 x1] x2] x3]. split; [reflexivity|].
  unfold Sm4.bytes. repeat (apply Forall_app; split); apply to_bytes_byte.
Qed.

Lemma sms4Crypt_ok (input roundKey : list Z) :
  block_ok (Sm4.sms4Crypt input roundKey).
Proof. apply bytes_ok. Qed.

(** Decryption of a block is encryption with the round keys reversed. *)
Lemma sms4Crypt_inverse (block roundKey : list Z) :
  block_ok block ->
  Sm4.sms4Crypt (Sm4.sms4Crypt block roundKey) (List.rev roundKey) = block.
Proof.
  intros Hb. unfold Sm4.sms4Crypt.
  assert (Hf : forall m, in_word (Sm4.l1 (Sm4.byteSub m)))
    by (intros; apply l1_word, byteSub_word).
  rewrite words_bytes
    by (apply reverse_ok, rounds_ok; [exact Hf | apply words_ok]).
  rewrite rounds_reverse, reverse_involutive.
  now apply bytes_words.
Qed.

Lemma sms4KeyExt_decrypt (key : list Z) :
  Sm4.sms4KeyExt key true = List.rev (Sm4.sms4KeyExt key false).
Proof.
  unfold Sm4.sms4KeyExt. now destruct (Sm4.words key) as [[[k0 k1] k2] k3].
Qed.

(* ================================================================== *)
(** * Chaining, padding and the hexadecimal text *)
(* ================================================================== *)

Lemma xor_bytes_involutive (a b : list Z) :
  Sm4.xor_bytes (Sm4.xor_bytes a b) b = a.
Proof.
  revert b. induction a as [|x a IH]; intros [|y b]; cbn [Sm4.xor_bytes];
    try reflexivity.
  rewrite IH, Z.lxor_assoc, Z.lxor_nilpotent, Z.lxor_0_r. reflexivity.
Qed.

Lemma xor_bytes_ok (a b : list Z) :
  block_ok a -> Forall in_byte b -> block_ok (Sm4.xor_bytes a b).
Proof.
  intros [Hl Ha] Hb. split.
  - rewrite <- Hl. clear Hl Ha Hb. revert b.
    induction a as [|x a IH]; intros [|y b]; cbn [Sm4.xor_bytes List.length];
      try reflexivity.
    now rewrite IH.
  - clear Hl. revert b Hb.
    induction Ha as [|x a Hx Ha IH]; intros b Hb.
    + destruct b; constructor.
    + destruct Hb as [|y b Hy Hb]; cbn [Sm4.xor_bytes].
      * now constructor.
      * constructor; [now apply lxor_byte | now apply IH].
Qed.

Lemma encrypt_blocks (roundKey lastVector : list Z) (bs : list (list Z)) :
  Sm4.crypt_blocks true false roundKey lastVector bs =
  List.concat (cipher_blocks roundKey lastVector bs).
Proof.
  revert lastVector. induction bs as [|b bs IH]; intros v; [reflexivity|].
  cbn [Sm4.crypt_blocks cipher_blocks List.concat]. now rewrite IH.
Qed.

Lemma cipher_blocks_ok (roundKey lastVector : list Z) (bs : list (list Z)) :
  Forall block_ok (cipher_blocks roundKey lastVector bs).
Proof.
  revert lastVector. induction bs as [|b bs IH]; intros v; cbn [cipher_blocks].
  - constructor.
  - constructor; [apply sms4Crypt_ok | apply IH].
Qed.

(** CBC decryption with the reversed round keys recovers the blocks. *)
Lemma decrypt_blocks (roundKey lastVector : list Z) (bs : list (list Z)) :
  Forall block_ok bs -> Forall in_byte lastVector ->
  Sm4.crypt_blocks true true (List.rev roundKey) lastVector
                   (cipher_blocks roundKey lastVector bs) = List.concat bs.
Proof.
  intros Hbs. revert lastVector.
  induction Hbs as [|b bs Hb Hbs IH]; intros v Hv; [reflexivity|].
  cbn [cipher_blocks Sm4.crypt_blocks List.concat].
  rewrite sms4Crypt_inverse by now apply xor_bytes_ok.
  rewrite xor_bytes_involutive. f_equal.
  apply IH. apply sms4Crypt_ok.
Qed.

Lemma Forall_firstn_skipn {A : Type} (P : A -> Prop) (n : nat) (l : list A) :
  Forall P l -> Forall P (firstn n l) /\ Forall P (skipn n l).
Proof.
  intros H. rewrite <- (firstn_skipn n l) in H.
  now apply Forall_app in H.
Qed.

Lemma blocks_from_spec (n : nat) (l : list Z) :
  List.length l = (16 * n)%nat -> Forall in_byte l ->
  List.concat (Sm4.blocks_from n l) = l /\
  Forall block_ok (Sm4.blocks_from n l).
Proof.
  revert l. induction n as [|n IH]; intros l Hl Hb.
  - destruct l; [split; [reflexivity | constructor] | discriminate Hl].
  - cbn [Sm4.blocks_from List.concat].
    destruct (IH (skipn Sm4.BLOCK l)) as [IH1 IH2].
    + rewrite length_skipn, Hl. unfold Sm4.BLOCK. lia.
    + now apply Forall_firstn_skipn.
    + rewrite IH1. split; [apply firstn_skipn|].
      constructor; [|exact IH2]. split.
      * rewrite length_firstn, Hl. unfold Sm4.BLOCK. lia.
      * now apply Forall_firstn_skipn.
Qed.

Lemma blocks_spec (n : nat) (l : list Z) :
  List.length l = (16 * n)%nat -> Forall in_byte l ->
  List.concat (Sm4.blocks l) = l /\ Forall block_ok (Sm4.blocks l).
Proof.
  intros Hl Hb. unfold Sm4.blocks.
  replace (List.length l / Sm4.BLOCK)%nat with n.
  - now apply blocks_from_spec.
  - rewrite Hl. unfold Sm4.BLOCK. rewrite Nat.mul_comm.
    symmetry. apply Nat.div_mul. discriminate.
Qed.

Lemma blocks_concat (cs : list (list Z)) :
  Forall block_ok cs -> Sm4.blocks (List.concat cs) = cs.
Proof.
  induction 1 as [|c cs [Hl Hc] Hcs IH]; [reflexivity|].
  cbn [List.concat]. unfold Sm4.blocks.
  rewrite length_app, Hl.
  change (16 + List.length (List.concat cs))%nat
    with (1 * Sm4.BLOCK + List.length (List.concat cs))%nat.
  rewrite Nat.div_add_l by discriminate.
  cbn [Nat.add Sm4.blocks_from]. f_equal.
  - change Sm4.BLOCK with (16 + 0)%nat. rewrite <- Hl.
    rewrite firstn_app_2. cbn [firstn]. apply app_nil_r.
  - rewrite skipn_app, Hl.
    change (Sm4.BLOCK - 16)%nat with 0%nat. cbn [skipn].
    rewrite skipn_all2 by (rewrite Hl; apply Nat.le_refl).
    exact IH.
Qed.

(** The number of padding bytes is between 1 and 16. *)
Lemma padding_count (l : list Z) :
  let n := (Sm4.BLOCK - List.length l mod Sm4.BLOCK)%nat in
  (1 <= n <= 16)%nat /\
  (List.length l + n = 16 * (List.length l / 16 + 1))%nat.
Proof.
  unfold Sm4.BLOCK.
  pose proof (Nat.mod_upper_bound (List.length l) 16 ltac:(discriminate)).
  pose proof (Nat.div_mod_eq (List.length l) 16).
  cbv zeta. lia.
Qed.

Lemma add_padding_length (l : list Z) :
  List.length (Sm4.add_padding l) = (16 * (List.length l / 16 + 1))%nat.
Proof.
  unfold Sm4.add_padding. rewrite length_app, repeat_length.
  apply padding_count.
Qed.

Lemma add_padding_byte (l : list Z) :
  Forall in_byte l -> Forall in_byte (Sm4.add_padding l).
Proof.
  intros H. unfold Sm4.add_padding. apply Forall_app. split; [exact H|].
  destruct (padding_count l) as [Hn _]. cbv zeta in Hn.
  apply Forall_forall. intros x Hx. apply repeat_spec in Hx. subst x.
  unfold in_byte. lia.
Qed.

(** Removing the padding just added gives the bytes back. *)
Lemma remove_add_padding (l : list Z) :
  Sm4.remove_padding (Sm4.add_padding l) = inr l.
Proof.
  destruct (padding_count l) as [Hn _]. cbv zeta in Hn.
  unfold Sm4.remove_padding, Sm4.add_padding.
  set (n := (Sm4.BLOCK - List.length l mod Sm4.BLOCK)%nat) in *.
  rewrite rev_app_distr, rev_repeat.
  destruct n as [|m] eqn:En; [lia|].
  cbn [List.repeat List.app].
  rewrite length_app. cbn [List.length]. rewrite repeat_length.
  replace (Z.of_nat (List.length l + S m) - Z.of_nat (S m))
    with (Z.of_nat (List.length l)) by lia.
  rewrite Nat2Z.id.
  rewrite skipn_app, Nat.sub_diag, skipn_all. cbn [skipn List.app].
  rewrite firstn_app, Nat.sub_diag, firstn_all. cbn [firstn].
  rewrite app_nil_r.
  replace (Z.of_nat (S m) <=? Z.of_nat (List.length l + S m)) with true
    by (symmetry; apply Z.leb_le; lia).
  replace (List.forallb (Z.eqb (Z.of_nat (S m)))
                        (Z.of_nat (S m) :: List.repeat (Z.of_nat (S m)) m))
    with true; [reflexivity|].
  symmetry. apply forallb_forall. intros x Hx.
  change (Z.of_nat (S m) :: List.repeat (Z.of_nat (S m)) m)
    with (List.repeat (Z.of_nat (S m)) (S m)) in Hx.
  apply repeat_spec in Hx. subst x. apply Z.eqb_refl.
Qed.

Lemma digit_value_digit_char (d : Z) :
  0 <= d < 16 -> Bytes.digit_value (JsString.digit_char d) = Some d.
Proof.
  intros H.
  assert (E : d = 0 \/ d = 1 \/ d = 2 \/ d = 3 \/ d = 4 \/ d = 5 \/ d = 6 \/
              d = 7 \/ d = 8 \/ d = 9 \/ d = 10 \/ d = 11 \/ d = 12 \/
              d = 13 \/ d = 14 \/ d = 15) by lia.
  repeat (destruct E as [E|E]; [rewrite E; reflexivity|]).
  rewrite E; reflexivity.
Qed.

(** Reading back the hexadecimal text of bytes gives the bytes. *)
Lemma hexToArray_ArrayToHex (l : list Z) :
  Forall in_byte l -> Bytes.hexToArray (Bytes.ArrayToHex l) = l.
Proof.
  induction 1 as [|b l Hb Hl IH]; [reflexivity|].
  change (Bytes.ArrayToHex (b :: l))
    with (String (JsString.digit_char (b / 16 mod 16))
            (String (JsString.digit_char (b mod 16)) (Bytes.ArrayToHex l))).
  cbn [Bytes.hexToArray]. rewrite IH. f_equal.
  unfold Bytes.parse_pair, in_byte in *.
  rewrite !digit_value_digit_char by (apply Z.mod_pos_bound; lia).
  Z.to_euclidean_division_equations. lia.
Qed.

Lemma hexToArray_length (s : string) :
  List.length (Bytes.hexToArray s) = Nat.div2 (S (String.length s)).
Proof.
  revert s. fix IH 1. intros [|c1 [|c2 s]]; [reflexivity | reflexivity |].
  cbn [Bytes.hexToArray List.length String.length Nat.div2].
  now rewrite IH.
Qed.

Lemma to_string_of_string (s : string) :
  Bytes.to_string (Bytes.of_string s) = s.
Proof.
  unfold Bytes.to_string, Bytes.of_string.
  rewrite List.map_map.
  rewrite <- (string_of_list_ascii_of_string s) at 2. f_equal.
  rewrite <- (List.map_id (list_ascii_of_string s)) at 2.
  apply List.map_ext. intros c.
  pose proof (nat_ascii_bounded c).
  rewrite Z.mod_small by lia.
  rewrite Nat2Z.id. apply ascii_nat_embedding.
Qed.

Lemma of_string_byte (s : string) : Forall in_byte (Bytes.of_string s).
Proof.
  unfold Bytes.of_string. apply Forall_map, Forall_forall. intros c _.
  pose proof (nat_ascii_bounded c). unfold in_byte. lia.
Qed.

Lemma hexToArray_byte (s : string) : Forall in_byte (Bytes.hexToArray s).
Proof.
  assert (D : forall c d, Bytes.digit_value c = Some d -> 0 <= d < 16).
  { intros c d. unfold Bytes.digit_value.
    repeat match goal with
           | |- context [if ?b then _ else _] => destruct b eqn:?
           end; intros [= <-]; lia. }
  revert s. fix IH 1. intros [|c1 [|c2 s]].
  - constructor.
  - cbn [Bytes.hexToArray]. constructor; [|constructor].
    unfold Bytes.parse_pair, in_byte.
    destruct (Bytes.digit_value c1) eqn:E1; [apply D in E1|]; lia.
  - cbn [Bytes.hexToArray]. constructor; [|apply IH].
    unfold Bytes.parse_pair, in_byte.
    destruct (Bytes.digit_value c1) eqn:E1; [apply D in E1|]; [|lia].
    destruct (Bytes.digit_value c2) eqn:E2; [apply D in E2|]; lia.
Qed.

(* ================================================================== *)
(** * Facts about the text conversions of the library *)
(* ================================================================== *)

(** The integers [lo .. lo + n - 1], to settle a fact about a small range
    by evaluation. *)
Lemma forallb_range (f : Z -> bool) (lo : Z) (n : nat) :
  List.forallb f (List.map (fun k => lo + Z.of_nat k) (List.seq 0 n)) = true ->
  forall x, lo <= x < lo + Z.of_nat n -> f x = true.
Proof.
  intros H x Hx. rewrite forallb_forall in H. apply H.
  apply in_map_iff. exists (Z.to_nat (x - lo)). split; [lia|].
  apply in_seq. lia.
Qed.

Lemma lor_80 (x : Z) : 0 <= x < 64 -> Z.lor 0x80 x = 0x80 + x.
Proof.
  intros H. apply Z.eqb_eq.
  apply (forallb_range (fun x => Z.lor 0x80 x =? 0x80 + x) 0 64);
    [vm_compute; reflexivity | lia].
Qed.

Lemma lor_c0 (x : Z) : 0 <= x < 32 -> Z.lor 0xc0 x = 0xc0 + x.
Proof.
  intros H. apply Z.eqb_eq.
  apply (forallb_range (fun x => Z.lor 0xc0 x =? 0xc0 + x) 0 32);
    [vm_compute; reflexivity | lia].
Qed.

Lemma lor_e0 (x : Z) : 0 <= x < 16 -> Z.lor 0xe0 x = 0xe0 + x.
Proof.
  intros H. apply Z.eqb_eq.
  apply (forallb_range (fun x => Z.lor 0xe0 x =? 0xe0 + x) 0 16);
    [vm_compute; reflexivity | lia].
Qed.

Lemma land_3f (x : Z) : Z.land x 0x3f = x mod 64.
Proof. change 0x3f with (Z.ones 6). now rewrite Z.land_ones by lia. Qed.

(** On a scalar value outside U+40000 .. U+FFFFF the library writes the
    UTF-8 sequence. *)
Lemma bytes_of_points_utf8 (pts : list Z) :
  List.forallb scalar pts = true ->
  List.forallb (fun p => negb (miscoded p)) pts = true ->
  Bytes.bytes_of_points pts = inr (List.flat_map Bytes.utf8 pts).
Proof.
  induction pts as [|p pts IH]; intros Hs Hm; [reflexivity|].
  cbn [List.forallb] in Hs, Hm.
  apply andb_true_iff in Hs as [Hp Hs]. apply andb_true_iff in Hm as [Hq Hm].
  cbn [Bytes.bytes_of_points List.flat_map]. rewrite (IH Hs Hm).
  unfold scalar in Hp. unfold miscoded in Hq. unfold Bytes.utf8.
  rewrite !Z.shiftr_div_pow2, !land_3f by lia.
  change (2 ^ 6) with 64. change (2 ^ 12) with 4096.
  change (2 ^ 18) with 262144.
  destruct (p <=? 0x007f) eqn:E1.
  { replace (p <? 0x80) with true by (symmetry; apply Z.ltb_lt; lia).
    reflexivity. }
  replace (p <? 0x80) with false by (symmetry; apply Z.ltb_ge; lia).
  destruct (p <=? 0x07ff) eqn:E2.
  { replace (p <? 0x800) with true by (symmetry; apply Z.ltb_lt; lia).
    rewrite lor_c0, lor_80; [reflexivity | |];
      apply Z.leb_gt in E1; apply Z.leb_le in E2;
      Z.to_euclidean_division_equations; lia. }
  replace (p <? 0x800) with false by (symmetry; apply Z.ltb_ge; lia).
  apply Z.leb_gt in E1, E2.
  destruct ((p <=? 0xD7FF) || ((0xE000 <=? p) && (p <=? 0xFFFF))) eqn:E3.
  { assert (p < 0x10000) by lia.
    replace (p <? 0x10000) with true by (symmetry; apply Z.ltb_lt; lia).
    rewrite lor_e0, !lor_80; [reflexivity | | |];
      Z.to_euclidean_division_equations; lia. }
  assert (0x10000 <= p <= 0x10FFFF) as Hr by lia.
  replace (p <? 0x10000) with false by (symmetry; apply Z.ltb_ge; lia).
  replace ((0x010000 <=? p) && (p <=? 0x10FFFF)) with true
    by (symmetry; apply andb_true_iff; split; apply Z.leb_le; lia).
  rewrite !lor_80 by (Z.to_euclidean_division_equations; lia).
  assert (H18 : p / 262144 = 0 \/ p / 262144 = 4)
    by (Z.to_euclidean_division_equations; lia).
  destruct H18 as [-> | ->]; reflexivity.
Qed.

Lemma same_bytes_eq (a b : list Z) : same_bytes a b = true -> a = b.
Proof.
  revert b. induction a as [|x a IH]; intros [|y b] H;
    try discriminate; [reflexivity|].
  cbn [same_bytes] in H. apply andb_true_iff in H as [Hx Hr].
  apply Z.eqb_eq in Hx. now rewrite Hx, (IH b Hr).
Qed.

(** The library turns convertible text into its UTF-8 bytes. *)
Lemma utf8ToArray_convertible (s : string) :
  convertible s = true -> Bytes.utf8ToArray s = inr (Bytes.of_string s).
Proof.
  unfold convertible, well_formed. intros H.
  apply andb_true_iff in H as [H Hm]. apply andb_true_iff in H as [Hs He].
  unfold Bytes.utf8ToArray. rewrite (bytes_of_points_utf8 _ Hs Hm).
  now rewrite (same_bytes_eq _ _ He).
Qed.

Lemma join_surrogates_cons (h : Z) (rest : list Z) :
  Bytes.high_surrogate h = false ->
  Bytes.join_surrogates (h :: rest) = h :: Bytes.join_surrogates rest.
Proof. intros H. destruct rest; cbn [Bytes.join_surrogates]; now rewrite ?H. Qed.

Lemma join_surrogates_scalar (pts : list Z) :
  List.forallb scalar pts = true -> Bytes.join_surrogates pts = pts.
Proof.
  induction pts as [|h rest IH]; intros H; [reflexivity|].
  cbn [List.forallb] in H. apply andb_true_iff in H as [Hh Hr].
  rewrite join_surrogates_cons, (IH Hr); [reflexivity|].
  unfold scalar in Hh. unfold Bytes.high_surrogate. lia.
Qed.

Lemma find_scalar (pts : list Z) :
  List.forallb scalar pts = true ->
  List.find (fun p => 0x10FFFF <? p) pts = None.
Proof.
  induction pts as [|p pts IH]; intros H; [reflexivity|].
  cbn [List.forallb] in H. apply andb_true_iff in H as [Hp Hr].
  cbn [List.find].
  replace (0x10FFFF <? p) with false by (unfold scalar in Hp; lia).
  now apply IH.
Qed.

(** The library reads the UTF-8 bytes of well-formed text back to it. *)
Lemma arrayToUtf8_well_formed (s : string) :
  well_formed s = true -> Bytes.arrayToUtf8 (Bytes.of_string s) = inr s.
Proof.
  unfold well_formed. intros H. apply andb_true_iff in H as [Hs He].
  unfold Bytes.arrayToUtf8. fold (Bytes.code_points s).
  rewrite (find_scalar _ Hs). unfold Bytes.string_of_points.
  rewrite (join_surrogates_scalar _ Hs), (same_bytes_eq _ _ He).
  now rewrite to_string_of_string.
Qed.

(** ASCII text is its own sequence of code points. *)
Lemma points_from_ascii (l : list Z) (fuel : nat) :
  Forall (fun b => 0 <= b < 128) l -> (List.length l <= fuel)%nat ->
  Bytes.points_from fuel l = l.
Proof.
  intros H. revert fuel. induction H as [|b l Hb Hl IH]; intros fuel Hf.
  - destruct fuel; reflexivity.
  - destruct fuel as [|fuel]; [cbn in Hf; lia|].
    cbn [Bytes.points_from].
    replace ((0xf0 <=? b) && (b <=? 0xf7)) with false by lia.
    replace ((0xe0 <=? b) && (b <=? 0xef)) with false by lia.
    replace ((0xc0 <=? b) && (b <=? 0xdf)) with false by lia.
    f_equal. apply IH. cbn in Hf. lia.
Qed.

Lemma of_string_ascii (s : string) :
  ascii_text s = true -> Forall (fun b => 0 <= b < 128) (Bytes.of_string s).
Proof.
  unfold ascii_text, Bytes.of_string.
  induction s as [|c s IH]; cbn [JsString.forallb list_ascii_of_string List.map];
    intros H; [constructor|].
  apply andb_true_iff in H as [Hc Hs]. constructor; [|now apply IH].
  apply Nat.ltb_lt in Hc. lia.
Qed.

Lemma bytes_of_points_ascii (l : list Z) :
  Forall (fun b => 0 <= b < 128) l -> Bytes.bytes_of_points l = inr l.
Proof.
  induction 1 as [|b l Hb Hl IH]; [reflexivity|].
  cbn [Bytes.bytes_of_points]. rewrite IH.
  replace (b <=? 0x007f) with true by lia. reflexivity.
Qed.

Lemma utf8ToArray_ascii (s : string) :
  ascii_text s = true -> Bytes.utf8ToArray s = inr (Bytes.of_string s).
Proof.
  intros H. pose proof (of_string_ascii s H) as F.
  unfold Bytes.utf8ToArray, Bytes.code_points, Bytes.points.
  rewrite (points_from_ascii _ _ F) by lia.
  now apply bytes_of_points_ascii.
Qed.

Lemma ascii_text_append (a b : string) :
  ascii_text (a ++ b) = ascii_text a && ascii_text b.
Proof. apply forallb_append. Qed.

(** The hash of ASCII text is the digest of its characters. *)
Lemma sm3_ascii (s : string) :
  ascii_text s = true -> Sm3.sm3 s = inr (Sm3.hex (Bytes.of_string s)).
Proof. intros H. unfold Sm3.sm3. now rewrite utf8ToArray_ascii. Qed.

(* ================================================================== *)
(** * The payload cipher *)
(* ================================================================== *)

Lemma key_bytes (k : string) :
  String.length k = 32%nat ->
  List.length (Bytes.hexToArray k) = 16%nat /\
  Forall in_byte (Bytes.hexToArray k).
Proof.
  intros H. split; [|apply hexToArray_byte].
  rewrite hexToArray_length, H. reflexivity.
Qed.

Lemma valid_key_length (k : string) :
  valid_key k = true -> String.length k = 32%nat.
Proof.
  unfold valid_key. intros H. apply andb_true_iff in H as [H _].
  now apply Nat.eqb_eq in H.
Qed.

(** What the library computes on bytes under a 16-byte key and iv. *)
Lemma sm4_encrypt_bytes (text key iv : string) (input : list Z) :
  String.length key = 32%nat -> String.length iv = 32%nat ->
  Bytes.utf8ToArray text = inr input ->
  Sm4.encrypt (Js.VStr text) key (sm4_options iv) =
  inr (Bytes.ArrayToHex
         (Sm4.crypt_blocks true false
            (Sm4.sms4KeyExt (Bytes.hexToArray key) false)
            (Bytes.hexToArray iv)
            (Sm4.blocks (Sm4.add_padding input)))).
Proof.
  intros Hk Hi Hu.
  destruct (key_bytes key Hk) as [Lk _].
  destruct (key_bytes iv Hi) as [Li _].
  unfold Sm4.encrypt, Sm4.sm4, sm4_options, Sm4.pads.
  cbn [Sm4.mode Sm4.padding Sm4.iv].
  rewrite Lk, Li, Hu. reflexivity.
Qed.

Lemma sm4_decrypt_text (ct key iv : string) :
  String.length key = 32%nat -> String.length iv = 32%nat ->
  Sm4.decrypt (Js.VStr ct) key (sm4_options iv) =
  match Sm4.remove_padding
          (Sm4.crypt_blocks true true
             (Sm4.sms4KeyExt (Bytes.hexToArray key) true)
             (Bytes.hexToArray iv)
             (Sm4.blocks (Bytes.hexToArray ct))) with
  | inr out => Bytes.arrayToUtf8 out
  | inl e => inl e
  end.
Proof.
  intros Hk Hi.
  destruct (key_bytes key Hk) as [Lk _].
  destruct (key_bytes iv Hi) as [Li _].
  unfold Sm4.decrypt, Sm4.sm4, sm4_options, Sm4.pads.
  cbn [Sm4.mode Sm4.padding Sm4.iv].
  rewrite Lk, Li. reflexivity.
Qed.

(** The library's decryption gives back the text whose bytes the
    encryption was given: the bytes [input] that [utf8ToArray] made of the
    plaintext are what [arrayToUtf8] is given in the end. *)
Lemma sm4_library_bytes (text key iv : string) (input : list Z) :
  String.length key = 32%nat -> String.length iv = 32%nat ->
  Bytes.utf8ToArray text = inr input -> Forall in_byte input ->
  exists ct,
    Sm4.encrypt (Js.VStr text) key (sm4_options iv) = inr ct /\
    Sm4.decrypt (Js.VStr ct) key (sm4_options iv) = Bytes.arrayToUtf8 input.
Proof.
  intros Hk Hi Hu Hb. eexists.
  split; [exact (sm4_encrypt_bytes text key iv input Hk Hi Hu)|].
  rewrite sm4_decrypt_text by assumption.
  destruct (key_bytes iv Hi) as [_ Bi].
  destruct (blocks_spec (List.length input / 16 + 1)
              (Sm4.add_padding input)) as [Hc Hbl].
  { apply add_padding_length. }
  { now apply add_padding_byte. }
  rewrite encrypt_blocks.
  rewrite hexToArray_ArrayToHex.
  2:{ apply Forall_concat.
      eapply Forall_impl; [|apply cipher_blocks_ok]. now intros b [_ H]. }
  rewrite blocks_concat by apply cipher_blocks_ok.
  rewrite sms4KeyExt_decrypt, decrypt_blocks by assumption.
  now rewrite Hc, remove_add_padding.
Qed.

(** On convertible text the library's decryption inverts its encryption. *)
Lemma sm4_library_round_trip (text key iv : string) :
  String.length key = 32%nat -> String.length iv = 32%nat ->
  convertible text = true ->
  exists ct,
    Sm4.encrypt (Js.VStr text) key (sm4_options iv) = inr ct /\
    Sm4.decrypt (Js.VStr ct) key (sm4_options iv) = inr text.
Proof.
  intros Hk Hi Hc.
  destruct (sm4_library_bytes text key iv (Bytes.of_string text) Hk Hi
              (utf8ToArray_convertible text Hc) (of_string_byte text))
    as (ct & He & Hd).
  exists ct. split; [exact He|]. rewrite Hd.
  apply arrayToUtf8_well_formed.
  unfold convertible in Hc. now apply andb_true_iff in Hc as [Hc _].
Qed.

Lemma sm4Encrypt_plaintext (data : Js.value) (text key iv : string) :
  plaintext_of data = Some text ->
  sm4Encrypt data key iv = Sm4.encrypt (Js.VStr text) key (sm4_options iv).
Proof.
  unfold sm4Encrypt, plaintext_of, Js.JSON_stringify.
  destruct data; cbn [Js.typeof]; intros H;
    try (change (String.eqb _ "string") with false; cbv iota);
    try (change (String.eqb "string" "string") with true; cbv iota);
    try rewrite H; try congruence.
Qed.

(* ================================================================== *)
(** * C1: the payload cipher round trip *)
(* ================================================================== *)

(** C1, at the failing input.  The plaintext is the character U+E0100
    alone: well-formed text, whose UTF-8 encoding is f3 a0 84 80.  The
    library's [utf8ToArray] writes f0 for its first byte, so [sm4Encrypt]
    encrypts the encoding of U+20100 (the ciphertext is the one of U+20100),
    and [sm4Decrypt] of that ciphertext under the same key and iv returns
    U+20100, not the plaintext. *)
Theorem sm4_round_trip_miscoded :
  valid_key sample_key = true /\ valid_key sample_iv = true /\
  well_formed selector_17 = true /\
  Bytes.code_points selector_17 = [0xE0100] /\
  Bytes.of_string selector_17 = [0xf3; 0xa0; 0x84; 0x80] /\
  Bytes.utf8ToArray selector_17 = inr [0xf0; 0xa0; 0x84; 0x80] /\
  sm4Encrypt (Js.VStr selector_17) sample_key sample_iv
  = inr "c39dec8a781d8efe8c2c8633b50ca4ea" /\
  sm4Encrypt (Js.VStr ideograph_20100) sample_key sample_iv
  = inr "c39dec8a781d8efe8c2c8633b50ca4ea" /\
  sm4Decrypt "c39dec8a781d8efe8c2c8633b50ca4ea" sample_key sample_iv
  = inr ideograph_20100 /\
  Bytes.code_points ideograph_20100 = [0x20100] /\
  ideograph_20100 <> selector_17.
Proof. vm_compute. repeat split. discriminate. Qed.



(* ================================================================== *)
(** * C3, C4: the two signatures *)
(* ================================================================== *)

Lemma append_assoc (a b c : string) : (a ++ b) ++ c = a ++ (b ++ c).
Proof.
  induction a as [|x a IH]; simpl; [reflexivity | now rewrite IH].
Qed.

Lemma sha256_hex_text (s : string) :
  String.length (Sha256.hex s) = 64%nat /\
  JsString.forallb JsString.is_lower_hex (Sha256.hex s) = true.
Proof. apply digest_text, sha256_digest_length. Qed.

Lemma sm3_text (msg : list Z) :
  String.length (Sm3.hex msg) = 64%nat /\
  JsString.forallb JsString.is_lower_hex (Sm3.hex msg) = true.
Proof. apply digest_text, sm3_digest_length. Qed.

(** C3.  For all strings timestamp, appKey, nonce and secret, the outer
    signature is the SHA-256 digest of
    timestamp + appKey + nonce + secret + timestamp in upper-case
    hexadecimal: a function of these four strings alone (it reads neither
    the clock nor the random source), of exactly 64 characters, each an
    upper-case hexadecimal digit. *)
Theorem generateAepSignature_spec (timestamp appKey nonce secret : string) :
  generateAepSignature timestamp appKey nonce secret =
  JsString.toUpperCase
    (Sha256.hex (timestamp ++ appKey ++ nonce ++ secret ++ timestamp)) /\
  String.length (generateAepSignature timestamp appKey nonce secret)
  = 64%nat /\
  JsString.forallb JsString.is_upper_hex
    (generateAepSignature timestamp appKey nonce secret) = true.
Proof.
  unfold generateAepSignature.
  destruct (sha256_hex_text
              ((((timestamp ++ appKey) ++ nonce) ++ secret) ++ timestamp))
    as [Hl Hh].
  repeat split.
  - now rewrite !append_assoc.
  - now rewrite length_toUpperCase.
  - now apply toUpperCase_hex.
Qed.


(* ================================================================== *)
(** * C6: the wrapped key *)
(* ================================================================== *)

(** One call of the asymmetric encryption, on key + "&" + iv. *)
Lemma encryptKeyWithSm2_run (env : Env) (key iv : string) (w : World) :
  encryptKeyWithSm2 env key iv w =
  (mkWorld (clock_reads w) (random_draws w) (S (sm2_calls w)) (network w)
           (console w),
   match sm2_doEncrypt env (sm2_calls w) (key ++ "&" ++ iv)
                       (sm2PublicKey CONFIG) 1 with
   | inr ciphertext => Return ("04" ++ JsString.toUpperCase ciphertext)
   | inl e => Throw e
   end).
Proof.
  unfold encryptKeyWithSm2, bind, doEncrypt, ret.
  rewrite append_assoc.
  now destruct (sm2_doEncrypt env (sm2_calls w) (key ++ "&" ++ iv)
                              (sm2PublicKey CONFIG) 1).
Qed.

(** C6.  For all strings key and iv (in particular of 32 hexadecimal digits
    each), [encryptKeyWithSm2] makes one call of the asymmetric encryption,
    on exactly the text key + "&" + iv, under the configured public key and
    in cipher mode 1, and returns the two characters 04 (one byte, of value
    4, in hexadecimal) followed by the upper-cased ciphertext; when the
    encryption throws, so does it. *)
Theorem encryptKeyWithSm2_spec (env : Env) (key iv : string) (w : World) :
  encryptKeyWithSm2 env key iv w =
  (mkWorld (clock_reads w) (random_draws w) (S (sm2_calls w)) (network w)
           (console w),
   match sm2_doEncrypt env (sm2_calls w) (key ++ "&" ++ iv)
                       (sm2PublicKey CONFIG) 1 with
   | inr ciphertext => Return ("04" ++ JsString.toUpperCase ciphertext)
   | inl e => Throw e
   end) /\
  Bytes.hexToArray "04" = [4] /\
  forall ciphertext,
    Bytes.hexToArray ("04" ++ JsString.toUpperCase ciphertext) =
    4 :: Bytes.hexToArray (JsString.toUpperCase ciphertext).
Proof.
  split; [apply encryptKeyWithSm2_run|]. split; reflexivity.
Qed.

(* ================================================================== *)
(** * C7: the random hexadecimal strings *)
(* ================================================================== *)

Lemma draws_only_refl (w : World) : draws_only w w.
Proof. unfold draws_only. auto. Qed.

Lemma draws_only_trans (a b c : World) :
  draws_only a b -> draws_only b c -> draws_only a c.
Proof. unfold draws_only. intuition congruence || lia. Qed.

Lemma len_append (a b : string) :
  JsString.len (a ++ b) = JsString.len a + JsString.len b.
Proof. unfold JsString.len. rewrite length_append. lia. Qed.

Lemma len_nonneg (s : string) : 0 <= JsString.len s.
Proof. unfold JsString.len. lia. Qed.

(** The loop never throws; when it returns, the result has at least the
    requested length, and only random numbers were drawn. *)
Lemma randomHex_loop_result (env : Env) (fuel : nat) (n : Z) (result : string)
      (w : World) :
  match randomHex_loop env fuel n result w with
  | (w', Return s) => n <= JsString.len s /\ draws_only w w'
  | (_, Throw _) => False
  | (w', OutOfFuel) => draws_only w w'
  end.
Proof.
  revert result w. induction fuel as [|fuel IH]; intros result w;
    cbn [randomHex_loop]; destruct (JsString.len result <? n) eqn:E;
    try (cbn [ret]; split; [apply Z.ltb_ge, E | apply draws_only_refl]).
  - apply draws_only_refl.
  - unfold bind, random.
    match goal with
    | |- context [randomHex_loop env fuel n ?r ?w1] =>
        specialize (IH r w1); destruct (randomHex_loop env fuel n r w1)
          as [w' [s| |]]
    end; try exact IH.
    + destruct IH as [Hn Hd]. split; [exact Hn|].
      eapply draws_only_trans; [|exact Hd].
      unfold draws_only. cbn. auto with arith.
    + eapply draws_only_trans; [|exact IH].
      unfold draws_only. cbn. auto with arith.
Qed.

(** With enough fuel and productive draws the loop returns. *)
Lemma randomHex_loop_returns (env : Env) (fuel : nat) (n : Z)
      (result : string) (w : World) :
  (Z.to_nat (n - JsString.len result) <= fuel)%nat ->
  productive env (random_draws w) (Z.to_nat (n - JsString.len result)) = true ->
  exists w' s, randomHex_loop env fuel n result w = (w', Return s) /\
               (random_draws w' <= random_draws w
                                   + Z.to_nat (n - JsString.len result))%nat.
Proof.
  revert result w. induction fuel as [|fuel IH]; intros result w Hf Hp;
    cbn [randomHex_loop]; destruct (JsString.len result <? n) eqn:E;
    try (exists w, result; split; [reflexivity | lia]).
  - apply Z.ltb_lt in E. lia.
  - apply Z.ltb_lt in E. unfold bind, random.
    set (w1 := mkWorld _ _ _ _ _).
    set (r := Math_random env (random_draws w)).
    assert (Hc : 1 <= JsString.len (draw_chunk r)).
    { unfold productive in Hp.
      destruct (Z.to_nat (n - JsString.len result)) as [|k] eqn:Ek; [lia|].
      cbn [List.seq List.forallb] in Hp. apply andb_true_iff in Hp as [Hp _].
      fold r in Hp. unfold JsString.len.
      destruct (String.length (draw_chunk r)); [discriminate Hp | lia]. }
    destruct (IH (result ++ draw_chunk r) w1) as (w' & s & Hs & Hd).
    + rewrite len_append. lia.
    + rewrite len_append. unfold productive in *.
      replace (Z.to_nat (n - JsString.len result))
        with (S (Z.to_nat (n - JsString.len result) - 1)) in Hp by lia.
      cbn [List.seq List.forallb] in Hp. apply andb_true_iff in Hp as [_ Hp].
      apply forallb_forall. intros k Hk.
      rewrite forallb_forall in Hp. apply Hp.
      apply in_seq. apply in_seq in Hk. subst w1. cbn in Hk. lia.
    + exists w', s. rewrite Hs. split; [reflexivity|].
      rewrite len_append in Hd. subst w1. cbn in Hd. lia.
Qed.

(** Cutting a string that is long enough to [n] characters: its first [n]
    characters, and no padding. *)
Lemma slice_padStart (s : string) (n : Z) :
  0 <= n -> n <= JsString.len s ->
  JsString.padStart (JsString.slice s 0 n) n "0"
  = JsString.take (Z.to_nat n) s.
Proof.
  intros H0 Hn.
  assert (E : JsString.slice s 0 n = JsString.take (Z.to_nat n) s).
  { unfold JsString.slice.
    change (0 <? 0) with false. cbv iota.
    replace (n <? 0) with false by (symmetry; apply Z.ltb_ge; lia).
    pose proof (len_nonneg s).
    rewrite (Z.min_l 0), (Z.min_l n), Z.sub_0_r, Z.max_l by lia.
    reflexivity. }
  rewrite E. unfold JsString.padStart.
  replace (n <=? JsString.len (JsString.take (Z.to_nat n) s)) with true;
    [reflexivity|].
  symmetry. apply Z.leb_le. unfold JsString.len in *.
  rewrite length_take. lia.
Qed.

Lemma slice_padStart_length (s : string) (n : Z) :
  0 <= n -> n <= JsString.len s ->
  JsString.len (JsString.padStart (JsString.slice s 0 n) n "0") = n.
Proof.
  intros H0 Hn. rewrite slice_padStart by assumption.
  unfold JsString.len in *. rewrite length_take. lia.
Qed.

Lemma randomHex_result (env : Env) (n : Z) (w w' : World) (s : string) :
  0 <= n -> randomHex env n w = (w', Return s) ->
  JsString.len s = n /\ draws_only w w'.
Proof.
  intros H0. unfold randomHex, bind.
  pose proof (randomHex_loop_result env (loop_fuel env) n "" w) as R.
  destruct (randomHex_loop env (loop_fuel env) n "" w) as [w1 [r| |]];
    try discriminate.
  cbn [ret]. intros [= <- <-]. destruct R as [Hn Hd].
  split; [now apply slice_padStart_length | exact Hd].
Qed.

Lemma randomHex_returns (env : Env) (n : Z) (w : World) :
  0 <= n -> (Z.to_nat n <= loop_fuel env)%nat ->
  productive env (random_draws w) (Z.to_nat n) = true ->
  exists w' s, randomHex env n w = (w', Return s) /\ JsString.len s = n /\
               draws_only w w' /\
               (random_draws w' <= random_draws w + Z.to_nat n)%nat.
Proof.
  intros H0 Hf Hp.
  destruct (randomHex_loop_returns env (loop_fuel env) n "" w)
    as (w' & r & Hr & Hd).
  { change (JsString.len "") with 0. now rewrite Z.sub_0_r. }
  { change (JsString.len "") with 0. now rewrite Z.sub_0_r. }
  change (JsString.len "") with 0 in Hd. rewrite Z.sub_0_r in Hd.
  assert (E : randomHex env n w =
              (w', Return (JsString.padStart (JsString.slice r 0 n) n "0"))).
  { unfold randomHex, bind. now rewrite Hr. }
  destruct (randomHex_result env n w w' _ H0 E) as [Hl Ho].
  eauto 10.
Qed.

(** ** The characters of the random strings *)

Lemma forallb_take (p : ascii -> bool) (n : nat) (s : string) :
  JsString.forallb p s = true -> JsString.forallb p (JsString.take n s) = true.
Proof.
  revert s. induction n as [|n IH]; intros [|c s]; cbn; try reflexivity.
  intros H. apply andb_true_iff in H as [Hc Hs]. rewrite Hc. now apply IH.
Qed.

Lemma take_append (n : nat) (a b : string) :
  (n <= String.length a)%nat ->
  JsString.take n (a ++ b) = JsString.take n a.
Proof.
  revert a. induction n as [|n IH]; intros [|c a] H; cbn in *;
    try reflexivity; try lia.
  f_equal. apply IH. lia.
Qed.

(** A prefix read from position 0 is a prefix. *)
Lemma substring_prefix (s : string) (b : Z) :
  JsString.substring s 0 b
  = JsString.take (Z.to_nat (JsString.clamp (JsString.len s) b)) s.
Proof.
  unfold JsString.substring.
  assert (H : JsString.clamp (JsString.len s) 0 = 0).
  { unfold JsString.clamp. pose proof (len_nonneg s). lia. }
  rewrite H. clear H.
  assert (H : 0 <= JsString.clamp (JsString.len s) b)
    by (unfold JsString.clamp; lia).
  rewrite Z.min_l, Z.max_r, Z.sub_0_r by lia. reflexivity.
Qed.

Lemma indexOf_from_bound (c : ascii) (a b : string) (i : Z) :
  i <= JsString.indexOf_from c (a ++ String c b) i <= i + JsString.len a.
Proof.
  revert i. induction a as [|d a IH]; intros i; cbn [append JsString.indexOf_from].
  - rewrite Ascii.eqb_refl. change (JsString.len "") with 0. lia.
  - destruct (Ascii.eqb c d).
    + pose proof (len_nonneg (String d a)). lia.
    + specialize (IH (i + 1)). unfold JsString.len in *.
      cbn [String.length]. lia.
Qed.

Lemma digits_aux_hex (fuel : nat) (n : Z) (acc : string) :
  JsString.forallb JsString.is_lower_hex acc = true ->
  JsString.forallb JsString.is_lower_hex (JsString.digits_aux fuel 16 n acc)
  = true.
Proof.
  revert n acc. induction fuel as [|fuel IH]; intros n acc H;
    cbn [JsString.digits_aux]; [exact H|].
  assert (H' : JsString.forallb JsString.is_lower_hex
                 (String (JsString.digit_char (n mod 16)) acc) = true)
    by (cbn [JsString.forallb]; now rewrite digit_char_hex).
  destruct (n / 16 =? 0); [exact H' | now apply IH].
Qed.

Lemma of_int_hex_digits (n : Z) :
  0 <= n ->
  JsString.forallb JsString.is_lower_hex (JsString.of_int 16 n) = true.
Proof.
  intros H. unfold JsString.of_int.
  replace (n <? 0) with false by (symmetry; apply Z.ltb_ge; lia).
  now apply digits_aux_hex.
Qed.

(** The scaled value of a draw that is not negative is not negative. *)
Lemma scaled_nonneg (r : JsNumber.double) :
  JsNumber.leb (JsNumber.of_Z 0) r = true ->
  match JsNumber.as_fraction (JsNumber.mul r (JsNumber.of_Z (10 ^ 10))) with
  | Some (n, _) => 0 <= n
  | None => True
  end.
Proof.
  change (JsNumber.of_Z (10 ^ 10)) with (S754_finite false 5242880000000000 (-19)).
  change (JsNumber.of_Z 0) with (S754_zero false).
  destruct r as [s|s| |s m e]; cbn [JsNumber.mul SFmul JsNumber.as_fraction].
  - intros _. lia.
  - intros _. exact I.
  - intros _. exact I.
  - destruct s; [discriminate|]. intros _.
    cbn [xorb]. unfold binary_round_aux.
    destruct (shr_fexp _ _ _ _ _) as [mrs' e'].
    destruct (shr_fexp _ _ _ _ _) as [mrs'' e''].
    destruct (shr_m mrs'') as [|p|p]; cbn [JsNumber.as_fraction]; try lia;
      try exact I.
    destruct (Z.leb e'' _); cbn [JsNumber.as_fraction cond_Zopp]; [|exact I].
    destruct (0 <=? e''); [|lia].
    apply Z.mul_nonneg_nonneg; [lia|]. apply Z.pow_nonneg. lia.
Qed.

(** The characters a draw that is not negative contributes are
    hexadecimal digits. *)
Lemma draw_chunk_hex (r : JsNumber.double) :
  JsNumber.leb (JsNumber.of_Z 0) r = true ->
  JsString.forallb JsString.is_lower_hex (draw_chunk r) = true.
Proof.
  intros H. pose proof (scaled_nonneg r H) as N.
  unfold draw_chunk, draw_text, JsNumber.toString16.
  destruct (JsNumber.as_fraction _) as [[n k]|]; [|reflexivity].
  replace (n <? 0) with false by (symmetry; apply Z.ltb_ge; lia).
  rewrite Z.abs_eq by exact N.
  change ("" ++ ?x) with x.
  assert (Hi : JsString.forallb JsString.is_lower_hex
                 (JsString.of_int 16 (n / 2 ^ k)) = true).
  { apply of_int_hex_digits.
    destruct (Z.le_gt_cases 0 k) as [Hk|Hk].
    - apply Z.div_pos; [exact N | apply Z.pow_pos_nonneg; lia].
    - rewrite Z.pow_neg_r by lia. rewrite Z.div_0_r. lia. }
  rewrite substring_prefix.
  destruct (n mod 2 ^ k =? 0); [now apply forallb_take|].
  set (h := JsString.of_int 16 (n / 2 ^ k)) in *.
  set (f := JsNumber.fraction_digits _ _ _).
  change (h ++ "." ++ f) with (h ++ String "." f).
  pose proof (indexOf_from_bound "." h f 0) as B.
  fold (JsString.indexOf (h ++ String "." f) ".") in B.
  rewrite take_append.
  - now apply forallb_take.
  - unfold JsString.clamp, JsString.len in *.
    rewrite length_append. cbn [String.length]. lia.
Qed.

Lemma randomHex_loop_hex (env : Env) (fuel : nat) (n : Z) (result : string)
      (w : World) :
  nonneg_draws env ->
  JsString.forallb JsString.is_lower_hex result = true ->
  match randomHex_loop env fuel n result w with
  | (_, Return s) => JsString.forallb JsString.is_lower_hex s = true
  | _ => True
  end.
Proof.
  intros Hd. revert result w. induction fuel as [|fuel IH]; intros result w H;
    cbn [randomHex_loop]; destruct (JsString.len result <? n);
    try exact H; try exact I.
  unfold bind, random. apply IH.
  rewrite forallb_append, H. now apply draw_chunk_hex.
Qed.

(** With draws that are not negative, the string [randomHex] returns is
    made of hexadecimal digits. *)
Lemma randomHex_hex (env : Env) (n : Z) (w w' : World) (s : string) :
  nonneg_draws env -> 0 <= n -> randomHex env n w = (w', Return s) ->
  JsString.forallb JsString.is_lower_hex s = true.
Proof.
  intros Hd H0. unfold randomHex, bind.
  pose proof (randomHex_loop_result env (loop_fuel env) n "" w) as R.
  pose proof (randomHex_loop_hex env (loop_fuel env) n "" w Hd eq_refl) as X.
  destruct (randomHex_loop env (loop_fuel env) n "" w) as [w1 [r| |]];
    try discriminate.
  cbn [ret]. intros [= <- <-]. destruct R as [Hn _].
  rewrite slice_padStart by assumption. now apply forallb_take.
Qed.

Lemma lower_hex_is_hex (s : string) :
  JsString.forallb JsString.is_lower_hex s = true ->
  JsString.forallb JsString.is_hex s = true.
Proof.
  induction s as [|c s IH]; [reflexivity|]. cbn [JsString.forallb].
  intros H. apply andb_true_iff in H as [Hc Hs].
  rewrite (IH Hs). unfold JsString.is_hex. rewrite Hc. reflexivity.
Qed.

(** The key and the iv of a request are valid: 32 hexadecimal digits. *)
Lemma randomHex_valid_key (env : Env) (w w' : World) (s : string) :
  nonneg_draws env -> randomHex env 32 w = (w', Return s) ->
  valid_key s = true.
Proof.
  intros Hd E. unfold valid_key.
  destruct (randomHex_result env 32 w w' s ltac:(lia) E) as [L _].
  rewrite (lower_hex_is_hex s (randomHex_hex env 32 w w' s Hd ltac:(lia) E)).
  unfold JsString.len in L.
  replace (String.length s) with 32%nat by lia. reflexivity.
Qed.

(** X2.  For every length [n >= 0] and every sequence of draws:
    [randomHex(n)] never throws; whenever it returns, its result has exactly
    [n] characters, all of them hexadecimal digits when no draw is negative;
    and it does return, within [n] draws, when each of the next [n] draws
    has a fractional part once scaled (its text has a point, so it
    contributes at least one character). *)
Theorem randomHex_length (env : Env) (n : Z) (w : World) :
  0 <= n ->
  (forall w' s,
      randomHex env n w = (w', Return s) ->
      JsString.len s = n /\
      (nonneg_draws env ->
       JsString.forallb JsString.is_lower_hex s = true)) /\
  (forall w' e, randomHex env n w <> (w', Throw e)) /\
  ((Z.to_nat n <= loop_fuel env)%nat ->
   productive env (random_draws w) (Z.to_nat n) = true ->
   exists w' s,
     randomHex env n w = (w', Return s) /\ JsString.len s = n /\
     (random_draws w' <= random_draws w + Z.to_nat n)%nat).
Proof.
  intros H0. repeat split.
  - now apply (randomHex_result env n w w' s).
  - intros Hd. now apply (randomHex_hex env n w w' s).
  - intros w' e. unfold randomHex, bind.
    pose proof (randomHex_loop_result env (loop_fuel env) n "" w) as R.
    destruct (randomHex_loop env (loop_fuel env) n "" w) as [w1 [r| |]];
      [discriminate | contradiction | discriminate].
  - intros Hf Hp.
    destruct (randomHex_returns env n w H0 Hf Hp) as (w' & s & H1 & H2 & _ & H3).
    eauto.
Qed.

(** The key of the first request of the reference run. *)
Lemma randomHex_length_witness :
  0 <= 32 /\
  exists w' s,
    randomHex Reference.echo 32 (mkWorld 2 16 0 [] 0) = (w', Return s) /\
    JsString.len s = 32 /\ (random_draws w' <= 16 + 32)%nat.
Proof.
  split; [lia|].
  apply (randomHex_length Reference.echo 32 (mkWorld 2 16 0 [] 0));
    [lia | vm_compute; lia | vm_compute; reflexivity].
Defined.

Lemma stuck_loop (fuel fuel' : nat) (w : World) :
  snd (randomHex_loop (stuck_env fuel') fuel 32 "" w) = OutOfFuel.
Proof.
  revert w. induction fuel as [|fuel IH]; intros w; [reflexivity|].
  cbn [randomHex_loop]. change (JsString.len "" <? 32) with true. cbv iota.
  unfold bind, random. cbn [stuck_env Math_random].
  change ("" ++ draw_chunk one_half) with "".
  match goal with
  | |- context [randomHex_loop _ fuel 32 "" ?w1] =>
      specialize (IH w1); destruct (randomHex_loop _ fuel 32 "" w1) as [w' o]
  end.
  cbn [snd] in IH. now subst o.
Qed.

(** C7, at the failing input.  The draw 0.5 lies in [0, 1); scaled by
    10^10 it is the whole number 5000000000, whose text 12a05f200 has no
    point: [indexOf] answers -1 and [substring(0, -1)] is empty, so the
    draw adds nothing to the result.  When every draw is 0.5 the loop of
    [randomHex(32)] never ends (it exhausts any fuel): no string of 32
    characters is returned. *)
Theorem randomHex_never_returns :
  (JsNumber.leb (JsNumber.of_Z 0) one_half &&
   JsNumber.ltb one_half (JsNumber.of_Z 1) = true) /\
  draw_text one_half = "12a05f200" /\
  JsString.indexOf (draw_text one_half) "." = -1 /\
  draw_chunk one_half = "" /\
  forall fuel w, snd (randomHex (stuck_env fuel) 32 w) = OutOfFuel.
Proof.
  repeat split. intros fuel w. unfold randomHex, bind.
  pose proof (stuck_loop fuel fuel w) as H. cbn [stuck_env loop_fuel].
  destruct (randomHex_loop (stuck_env fuel) fuel 32 "" w) as [w' o].
  cbn [snd] in H. now subst o.
Qed.

(* ================================================================== *)
(** * Running the monad *)
(* ================================================================== *)

Lemma bind_Return {A B : Type} (m : M A) (k : A -> M B) (w w' : World)
      (a : A) :
  m w = (w', Return a) -> bind m k w = k a w'.
Proof. unfold bind. now intros ->. Qed.

Lemma bind_Throw {A B : Type} (m : M A) (k : A -> M B) (w w' : World)
      (e : Js.Error) :
  m w = (w', Throw e) -> bind m k w = (w', Throw e).
Proof. unfold bind. now intros ->. Qed.

Lemma bind_OutOfFuel {A B : Type} (m : M A) (k : A -> M B) (w w' : World) :
  m w = (w', OutOfFuel) -> bind m k w = (w', OutOfFuel).
Proof. unfold bind. now intros ->. Qed.

Lemma terminates_ret {A : Type} (a : A) : terminates (ret a).
Proof. intros w. discriminate. Qed.

Lemma terminates_throw {A : Type} (e : Js.Error) : terminates (@throw A e).
Proof. intros w. discriminate. Qed.

Lemma terminates_lift {A : Type} (r : Js.Error + A) : terminates (lift r).
Proof. destruct r; [apply terminates_throw | apply terminates_ret]. Qed.

Lemma terminates_bind {A B : Type} (m : M A) (k : A -> M B) :
  terminates m -> (forall a, terminates (k a)) -> terminates (bind m k).
Proof.
  intros Hm Hk w. unfold bind. specialize (Hm w).
  destruct (m w) as [w' [a|e|]]; cbn [snd] in *;
    [apply Hk | discriminate | congruence].
Qed.

Lemma bind_lift_inr {A B : Type} (a : A) (k : A -> M B) (w : World) :
  bind (lift (inr a)) k w = k a w.
Proof. reflexivity. Qed.

Lemma bind_lift_inl {A B : Type} (e : Js.Error) (k : A -> M B) (w : World) :
  bind (lift (inl e)) k w = (w, Throw e).
Proof. reflexivity. Qed.

Lemma get_non_nullish (v : Js.value) (k : string) :
  Js.nullish v = false -> Js.get v k = inr (Js.prop v k).
Proof. unfold Js.get. now intros ->. Qed.

Lemma terminates_try_catch {A : Type} (m : M A) (h : Js.Error -> M A) :
  terminates m -> (forall e, terminates (h e)) -> terminates (try_catch m h).
Proof.
  intros Hm Hh w. unfold try_catch. specialize (Hm w).
  destruct (m w) as [w' [a|e|]]; cbn [snd] in *;
    [discriminate | apply Hh | congruence].
Qed.

Lemma terminates_console_log : terminates console_log.
Proof. intros w. discriminate. Qed.

Lemma terminates_now (env : Env) : terminates (now env).
Proof. intros w. discriminate. Qed.

Lemma terminates_random (env : Env) : terminates (random env).
Proof. intros w. discriminate. Qed.

Lemma terminates_doEncrypt (env : Env) (msg pk : string) (mode : Z) :
  terminates (doEncrypt env msg pk mode).
Proof.
  intros w. unfold doEncrypt. cbn [snd].
  destruct (sm2_doEncrypt env (sm2_calls w) msg pk mode); discriminate.
Qed.

Lemma terminates_send (env : Env) (c : Axios.config) :
  terminates (send env c).
Proof.
  intros w. unfold send. cbn [snd].
  destruct (axios env (List.length (network w)) c); discriminate.
Qed.

Create HintDb term.

#[local] Hint Resolve terminates_ret terminates_throw terminates_lift
  terminates_console_log terminates_now terminates_random
  terminates_doEncrypt terminates_send : term.

Lemma Productive_productive (env : Env) (start count : nat) :
  Productive env -> productive env start count = true.
Proof.
  intros H. unfold productive. apply forallb_forall. intros k _.
  specialize (H k). destruct (draw_chunk (Math_random env k));
    [now elim H | reflexivity].
Qed.

Lemma terminates_generateUUID (env : Env) : terminates (generateUUID env).
Proof.
  unfold generateUUID, generateUUID_hex.
  repeat (apply terminates_bind; [auto with term | intros ?]);
    auto with term.
Qed.

Lemma terminates_randomHex (env : Env) (n : Z) :
  Productive env -> 0 <= n -> (Z.to_nat n <= loop_fuel env)%nat ->
  terminates (randomHex env n).
Proof.
  intros Hp H0 Hf w.
  destruct (randomHex_returns env n w H0 Hf
              (Productive_productive env _ _ Hp)) as (w' & s & E & _).
  rewrite E. discriminate.
Qed.

Lemma terminates_generateAepHeaders (env : Env) :
  terminates (generateAepHeaders env).
Proof.
  unfold generateAepHeaders.
  apply terminates_bind; [auto with term | intros t].
  apply terminates_bind; [apply terminates_generateUUID | intros nonce].
  auto with term.
Qed.

Lemma terminates_encryptKeyWithSm2 (env : Env) (key iv : string) :
  terminates (encryptKeyWithSm2 env key iv).
Proof.
  unfold encryptKeyWithSm2.
  apply terminates_bind; [auto with term | intros c]. auto with term.
Qed.

Lemma terminates_generateKaHeaders (env : Env) :
  Productive env -> (32 <= loop_fuel env)%nat ->
  terminates (generateKaHeaders env).
Proof.
  intros Hp Hf. unfold generateKaHeaders.
  apply terminates_bind; [auto with term | intros t].
  apply terminates_bind; [apply terminates_generateUUID | intros nonce].
  apply terminates_bind; [auto with term | intros signature].
  apply terminates_bind;
    [apply terminates_randomHex; [exact Hp | lia | exact Hf] | intros key].
  apply terminates_bind;
    [apply terminates_randomHex; [exact Hp | lia | exact Hf] | intros iv].
  apply terminates_bind; [apply terminates_encryptKeyWithSm2 | intros c].
  auto with term.
Qed.

Lemma terminates_cctv_request (env : Env) (path : string) (data : Js.value) :
  Productive env -> (32 <= loop_fuel env)%nat ->
  terminates (CctvClient.request env path data).
Proof.
  intros Hp Hf. unfold CctvClient.request. cbv zeta.
  apply terminates_bind; [apply terminates_generateAepHeaders | intros aep].
  apply terminates_bind;
    [now apply terminates_generateKaHeaders | intros ka].
  apply terminates_bind; [auto with term | intros ct].
  apply terminates_bind; [auto with term | intros response].
  destruct (Axios.body response); auto with term.
  destruct (0 <? JsString.len s); auto with term.
  apply terminates_bind; [auto with term | intros d]. auto with term.
Qed.

(* ================================================================== *)
(** * The text of nonces and timestamps *)
(* ================================================================== *)

Lemma forallb_drop (p : ascii -> bool) (n : nat) (s : string) :
  JsString.forallb p s = true ->
  JsString.forallb p (JsString.drop n s) = true.
Proof.
  revert s. induction n as [|n IH]; intros [|c s] H; try exact H.
  cbn [JsString.drop]. apply IH.
  cbn [JsString.forallb] in H. now apply andb_true_iff in H as [_ H].
Qed.

Lemma ascii_substring (s : string) (a b : Z) :
  ascii_text s = true -> ascii_text (JsString.substring s a b) = true.
Proof.
  intros H. unfold JsString.substring, ascii_text.
  apply forallb_take, forallb_drop, H.
Qed.

Lemma digit_char_ascii (d : Z) :
  0 <= d < 36 -> (nat_of_ascii (JsString.digit_char d) <? 128)%nat = true.
Proof.
  intros H. unfold JsString.digit_char. apply Nat.ltb_lt.
  destruct (d <? 10); rewrite nat_ascii_embedding; lia.
Qed.

Lemma digits_aux_ascii (fuel : nat) (radix n : Z) (acc : string) :
  0 < radix <= 36 -> ascii_text acc = true ->
  ascii_text (JsString.digits_aux fuel radix n acc) = true.
Proof.
  intros Hr. revert n acc. induction fuel as [|fuel IH]; intros n acc H;
    cbn [JsString.digits_aux]; [exact H|].
  assert (H' : ascii_text (String (JsString.digit_char (n mod radix)) acc)
               = true).
  { unfold ascii_text in *. cbn [JsString.forallb].
    rewrite digit_char_ascii, H; [reflexivity|].
    pose proof (Z.mod_pos_bound n radix). lia. }
  destruct (n / radix =? 0); [exact H' | now apply IH].
Qed.

Lemma of_int_ascii (radix n : Z) :
  0 < radix <= 36 -> ascii_text (JsString.of_int radix n) = true.
Proof.
  intros Hr. unfold JsString.of_int, JsString.digits.
  destruct (n <? 0); [cbn [ascii_text JsString.forallb]|];
    now apply digits_aux_ascii.
Qed.

Lemma uuid_group_ascii (r : JsNumber.double) : ascii_text (uuid_group r) = true.
Proof.
  unfold uuid_group, JsString.substring_from.
  apply ascii_substring, of_int_ascii. lia.
Qed.

(** The inner signature of an ASCII nonce is the digest of the characters
    of timestamp + nonce + timestamp. *)
Lemma generateKaSignature_ascii (nonce : string) (timestamp : Z) :
  ascii_text nonce = true ->
  generateKaSignature nonce timestamp =
  inr (JsString.toUpperCase
         (Sm3.hex (Bytes.of_string
                     (JsString.of_int 10 timestamp ++ nonce ++
                      JsString.of_int 10 timestamp)))).
Proof.
  intros H. unfold generateKaSignature.
  rewrite sm3_ascii, append_assoc; [reflexivity|].
  rewrite !ascii_text_append, H, !of_int_ascii by lia. reflexivity.
Qed.

(** X4.  For every ASCII nonce (as every nonce of [generateUUID] is) and
    every timestamp that is a safe integer, the inner signature is the SM3
    digest of the characters of timestamp + nonce + timestamp (the
    timestamp in decimal; no secret, no appKey), in upper-case hexadecimal:
    64 upper-case hexadecimal digits.  It is not the function of the outer
    layer: on the same text to sign (timestamp 1, nonce a, empty appKey and
    secret) the two differ. *)
Theorem generateKaSignature_ascii_spec (nonce : string) (timestamp : Z) :
  ascii_text nonce = true -> safe_integer timestamp = true ->
  exists signature,
    generateKaSignature nonce timestamp = inr signature /\
    signature
    = JsString.toUpperCase
        (Sm3.hex (Bytes.of_string
                    (JsString.of_int 10 timestamp ++ nonce ++
                     JsString.of_int 10 timestamp))) /\
    String.length signature = 64%nat /\
    JsString.forallb JsString.is_upper_hex signature = true /\
    generateKaSignature "a" 1
    <> inr (generateAepSignature "1" EmptyString "a" EmptyString).
Proof.
  intros Ha _. eexists. split; [now apply generateKaSignature_ascii|].
  split; [reflexivity|].
  destruct (sm3_text (Bytes.of_string
                        (JsString.of_int 10 timestamp ++ nonce ++
                         JsString.of_int 10 timestamp))) as [Hl Hh].
  split; [now rewrite length_toUpperCase|].
  split; [now apply toUpperCase_hex|].
  vm_compute. discriminate.
Qed.

(** The inner signature of a nonce of the reference run. *)
Lemma generateKaSignature_ascii_spec_witness :
  exists signature,
    generateKaSignature "0cac9c4e-2bef-bb90-4b32-dad36a75fa16" 1762117200
    = inr signature /\
    String.length signature = 64%nat.
Proof.
  destruct (generateKaSignature_ascii_spec
              "0cac9c4e-2bef-bb90-4b32-dad36a75fa16" 1762117200
              eq_refl eq_refl) as (s & E & _ & L & _).
  exists s. split; assumption.
Defined.

(* ================================================================== *)
(** * The network calls a computation issues *)
(* ================================================================== *)

Lemma offline_issues {A : Type} (p : Axios.config -> bool) (m : M A) :
  offline m -> issues_with p m.
Proof.
  intros H w. exists []. rewrite H, app_nil_r. split; reflexivity.
Qed.

Lemma offline_bind {A B : Type} (m : M A) (k : A -> M B) :
  offline m -> (forall a, offline (k a)) -> offline (bind m k).
Proof.
  intros Hm Hk w. unfold bind. specialize (Hm w).
  destruct (m w) as [w' [a|e|]]; cbn [fst] in *; try exact Hm.
  rewrite Hk. exact Hm.
Qed.

Lemma offline_try_catch {A : Type} (m : M A) (h : Js.Error -> M A) :
  offline m -> (forall e, offline (h e)) -> offline (try_catch m h).
Proof.
  intros Hm Hh w. unfold try_catch. specialize (Hm w).
  destruct (m w) as [w' [a|e|]]; cbn [fst] in *; try exact Hm.
  rewrite Hh. exact Hm.
Qed.

Lemma offline_ret {A : Type} (a : A) : offline (ret a).
Proof. intros w. reflexivity. Qed.

Lemma offline_throw {A : Type} (e : Js.Error) : offline (@throw A e).
Proof. intros w. reflexivity. Qed.

Lemma offline_lift {A : Type} (r : Js.Error + A) : offline (lift r).
Proof. destruct r; [apply offline_throw | apply offline_ret]. Qed.

Lemma offline_console_log : offline console_log.
Proof. intros w. reflexivity. Qed.

Lemma offline_now (env : Env) : offline (now env).
Proof. intros w. reflexivity. Qed.

Lemma offline_random (env : Env) : offline (random env).
Proof. intros w. reflexivity. Qed.

Lemma offline_doEncrypt (env : Env) (msg pk : string) (mode : Z) :
  offline (doEncrypt env msg pk mode).
Proof. intros w. reflexivity. Qed.

Create HintDb offline.

#[local] Hint Resolve offline_ret offline_throw offline_lift
  offline_console_log offline_now offline_random offline_doEncrypt : offline.

Lemma offline_generateUUID (env : Env) : offline (generateUUID env).
Proof.
  unfold generateUUID, generateUUID_hex.
  repeat (apply offline_bind; [auto with offline | intros ?]);
    auto with offline.
Qed.

Lemma offline_randomHex (env : Env) (n : Z) : offline (randomHex env n).
Proof.
  unfold randomHex. apply offline_bind; [|auto with offline].
  intros w.
  pose proof (randomHex_loop_result env (loop_fuel env) n "" w) as R.
  destruct (randomHex_loop env (loop_fuel env) n "" w) as [w' [s|e|]];
    cbn [fst]; [apply R | contradiction | apply R].
Qed.

Lemma offline_generateAepHeaders (env : Env) :
  offline (generateAepHeaders env).
Proof.
  unfold generateAepHeaders.
  apply offline_bind; [auto with offline | intros t].
  apply offline_bind; [apply offline_generateUUID | intros nonce].
  auto with offline.
Qed.

Lemma offline_generateKaHeaders (env : Env) :
  offline (generateKaHeaders env).
Proof.
  unfold generateKaHeaders, encryptKeyWithSm2.
  apply offline_bind; [auto with offline | intros t].
  apply offline_bind; [apply offline_generateUUID | intros nonce].
  apply offline_bind; [auto with offline | intros signature].
  apply offline_bind; [apply offline_randomHex | intros k].
  apply offline_bind; [apply offline_randomHex | intros v].
  apply offline_bind; [|auto with offline].
  apply offline_bind; auto with offline.
Qed.

Lemma keeps_clock_bind {A B : Type} (m : M A) (k : A -> M B) :
  keeps_clock m -> (forall a, keeps_clock (k a)) -> keeps_clock (bind m k).
Proof.
  intros Hm Hk w. unfold bind. specialize (Hm w).
  destruct (m w) as [w' [a|e|]]; cbn [fst] in *; try exact Hm.
  rewrite Hk. exact Hm.
Qed.

Lemma keeps_clock_ret {A : Type} (a : A) : keeps_clock (ret a).
Proof. intros w. reflexivity. Qed.

Lemma keeps_clock_throw {A : Type} (e : Js.Error) : keeps_clock (@throw A e).
Proof. intros w. reflexivity. Qed.

Lemma keeps_clock_lift {A : Type} (r : Js.Error + A) : keeps_clock (lift r).
Proof. destruct r; [apply keeps_clock_throw | apply keeps_clock_ret]. Qed.

Lemma keeps_clock_random (env : Env) : keeps_clock (random env).
Proof. intros w. reflexivity. Qed.

Lemma keeps_clock_doEncrypt (env : Env) (msg pk : string) (mode : Z) :
  keeps_clock (doEncrypt env msg pk mode).
Proof. intros w. reflexivity. Qed.

Lemma keeps_clock_send (env : Env) (c : Axios.config) :
  keeps_clock (send env c).
Proof. intros w. reflexivity. Qed.

Create HintDb clock.

#[local] Hint Resolve keeps_clock_ret keeps_clock_throw keeps_clock_lift
  keeps_clock_random keeps_clock_doEncrypt keeps_clock_send : clock.

Lemma keeps_clock_generateUUID (env : Env) : keeps_clock (generateUUID env).
Proof.
  unfold generateUUID, generateUUID_hex.
  repeat (apply keeps_clock_bind; [auto with clock | intros ?]);
    auto with clock.
Qed.

Lemma keeps_clock_randomHex (env : Env) (n : Z) :
  keeps_clock (randomHex env n).
Proof.
  unfold randomHex. apply keeps_clock_bind; [|auto with clock].
  intros w.
  pose proof (randomHex_loop_result env (loop_fuel env) n "" w) as R.
  destruct (randomHex_loop env (loop_fuel env) n "" w) as [w' [s|e|]];
    cbn [fst]; [apply R | contradiction | apply R].
Qed.

(* ================================================================== *)
(** * The headers of the two layers *)
(* ================================================================== *)

Lemma bind_returns {A B : Type} (m : M A) (k : A -> M B) (w w' : World)
      (b : B) :
  bind m k w = (w', Return b) ->
  exists w1 a, m w = (w1, Return a) /\ k a w1 = (w', Return b).
Proof.
  unfold bind. destruct (m w) as [w1 [a|e|]]; intros H;
    [eauto | discriminate | discriminate].
Qed.

Lemma generateUUID_hex_run (env : Env) (w : World) :
  generateUUID_hex env w =
  (mkWorld (clock_reads w) (S (random_draws w)) (sm2_calls w) (network w)
           (console w),
   Return (uuid_group (Math_random env (random_draws w)))).
Proof. reflexivity. Qed.

(** A nonce: eight draws, the text of each on four digits, ASCII
    throughout. *)
Lemma generateUUID_run (env : Env) (w : World) :
  exists nonce,
    generateUUID env w =
    (mkWorld (clock_reads w) (8 + random_draws w) (sm2_calls w) (network w)
             (console w), Return nonce) /\
    ascii_text nonce = true.
Proof.
  destruct w as [c r s n l]. eexists. split; [reflexivity|].
  cbn [random_draws JsString.concat].
  rewrite !ascii_text_append.
  repeat match goal with
         | |- context [JsString.substring_from
                         (JsString.of_int 16
                            (JsNumber.floor
                               (JsNumber.mul
                                  (JsNumber.add (JsNumber.of_Z 1) ?d)
                                  (JsNumber.of_Z 65536)))) 1] =>
             fold (uuid_group d)
         end.
  rewrite !uuid_group_ascii.
  reflexivity.
Qed.

(** The outer layer reads the clock once and draws eight random numbers. *)
Lemma generateAepHeaders_run (env : Env) (w : World) :
  exists nonce,
    generateAepHeaders env w =
    (mkWorld (S (clock_reads w)) (8 + random_draws w) (sm2_calls w)
             (network w) (console w),
     Return (aep_headers (Date_now env (clock_reads w)) nonce)).
Proof.
  unfold generateAepHeaders.
  erewrite bind_Return by reflexivity. cbv beta zeta.
  set (w1 := mkWorld _ _ _ _ _).
  destruct (generateUUID_run env w1) as (nonce & En & _).
  erewrite bind_Return by exact En.
  exists nonce. reflexivity.
Qed.

(** The inner layer reads the clock, draws its nonce and signs it; what is
    left is to draw the key and the iv and to wrap them. *)
Lemma generateKaHeaders_start (env : Env) (w : World) :
  exists nonce signature,
    generateKaSignature nonce (ka_timestamp (Date_now env (clock_reads w)))
    = inr signature /\
    generateKaHeaders env w =
    (key <- randomHex env 32 ;;
     iv <- randomHex env 32 ;;
     encryptedKey <- encryptKeyWithSm2 env key iv ;;
     ret {| headers := ka_headers (Date_now env (clock_reads w)) nonce
                                  signature encryptedKey;
            key := key; iv := iv |})
      (mkWorld (S (clock_reads w)) (8 + random_draws w) (sm2_calls w)
               (network w) (console w)).
Proof.
  unfold generateKaHeaders.
  erewrite bind_Return by reflexivity. cbv beta zeta.
  set (w1 := mkWorld _ _ _ _ _).
  destruct (generateUUID_run env w1) as (nonce & En & Ha).
  erewrite bind_Return by exact En.
  fold (ka_timestamp (Date_now env (clock_reads w))).
  pose proof (generateKaSignature_ascii
                nonce (ka_timestamp (Date_now env (clock_reads w))) Ha) as Es.
  eexists nonce, _. split; [exact Es|].
  rewrite Es, bind_lift_inr. reflexivity.
Qed.

(** Whatever becomes of it, the inner layer reads the clock exactly once
    and issues no network call. *)
Lemma generateKaHeaders_world (env : Env) (w : World) :
  clock_reads (fst (generateKaHeaders env w)) = S (clock_reads w) /\
  network (fst (generateKaHeaders env w)) = network w.
Proof.
  split; [|apply offline_generateKaHeaders].
  destruct (generateKaHeaders_start env w) as (nonce & signature & _ & E).
  rewrite E.
  match goal with
  | |- clock_reads (fst (?m ?w1)) = _ =>
      assert (K : keeps_clock m); [|now rewrite K]
  end.
  apply keeps_clock_bind; [apply keeps_clock_randomHex | intros k].
  apply keeps_clock_bind; [apply keeps_clock_randomHex | intros v].
  apply keeps_clock_bind; [|auto with clock].
  unfold encryptKeyWithSm2. apply keeps_clock_bind; auto with clock.
Qed.

Lemma randomHex_returns_length (env : Env) (n : Z) :
  0 <= n ->
  returns_with (fun s => JsString.len s = n) (randomHex env n).
Proof.
  intros H0 w w' s H. exact (proj1 (randomHex_result env n w w' s H0 H)).
Qed.

(** What the inner layer returns, when it returns. *)
Lemma generateKaHeaders_returns (env : Env) (w w' : World) (ka : KaHeaders) :
  generateKaHeaders env w = (w', Return ka) ->
  ka_shape env (Date_now env (clock_reads w)) ka.
Proof.
  destruct (generateKaHeaders_start env w) as (nonce & signature & Es & E).
  rewrite E. clear E. intros H.
  apply bind_returns in H as (w3 & k & Hk & H).
  apply bind_returns in H as (w4 & v & Hv & H).
  apply bind_returns in H as (w5 & wrapped & Hw & H).
  injection H as _ <-.
  apply (randomHex_returns_length env 32 ltac:(lia)) in Hk, Hv.
  unfold JsString.len in Hk, Hv.
  rewrite encryptKeyWithSm2_run in Hw.
  rewrite <- append_assoc in Hw.
  destruct (sm2_doEncrypt env (sm2_calls w4) ((k ++ "&") ++ v)
              (sm2PublicKey CONFIG) 1) as [e|c] eqn:Ec; [discriminate|].
  injection Hw as _ <-.
  exists nonce, signature, (sm2_calls w4), c. cbn [headers key iv].
  split; [reflexivity|]. split; [exact Es|]. split; [exact Ec|]. split; lia.
Qed.

(** The inner layer returns when the draws are productive and the
    asymmetric encryption answers. *)
Lemma generateKaHeaders_run (env : Env) (w : World) :
  Productive env -> (32 <= loop_fuel env)%nat -> sm2_answers env w ->
  exists ka w',
    generateKaHeaders env w = (w', Return ka) /\
    ka_shape env (Date_now env (clock_reads w)) ka /\
    clock_reads w' = S (clock_reads w) /\
    sm2_calls w' = S (sm2_calls w) /\
    network w' = network w /\ console w' = console w.
Proof.
  intros Hp Hf Hs.
  destruct (generateKaHeaders_start env w) as (nonce & signature & Es & E).
  set (w2 := mkWorld _ _ _ _ _) in E.
  destruct (randomHex_returns env 32 w2 ltac:(lia) Hf
              (Productive_productive env _ _ Hp))
    as (w3 & k & Ek & Lk & Dk & _).
  destruct (randomHex_returns env 32 w3 ltac:(lia) Hf
              (Productive_productive env _ _ Hp))
    as (w4 & v & Ei & Li & Di & _).
  pose proof (encryptKeyWithSm2_run env k v w4) as Ew.
  destruct Dk as (K1 & K2 & K3 & K4 & _).
  destruct Di as (I1 & I2 & I3 & I4 & _).
  destruct (Hs (k ++ "&" ++ v)) as [c Ec].
  replace (sm2_calls w4) with (sm2_calls w) in Ew
    by (rewrite I2, K2; reflexivity).
  rewrite Ec in Ew.
  assert (R : generateKaHeaders env w =
              (mkWorld (clock_reads w4) (random_draws w4) (S (sm2_calls w))
                       (network w4) (console w4),
               Return {| headers := ka_headers (Date_now env (clock_reads w))
                                      nonce signature
                                      ("04" ++ JsString.toUpperCase c);
                         key := k; iv := v |})).
  { rewrite E. erewrite bind_Return by exact Ek.
    erewrite bind_Return by exact Ei.
    erewrite bind_Return by exact Ew. reflexivity. }
  eexists _, _. split; [exact R|].
  split; [exact (generateKaHeaders_returns env _ _ _ R)|].
  cbn [clock_reads sm2_calls network console].
  repeat split.
  - rewrite I1, K1. reflexivity.
  - rewrite I3, K3. reflexivity.
  - rewrite I4, K4. reflexivity.
Qed.

(* ================================================================== *)
(** * The headers of the two layers, whatever the environment *)
(* ================================================================== *)

Lemma bind_throws {A B : Type} (m : M A) (k : A -> M B) (w w' : World)
      (e : Js.Error) :
  bind m k w = (w', Throw e) ->
  m w = (w', Throw e) \/
  exists w1 a, m w = (w1, Return a) /\ k a w1 = (w', Throw e).
Proof.
  unfold bind. destruct (m w) as [w1 [a|e'|]]; intros H;
    [right; eauto | left; now injection H as -> -> | discriminate].
Qed.

(** X11.  The two header generators, in every environment.
    [generateAepHeaders] always returns: it reads the clock once, draws
    eight random numbers for its nonce, and returns the application key,
    the timestamp of the reading, the nonce and their signature.
    [generateKaHeaders] reads the clock once whatever becomes of it.  When
    it returns, it returns the headers of the inner layer for its reading
    (timestamp, nonce, their signature, the wrapped key) with a key and an
    iv of 32 characters, hexadecimal digits when no draw is negative.
    The only error it throws is the one of the asymmetric encryption.  It
    returns or throws (the loops of [randomHex] end) when every draw
    contributes a character and the fuel allows 32 turns. *)
Theorem headers_of_both_layers (env : Env) (w : World) :
  (exists nonce,
      generateAepHeaders env w =
      (mkWorld (S (clock_reads w)) (8 + random_draws w) (sm2_calls w)
               (network w) (console w),
       Return (aep_headers (Date_now env (clock_reads w)) nonce)) /\
      ascii_text nonce = true) /\
  clock_reads (fst (generateKaHeaders env w)) = S (clock_reads w) /\
  network (fst (generateKaHeaders env w)) = network w /\
  (forall w' ka,
      generateKaHeaders env w = (w', Return ka) ->
      ka_shape env (Date_now env (clock_reads w)) ka /\
      (nonneg_draws env ->
       valid_key (key ka) = true /\ valid_key (iv ka) = true)) /\
  (forall w' e,
      generateKaHeaders env w = (w', Throw e) ->
      exists n msg,
        sm2_doEncrypt env n msg (sm2PublicKey CONFIG) 1 = inl e) /\
  (Productive env -> (32 <= loop_fuel env)%nat ->
   snd (generateKaHeaders env w) <> OutOfFuel).
Proof.
  split.
  { unfold generateAepHeaders.
    erewrite bind_Return by reflexivity. cbv beta zeta.
    set (w1 := mkWorld _ _ _ _ _).
    destruct (generateUUID_run env w1) as (nonce & En & Ha).
    erewrite bind_Return by exact En.
    exists nonce. split; [reflexivity | exact Ha]. }
  split; [apply generateKaHeaders_world|].
  split; [apply generateKaHeaders_world|].
  split; [|split].
  - intros w' ka H. split; [exact (generateKaHeaders_returns env w w' ka H)|].
    intros Hd.
    destruct (generateKaHeaders_start env w) as (nonce & signature & _ & E).
    rewrite E in H. clear E.
    apply bind_returns in H as (w3 & k & Hk & H).
    apply bind_returns in H as (w4 & v & Hv & H).
    apply bind_returns in H as (w5 & wrapped & _ & H).
    injection H as _ <-. cbn [key iv].
    split; eapply randomHex_valid_key; eauto.
  - intros w' e H.
    destruct (generateKaHeaders_start env w) as (nonce & signature & _ & E).
    rewrite E in H. clear E.
    assert (N : forall w0 w1 e0, randomHex env 32 w0 <> (w1, Throw e0)).
    { intros w0 w1 e0. unfold randomHex, bind.
      pose proof (randomHex_loop_result env (loop_fuel env) 32 "" w0) as R.
      destruct (randomHex_loop env (loop_fuel env) 32 "" w0)
        as [w2 [r| |]]; [discriminate | contradiction | discriminate]. }
    apply bind_throws in H as [H|(w3 & k & _ & H)]; [now apply N in H|].
    apply bind_throws in H as [H|(w4 & v & _ & H)]; [now apply N in H|].
    apply bind_throws in H as [H|(w5 & wrapped & _ & H)]; [|discriminate H].
    rewrite encryptKeyWithSm2_run in H.
    match type of H with
    | context [sm2_doEncrypt env ?n ?msg ?pk 1] =>
        destruct (sm2_doEncrypt env n msg pk 1) as [e'|c] eqn:Ec;
        [exists n, msg; injection H as _ <-; exact Ec | discriminate]
    end.
  - intros Hp Hf. now apply terminates_generateKaHeaders.
Qed.

(* ================================================================== *)
(** * C2: the two clock readings of a request *)
(* ================================================================== *)

(** The request of the CCTV client, once the headers of both layers are
    made: nothing reads the clock any more, and exactly one call is issued
    when the body encrypts, none otherwise. *)
Lemma cctv_request_world (env : Env) (path : string) (data : Js.value)
      (w w1 w2 : World) (aep : list (string * Js.value)) (ka : KaHeaders) :
  generateAepHeaders env w = (w1, Return aep) ->
  generateKaHeaders env w1 = (w2, Return ka) ->
  fst (CctvClient.request env path data w)
  = match sm4Encrypt (Js.default data (Js.VObj [])) (key ka) (iv ka) with
    | inr ct =>
        mkWorld (clock_reads w2) (random_draws w2) (sm2_calls w2)
          (network w2 ++
           [ {| Axios.method := "POST";
                Axios.url := (baseUrl CONFIG ++ "/local/ika-api") ++ path;
                Axios.headers :=
                  Js.spread (Js.spread aep (headers ka))
                    [ ("Content-Type", Js.VStr "application/json");
                      ("Accept",
                       Js.VStr "application/json, text/plain, */*");
                      ("Origin", Js.VStr (baseUrl CONFIG));
                      ("Referer", Js.VStr (baseUrl CONFIG)) ];
                Axios.data := ct;
                Axios.timeout := Some 30000;
                Axios.responseType := None |} ])%list
          (console w2)
    | inl _ => w2
    end.
Proof.
  intros Ea Ek. unfold CctvClient.request. cbv zeta.
  erewrite bind_Return by exact Ea.
  erewrite bind_Return by exact Ek.
  destruct (sm4Encrypt _ (key ka) (iv ka)) as [e|ct]; [reflexivity|].
  rewrite bind_lift_inr.
  unfold bind, send.
  match goal with
  | |- context [axios env ?n ?c] => destruct (axios env n c) as [e|r]
  end; [reflexivity|].
  destruct (Axios.body r); try reflexivity.
  destruct (0 <? JsString.len s); [|reflexivity].
  destruct (sm4Decrypt s (key ka) (iv ka)) as [e|d]; [reflexivity|].
  cbn [lift ret throw]. destruct (JSON_parse env d); reflexivity.
Qed.

(** The headers of a request are stamped by the two readings. *)
Lemma stamped_headers (env : Env) (t1 t2 : Z) (nonce1 : string)
      (ka : KaHeaders) (m u d : string) (t : option Z) (r : option string) :
  ka_shape env t2 ka ->
  stamped t1 t2
    (Axios.mkConfig m u
       (Js.spread (Js.spread (aep_headers t1 nonce1) (headers ka))
          [ ("Content-Type", Js.VStr "application/json");
            ("Accept", Js.VStr "application/json, text/plain, */*");
            ("Origin", Js.VStr (baseUrl CONFIG));
            ("Referer", Js.VStr (baseUrl CONFIG)) ])
       d t r).
Proof.
  intros (nonce2 & signature & n & c & Hh & Hs & _).
  exists nonce1, nonce2, signature. cbn [Axios.headers]. rewrite Hh.
  repeat split; try reflexivity. exact Hs.
Qed.

(** C2, as amended.  A call of [request] reads the clock exactly twice:
    [generateAepHeaders] reads it once, then [generateKaHeaders] reads it
    once more.  The request issues at most one network call, and that call
    is stamped by the two readings: its outer timestamp and signature are
    those of the first reading, its inner timestamp and signature those of
    the second.  The call is issued whenever [generateKaHeaders] returns
    and the body encrypts. *)
Theorem request_timestamps (env : Env) (path : string) (data : Js.value)
        (w : World) :
  clock_reads (fst (generateAepHeaders env w)) = S (clock_reads w) /\
  (forall w1, clock_reads (fst (generateKaHeaders env w1))
              = S (clock_reads w1)) /\
  clock_reads (fst (CctvClient.request env path data w))
  = (2 + clock_reads w)%nat /\
  (exists calls,
      network (fst (CctvClient.request env path data w))
      = (network w ++ calls)%list /\
      (List.length calls <= 1)%nat /\
      Forall (stamped (Date_now env (clock_reads w))
                      (Date_now env (S (clock_reads w)))) calls) /\
  (forall w2 ka ct,
      generateKaHeaders env (fst (generateAepHeaders env w))
      = (w2, Return ka) ->
      sm4Encrypt (Js.default data (Js.VObj [])) (key ka) (iv ka) = inr ct ->
      exists c,
        network (fst (CctvClient.request env path data w))
        = (network w ++ [c])%list).
Proof.
  destruct (generateAepHeaders_run env w) as [nonce1 Ea].
  set (w1 := mkWorld _ _ _ _ _) in Ea.
  destruct (generateKaHeaders_world env w1) as [C2 N2].
  split; [now rewrite Ea|].
  split; [intros w0; apply generateKaHeaders_world|].
  destruct (generateKaHeaders env w1) as [w2 [ka|e|]] eqn:Ek;
    cbn [fst] in C2, N2.
  - pose proof (cctv_request_world env path data w w1 w2 _ ka Ea Ek) as W.
    pose proof (generateKaHeaders_returns env w1 w2 ka Ek) as Hk.
    rewrite W.
    destruct (sm4Encrypt _ (key ka) (iv ka)) as [e|ct] eqn:Ec.
    + split; [exact C2|]. split.
      * exists []. rewrite app_nil_r. split; [exact N2|].
        split; [cbn; lia | constructor].
      * intros w2' ka' ct'. rewrite Ea. cbn [fst]. rewrite Ek.
        intros [= <- <-]. rewrite Ec. discriminate.
    + cbn [clock_reads network]. split; [exact C2|]. split.
      * eexists [_]. rewrite N2. split; [reflexivity|].
        split; [cbn; lia|]. constructor; [|constructor].
        now apply (stamped_headers env).
      * intros _ _ _ _ _. rewrite N2. eexists. reflexivity.
  - assert (W : fst (CctvClient.request env path data w) = w2).
    { unfold CctvClient.request. cbv zeta.
      erewrite bind_Return by exact Ea.
      erewrite bind_Throw by exact Ek. reflexivity. }
    rewrite W. split; [exact C2|]. split.
    + exists []. rewrite app_nil_r. split; [exact N2|].
      split; [cbn; lia | constructor].
    + intros w2' ka' ct'. rewrite Ea. cbn [fst]. rewrite Ek. discriminate.
  - assert (W : fst (CctvClient.request env path data w) = w2).
    { unfold CctvClient.request. cbv zeta.
      erewrite bind_Return by exact Ea.
      erewrite bind_OutOfFuel by exact Ek. reflexivity. }
    rewrite W. split; [exact C2|]. split.
    + exists []. rewrite app_nil_r. split; [exact N2|].
      split; [cbn; lia | constructor].
    + intros w2' ka' ct'. rewrite Ea. cbn [fst]. rewrite Ek. discriminate.
Qed.

(** The draws of the reference random source are productive. *)
Lemma Reference_productive (start : Z)
      (server : nat -> Axios.config -> Js.Error + Axios.response) :
  Productive (Reference.env_of start server).
Proof.
  intros k. cbn [Reference.env_of Math_random]. unfold Reference.draw.
  assert (H : List.forallb
                (fun r => negb (String.length (draw_chunk r) =? 0)%nat)
                Reference.draws = true) by (vm_compute; reflexivity).
  rewrite forallb_forall in H.
  specialize (H (nth (k mod 97) Reference.draws (S754_zero false))).
  intros E. rewrite E in H. discriminate H.
  apply nth_In. change (List.length Reference.draws) with 97%nat.
  apply Nat.mod_upper_bound. discriminate.
Qed.

Lemma Reference_sm2_answers (start : Z)
      (server : nat -> Axios.config -> Js.Error + Axios.response)
      (w : World) :
  sm2_answers (Reference.env_of start server) w.
Proof. intros msg. eexists. reflexivity. Qed.

(** A run of [request] against the echoing service: the clock reads
    1762117200123 then 1762117200124, and the one call issued is stamped by
    these two readings. *)
Lemma request_timestamps_witness :
  exists c,
    network (fst (CctvClient.request Reference.echo "/open/port" port_query
                                     initial)) = [c] /\
    stamped 1762117200123 1762117200124 c.
Proof.
  destruct (request_timestamps Reference.echo "/open/port" port_query initial)
    as (_ & _ & _ & (calls & N & _ & F) & H).
  edestruct H as [c Hc]; [vm_compute; reflexivity | vm_compute; reflexivity |].
  exists c. split; [exact Hc|].
  rewrite Hc in N. apply app_inv_head in N. subst calls.
  now inversion F.
Defined.

(** C2, counterexample.  One call of [request] reads the clock twice, at
    1762117200999 and at 1762117201000.  The request it sends carries the
    outer timestamp of the first reading and the inner timestamp of the
    second: 1762117200.999 and 1762117201.  No single reading of the run
    gives both: the first would give the inner timestamp 1762117200, the
    second the outer timestamp 1762117201.000. *)
Lemma request_reads_clock_twice :
  clock_reads
    (fst (CctvClient.request boundary "/open/port" port_query initial))
  = 2%nat /\
  List.map (fun c => (Js.lookup "x-aep-timestamp" (Axios.headers c),
                      Js.lookup "x-ka-timestamp" (Axios.headers c)))
           (network (fst (CctvClient.request boundary "/open/port"
                                             port_query initial)))
  = [(Some (Js.VStr "1762117200.999"), Some (Js.VStr "1762117201"))] /\
  Date_now boundary 0 = 1762117200999 /\
  Date_now boundary 1 = 1762117201000 /\
  aep_timestamp 1762117200999 = "1762117200.999" /\
  JsString.of_int 10 (ka_timestamp 1762117200999) = "1762117200" /\
  aep_timestamp 1762117201000 = "1762117201.000" /\
  JsString.of_int 10 (ka_timestamp 1762117201000) = "1762117201".
Proof. vm_compute. repeat split. Qed.

(* ================================================================== *)
(** * What a request makes of the response *)
(* ================================================================== *)

Lemma console_logs_run (n : nat) (w : World) :
  exists w', ApiClient.console_logs n w = (w', Return tt) /\
             network w' = network w /\ clock_reads w' = clock_reads w.
Proof.
  revert w. induction n as [|n IH]; intros w; cbn [ApiClient.console_logs].
  - exists w. repeat split.
  - erewrite bind_Return by reflexivity.
    destruct (IH (mkWorld (clock_reads w) (random_draws w) (sm2_calls w)
                          (network w) (S (console w)))) as (w' & E & N & C).
    exists w'. rewrite E. repeat split; assumption.
Qed.

Lemma sm4Encrypt_succeeds (data : Js.value) (text key iv : string)
      (input : list Z) :
  plaintext_of data = Some text -> Bytes.utf8ToArray text = inr input ->
  String.length key = 32%nat -> String.length iv = 32%nat ->
  exists ct, sm4Encrypt data key iv = inr ct.
Proof.
  intros HP Hu Hk Hi. rewrite (sm4Encrypt_plaintext data text key iv HP).
  rewrite (sm4_encrypt_bytes text key iv input Hk Hi Hu). eauto.
Qed.

(** The signing and encrypting prefix of a request. *)
Lemma request_prefix (env : Env) (data : Js.value) (text : string)
      (input : list Z) (w : World) :
  Productive env -> (32 <= loop_fuel env)%nat -> sm2_answers env w ->
  plaintext_of data = Some text -> Bytes.utf8ToArray text = inr input ->
  exists aep ka ct w1 w2,
    generateAepHeaders env w = (w1, Return aep) /\
    generateKaHeaders env w1 = (w2, Return ka) /\
    sm4Encrypt data (key ka) (iv ka) = inr ct /\
    String.length (key ka) = 32%nat /\ String.length (iv ka) = 32%nat /\
    network w2 = network w.
Proof.
  intros Hp Hf Hs HP Hu.
  destruct (generateAepHeaders_run env w) as [nonce1 Ea].
  set (w1 := mkWorld _ _ _ _ _) in Ea.
  destruct (generateKaHeaders_run env w1 Hp Hf Hs)
    as (ka & w2 & Ek & (n2 & s2 & n & c & _ & _ & _ & Lk & Li)
        & _ & _ & N2 & _).
  destruct (sm4Encrypt_succeeds data text (key ka) (iv ka) input HP Hu Lk Li)
    as [ct Ec].
  eexists _, ka, ct, w1, w2.
  split; [exact Ea|]. split; [exact Ek|].
  repeat split; assumption.
Qed.

(** The CCTV client's request: the body is encrypted under the key and iv
    of the call and sent with them wrapped; the response is decrypted under
    the same key and iv and parsed, a parse error being thrown. *)
Lemma cctv_request_response (env : Env) (path : string) (data : Js.value)
      (text : string) (input : list Z) (w : World) :
  Productive env -> (32 <= loop_fuel env)%nat -> sm2_answers env w ->
  plaintext_of (Js.default data (Js.VObj [])) = Some text ->
  Bytes.utf8ToArray text = inr input ->
  exists k v c,
    sm4Encrypt (Js.default data (Js.VObj [])) k v = inr (Axios.data c) /\
    network (fst (CctvClient.request env path data w))
    = (network w ++ [c])%list /\
    snd (CctvClient.request env path data w)
    = response_result false env k v (axios env (List.length (network w)) c).
Proof.
  intros Hp Hf Hs HP Hu.
  destruct (request_prefix env _ text input w Hp Hf Hs HP Hu)
    as (aep & ka & ct & w1 & w2 & Ea & Ek & Ec & _ & _ & N).
  unfold CctvClient.request. cbv zeta.
  erewrite bind_Return by exact Ea.
  erewrite bind_Return by exact Ek.
  rewrite Ec, bind_lift_inr.
  set (c := Axios.mkConfig _ _ _ _ _ _).
  exists (key ka), (iv ka), c. split; [exact Ec|].
  unfold bind, send. rewrite N.
  destruct (axios env (List.length (network w)) c) as [e|r];
    [split; reflexivity|].
  cbn [response_result].
  destruct (Axios.body r); try (split; reflexivity).
  destruct (0 <? JsString.len s); [|split; reflexivity].
  destruct (sm4Decrypt s (key ka) (iv ka)) as [e|d]; [split; reflexivity|].
  cbn [lift ret throw].
  destruct (JSON_parse env d); split; reflexivity.
Qed.

(** The API client's request: the same, except that on a parse error the
    decrypted text is returned. *)
Lemma api_request_response (env : Env) (path : string) (data : Js.value)
      (method : option string) (text : string) (input : list Z) (w : World) :
  Productive env -> (32 <= loop_fuel env)%nat -> sm2_answers env w ->
  plaintext_of (Js.default data (Js.VObj [])) = Some text ->
  Bytes.utf8ToArray text = inr input ->
  exists k v c,
    sm4Encrypt (Js.default data (Js.VObj [])) k v = inr (Axios.data c) /\
    snd (ApiClient.request env path data method w)
    = response_result true env k v (axios env (List.length (network w)) c).
Proof.
  intros Hp Hf Hs HP Hu.
  destruct (request_prefix env _ text input w Hp Hf Hs HP Hu)
    as (aep & ka & ct & w1 & w2 & Ea & Ek & Ec & _ & _ & N).
  unfold ApiClient.request. cbv zeta.
  erewrite bind_Return by exact Ea.
  erewrite bind_Return by exact Ek.
  rewrite Ec, bind_lift_inr.
  destruct (console_logs_run 8 w2) as (w3 & E3 & N3 & _).
  erewrite bind_Return by exact E3.
  set (c := Axios.mkConfig _ _ _ _ _ _).
  exists (key ka), (iv ka), c. split; [exact Ec|].
  assert (C : forall e w0, snd (ApiClient.request_catch e w0) = Throw e).
  { intros e w0. unfold ApiClient.request_catch.
    destruct (console_logs_run 2 w0) as (wa & Ea' & _).
    erewrite bind_Return by exact Ea'.
    destruct (Js.response e).
    - destruct (console_logs_run 2 wa) as (wb & Eb & _).
      erewrite bind_Return by exact Eb. reflexivity.
    - reflexivity. }
  unfold try_catch, bind at 1, send. rewrite N3, N.
  destruct (axios env (List.length (network w)) c) as [e|r]; [apply C|].
  set (w4 := mkWorld _ _ _ _ _).
  destruct (console_logs_run 3 w4) as (w5 & E5 & _).
  erewrite bind_Return by exact E5.
  cbn [response_result].
  destruct (Axios.body r); try reflexivity.
  destruct (0 <? JsString.len s); [|reflexivity].
  destruct (sm4Decrypt s (key ka) (iv ka)) as [e|d].
  - rewrite bind_lift_inl. apply C.
  - rewrite bind_lift_inr. erewrite bind_Return by reflexivity.
    unfold try_catch. destruct (JSON_parse env d); reflexivity.
Qed.

(* ================================================================== *)
(** * C5: the response of a request *)
(* ================================================================== *)

(** C5, at the failing input.  The service answers with the encryption of
    the text hello, which is not JSON.  The request of the CCTV client
    decrypts it and throws the parse error; the request of the API client,
    in the same environment, returns the decrypted text. *)
Theorem request_unparsable_response :
  snd (CctvClient.request (answering "hello") "/open/port" port_query initial)
  = Throw Json.syntax_error /\
  snd (ApiClient.request (answering "hello") "/open/port" port_query None
                         initial)
  = Return (Js.VStr "hello").
Proof. vm_compute. split; reflexivity. Qed.

(* ================================================================== *)
(** * The timeout of the network calls *)
(* ================================================================== *)

Lemma issues_bind {A B : Type} (p : Axios.config -> bool) (m : M A)
      (k : A -> M B) :
  issues_with p m -> (forall a, issues_with p (k a)) ->
  issues_with p (bind m k).
Proof.
  intros Hm Hk w. unfold bind. destruct (Hm w) as (l & E & P).
  destruct (m w) as [w' [a|e|]]; cbn [fst] in *; eauto.
  destruct (Hk a w') as (l' & E' & P').
  exists (l ++ l')%list. rewrite E', E, app_assoc, forallb_app, P, P'.
  split; reflexivity.
Qed.

Lemma issues_try_catch {A : Type} (p : Axios.config -> bool) (m : M A)
      (h : Js.Error -> M A) :
  issues_with p m -> (forall e, issues_with p (h e)) ->
  issues_with p (try_catch m h).
Proof.
  intros Hm Hh w. unfold try_catch. destruct (Hm w) as (l & E & P).
  destruct (m w) as [w' [a|e|]]; cbn [fst] in *; eauto.
  destruct (Hh e w') as (l' & E' & P').
  exists (l ++ l')%list. rewrite E', E, app_assoc, forallb_app, P, P'.
  split; reflexivity.
Qed.

Lemma issues_send (env : Env) (p : Axios.config -> bool) (c : Axios.config) :
  p c = true -> issues_with p (send env c).
Proof.
  intros H w. exists [c]. cbn [send fst network List.forallb].
  rewrite H. split; reflexivity.
Qed.

Lemma console_logs_offline (n : nat) : offline (ApiClient.console_logs n).
Proof.
  induction n as [|n IH]; cbn [ApiClient.console_logs];
    [auto with offline|].
  apply offline_bind; [auto with offline | intros _; exact IH].
Qed.

(** Every network call of the CCTV client's [request] has a timeout of
    30000 milliseconds. *)
Lemma cctv_request_timeout (env : Env) (path : string) (data : Js.value) :
  issues_with (timeout_is (Some 30000)) (CctvClient.request env path data).
Proof.
  unfold CctvClient.request. cbv zeta.
  apply issues_bind;
    [apply offline_issues, offline_generateAepHeaders | intros aep].
  apply issues_bind;
    [apply offline_issues, offline_generateKaHeaders | intros ka].
  apply issues_bind; [apply offline_issues; auto with offline | intros ct].
  apply issues_bind; [now apply issues_send | intros r].
  apply offline_issues.
  destruct (Axios.body r); auto with offline.
  destruct (0 <? JsString.len s); auto with offline.
  apply offline_bind; auto with offline.
Qed.

(** So has every network call of the API client's [request]. *)
Lemma api_request_timeout (env : Env) (path : string) (data : Js.value)
      (method : option string) :
  issues_with (timeout_is (Some 30000))
              (ApiClient.request env path data method).
Proof.
  unfold ApiClient.request. cbv zeta.
  apply issues_bind;
    [apply offline_issues, offline_generateAepHeaders | intros aep].
  apply issues_bind;
    [apply offline_issues, offline_generateKaHeaders | intros ka].
  apply issues_bind; [apply offline_issues; auto with offline | intros ct].
  apply issues_bind;
    [apply offline_issues, console_logs_offline | intros _].
  apply issues_try_catch.
  - apply issues_bind; [now apply issues_send | intros r].
    apply offline_issues.
    apply offline_bind; [apply console_logs_offline | intros _].
    destruct (Axios.body r); auto with offline.
    destruct (0 <? JsString.len s); auto with offline.
    apply offline_bind; [auto with offline | intros d].
    apply offline_bind; [auto with offline | intros _].
    apply offline_try_catch; auto with offline.
  - intros e. apply offline_issues. unfold ApiClient.request_catch.
    apply offline_bind; [apply console_logs_offline | intros _].
    apply offline_bind; [|auto with offline].
    destruct (Js.response e);
      [apply console_logs_offline | auto with offline].
Qed.

(** No network call of [downloadFile] has a timeout. *)
Lemma downloadFile_timeout (env : Env) (fileId : Js.value) :
  issues_with (timeout_is None) (ApiClient.downloadFile env fileId).
Proof.
  unfold ApiClient.downloadFile.
  apply issues_bind;
    [apply offline_issues, offline_generateAepHeaders | intros aep].
  apply issues_bind;
    [apply offline_issues, offline_generateKaHeaders | intros ka].
  apply issues_bind; [apply offline_issues; auto with offline | intros ct].
  apply issues_bind; [now apply issues_send | intros r].
  apply offline_issues. auto with offline.
Qed.

(* ================================================================== *)
(** * C8: the timeout of the network calls *)
(* ================================================================== *)

(** C8, at the failing input.  In every environment, no network call of
    [downloadFile] has a timeout, while every network call of either
    [request] has a timeout of 30000 milliseconds.  Against the reference
    service each of the three issues exactly one call: the download without
    a timeout, the two requests with 30000. *)
Theorem downloadFile_has_no_timeout :
  (forall env fileId,
      issues_with (timeout_is None) (ApiClient.downloadFile env fileId)) /\
  (forall env path data method,
      issues_with (timeout_is (Some 30000))
                  (ApiClient.request env path data method)) /\
  (forall env path data,
      issues_with (timeout_is (Some 30000))
                  (CctvClient.request env path data)) /\
  List.map Axios.timeout
           (network (fst (ApiClient.downloadFile Reference.echo
                                                 (Js.VStr "file-1") initial)))
  = [None] /\
  List.map Axios.timeout
           (network (fst (ApiClient.request Reference.echo "/open/port"
                                            port_query None initial)))
  = [Some 30000] /\
  List.map Axios.timeout
           (network (fst (CctvClient.request Reference.echo "/open/port"
                                             port_query initial)))
  = [Some 30000].
Proof.
  split; [exact downloadFile_timeout|].
  split; [exact api_request_timeout|].
  split; [exact cctv_request_timeout|].
  vm_compute. repeat split.
Qed.

(* ================================================================== *)
(** * The envelope of every call *)
(* ================================================================== *)

Lemma issues_such_offline {A : Type} (P : Axios.config -> Prop) (m : M A) :
  offline m -> issues_such P m.
Proof.
  intros H w. exists []. rewrite H, app_nil_r.
  split; [reflexivity | constructor].
Qed.

Lemma issues_such_bind {A B : Type} (P : Axios.config -> Prop)
      (Q : A -> Prop) (m : M A) (k : A -> M B) :
  issues_such P m -> returns_with Q m ->
  (forall a, Q a -> issues_such P (k a)) ->
  issues_such P (bind m k).
Proof.
  intros Hm HQ Hk w. unfold bind. destruct (Hm w) as (l & E & F).
  specialize (HQ w).
  destruct (m w) as [w' [a|e|]]; cbn [fst] in *; eauto.
  destruct (Hk a (HQ w' a eq_refl) w') as (l' & E' & F').
  exists (l ++ l')%list. rewrite E', E, app_assoc.
  split; [reflexivity | now apply Forall_app].
Qed.

Lemma issues_such_try_catch {A : Type} (P : Axios.config -> Prop) (m : M A)
      (h : Js.Error -> M A) :
  issues_such P m -> (forall e, issues_such P (h e)) ->
  issues_such P (try_catch m h).
Proof.
  intros Hm Hh w. unfold try_catch. destruct (Hm w) as (l & E & F).
  destruct (m w) as [w' [a|e|]]; cbn [fst] in *; eauto.
  destruct (Hh e w') as (l' & E' & F').
  exists (l ++ l')%list. rewrite E', E, app_assoc.
  split; [reflexivity | now apply Forall_app].
Qed.

Lemma issues_such_send (env : Env) (P : Axios.config -> Prop)
      (c : Axios.config) :
  P c -> issues_such P (send env c).
Proof.
  intros H w. exists [c]. cbn [send fst network].
  split; [reflexivity | now constructor].
Qed.

Lemma returns_any {A : Type} (m : M A) : returns_with (fun _ => True) m.
Proof. intros w w' a _. exact I. Qed.

Lemma lift_returns {A : Type} (r : Js.Error + A) :
  returns_with (fun a => r = inr a) (lift r).
Proof.
  intros w w' a. destruct r as [e|a']; cbn; intros H;
    [discriminate | now injection H as _ ->].
Qed.

Lemma generateAepHeaders_returns (env : Env) :
  returns_with (fun aep => exists t nonce, aep = aep_headers t nonce)
               (generateAepHeaders env).
Proof.
  intros w w' h H.
  destruct (generateAepHeaders_run env w) as [nonce E].
  rewrite E in H. injection H as _ <-. eauto.
Qed.

Lemma generateKaHeaders_shape (env : Env) :
  returns_with (fun ka => exists t, ka_shape env t ka)
               (generateKaHeaders env).
Proof.
  intros w w' ka H. eexists. exact (generateKaHeaders_returns env w w' ka H).
Qed.

(** The requests and the download up to their network call: the headers of
    both layers are generated, the body is encrypted, and the call is
    issued with the headers of both layers and the fixed ones. *)
Ltac to_the_call :=
  eapply issues_such_bind;
    [apply issues_such_offline, offline_generateAepHeaders
    | apply generateAepHeaders_returns | intros aep (t1 & nonce1 & ->)];
  eapply issues_such_bind;
    [apply issues_such_offline, offline_generateKaHeaders
    | apply generateKaHeaders_shape | intros ka (t2 & Hk)];
  eapply issues_such_bind;
    [apply issues_such_offline; auto with offline
    | apply lift_returns | intros ct Hc].

Lemma offline_cctv_response (env : Env) (ka : KaHeaders)
      (r : Axios.response) :
  offline (match Axios.body r with
           | Js.VStr s =>
               if 0 <? JsString.len s then
                 decryptedData <- lift (sm4Decrypt s (key ka) (iv ka)) ;;
                 lift (JSON_parse env decryptedData)
               else ret (Axios.body r)
           | _ => ret (Axios.body r)
           end).
Proof.
  destruct (Axios.body r); auto with offline.
  destruct (0 <? JsString.len s); auto with offline.
  apply offline_bind; auto with offline.
Qed.

Lemma offline_api_response (env : Env) (ka : KaHeaders)
      (r : Axios.response) :
  offline (_ <- ApiClient.console_logs 3 ;;
           match Axios.body r with
           | Js.VStr s =>
               if 0 <? JsString.len s then
                 decryptedData <- lift (sm4Decrypt s (key ka) (iv ka)) ;;
                 _ <- console_log ;;
                 try_catch (lift (JSON_parse env decryptedData))
                           (fun _ => ret (Js.VStr decryptedData))
               else ret (Axios.body r)
           | _ => ret (Axios.body r)
           end).
Proof.
  apply offline_bind; [apply console_logs_offline | intros _].
  destruct (Axios.body r); auto with offline.
  destruct (0 <? JsString.len s); auto with offline.
  apply offline_bind; [auto with offline | intros d].
  apply offline_bind; [auto with offline | intros _].
  apply offline_try_catch; auto with offline.
Qed.

Lemma offline_request_catch (e : Js.Error) :
  offline (ApiClient.request_catch e).
Proof.
  unfold ApiClient.request_catch.
  apply offline_bind; [apply console_logs_offline | intros _].
  apply offline_bind; [|auto with offline].
  destruct (Js.response e); [apply console_logs_offline | auto with offline].
Qed.

(** Whatever a request or a download makes of its headers and body, the
    calls it issues are those of its one [send]. *)
Lemma envelope_calls (P : Env -> Js.value -> list (string * Js.value) ->
                          Axios.config -> Prop) :
  (forall env data t1 nonce1 t2 ka ct rest m u t r,
      ka_shape env t2 ka ->
      sm4Encrypt data (key ka) (iv ka) = inr ct ->
      rest = request_headers \/ (exists f, rest = download_headers f) ->
      P env data rest
        (Axios.mkConfig m u
           (Js.spread (Js.spread (aep_headers t1 nonce1) (headers ka)) rest)
           ct t r)) ->
  (forall env path data,
      issues_such (P env (Js.default data (Js.VObj [])) request_headers)
                  (CctvClient.request env path data)) /\
  (forall env path data method,
      issues_such (P env (Js.default data (Js.VObj [])) request_headers)
                  (ApiClient.request env path data method)) /\
  (forall env fileId,
      issues_such (P env (Js.VObj []) (download_headers fileId))
                  (ApiClient.downloadFile env fileId)).
Proof.
  intros H. split; [|split].
  - intros env path data. unfold CctvClient.request. cbv zeta.
    to_the_call.
    eapply issues_such_bind; [|apply returns_any|].
    { apply issues_such_send. eapply H; eauto. }
    intros r _. apply issues_such_offline, offline_cctv_response.
  - intros env path data method. unfold ApiClient.request. cbv zeta.
    to_the_call.
    eapply issues_such_bind;
      [apply issues_such_offline, console_logs_offline
      | apply returns_any | intros _ _].
    apply issues_such_try_catch.
    + eapply issues_such_bind; [|apply returns_any|].
      { apply issues_such_send. eapply H; eauto. }
      intros r _. apply issues_such_offline, offline_api_response.
    + intros e. apply issues_such_offline, offline_request_catch.
  - intros env fileId. unfold ApiClient.downloadFile.
    eapply issues_such_bind;
      [apply issues_such_offline, offline_generateAepHeaders
      | apply generateAepHeaders_returns | intros aep (t1 & nonce1 & ->)].
    eapply issues_such_bind;
      [apply issues_such_offline, offline_generateKaHeaders
      | apply generateKaHeaders_shape | intros ka (t2 & Hk)].
    eapply issues_such_bind;
      [apply issues_such_offline; auto with offline
      | apply lift_returns | intros ct Hc].
    eapply issues_such_bind; [|apply returns_any|].
    { apply issues_such_send. eapply H; eauto.
      right. eexists. reflexivity. }
    intros r _. apply issues_such_offline. auto with offline.
Qed.

Lemma body_text_plaintext (data : Js.value) :
  plaintext_of (Js.default data (Js.VObj [])) = Some (body_text data).
Proof. unfold body_text. destruct data; reflexivity. Qed.

Lemma signed_call (env : Env) (t1 t2 : Z) (nonce1 : string)
      (ka : KaHeaders) (rest : list (string * Js.value)) (m u d : string)
      (t : option Z) (r : option string) :
  ka_shape env t2 ka ->
  rest = request_headers \/ (exists f, rest = download_headers f) ->
  signed (Axios.mkConfig m u
            (Js.spread (Js.spread (aep_headers t1 nonce1) (headers ka)) rest)
            d t r).
Proof.
  intros (nonce2 & signature & n & c & Hh & Hs & _) Hr.
  unfold signed. cbn [Axios.headers]. rewrite Hh.
  split; [destruct Hr as [-> | [f ->]]; reflexivity|].
  exists t1, t2, nonce1, nonce2, signature. cbn [Axios.headers].
  destruct Hr as [-> | [f ->]]; repeat split; try reflexivity; exact Hs.
Qed.

Lemma carries_call (env : Env) (t1 t2 : Z) (nonce1 : string)
      (ka : KaHeaders) (rest : list (string * Js.value)) (data : Js.value)
      (text ct m u : string) (t : option Z) (r : option string) :
  ka_shape env t2 ka ->
  rest = request_headers \/ (exists f, rest = download_headers f) ->
  sm4Encrypt data (key ka) (iv ka) = inr ct ->
  plaintext_of data = Some text -> convertible text = true ->
  carries env text
    (Axios.mkConfig m u
       (Js.spread (Js.spread (aep_headers t1 nonce1) (headers ka)) rest)
       ct t r).
Proof.
  intros (nonce2 & signature & n & c & Hh & _ & Hs & Lk & Li) Hr Hc HP Hv.
  exists (key ka), (iv ka), n, c.
  split; [exact Lk|]. split; [exact Li|]. split; [exact Hs|].
  cbn [Axios.headers Axios.data]. rewrite Hh.
  split; [destruct Hr as [-> | [f ->]]; reflexivity|].
  destruct (sm4_library_round_trip text (key ka) (iv ka) Lk Li Hv)
    as (ct' & He & Hd).
  rewrite (sm4Encrypt_plaintext data text _ _ HP), He in Hc.
  injection Hc as <-.
  split; [|exact Hd].
  now rewrite (sm4Encrypt_plaintext (Js.VStr text) text _ _ eq_refl).
Qed.

(** X8.  Every network call that [request] (of either client) and
    [downloadFile] issue is signed in both layers: it carries the
    application key, an outer timestamp and nonce with the outer signature
    of exactly that timestamp and nonce, and an inner timestamp and nonce
    with the inner signature of exactly that timestamp and nonce. *)
Theorem calls_are_signed :
  (forall env path data,
      issues_such signed (CctvClient.request env path data)) /\
  (forall env path data method,
      issues_such signed (ApiClient.request env path data method)) /\
  (forall env fileId,
      issues_such signed (ApiClient.downloadFile env fileId)).
Proof.
  apply (envelope_calls (fun _ _ _ c => signed c)).
  intros env data t1 nonce1 t2 ka ct rest m u t r Hk _ Hr.
  now apply (signed_call env t1 t2).
Qed.


(** Against the service that echoes, the request of the port list issues
    one call, and it carries the text of the query. *)
Example port_query_is_carried :
  body_text port_query
  = "{" ++ Js.quote "pageNum" ++ ":1," ++ Js.quote "pageSize" ++ ":20}" /\
  convertible (body_text port_query) = true /\
  List.length
    (network (fst (CctvClient.request Reference.echo "/open/port" port_query
                                      initial))) = 1%nat.
Proof. vm_compute. repeat split. Qed.

(* ================================================================== *)
(** * The outcome of a request *)
(* ================================================================== *)

Lemma network_try_catch {A : Type} (m : M A) (h : Js.Error -> M A)
      (w : World) (l : list Axios.config) :
  network (fst (m w)) = l -> (forall e, offline (h e)) ->
  network (fst (try_catch m h w)) = l.
Proof.
  unfold try_catch. intros H Hh.
  destruct (m w) as [w' [a|e|]]; cbn [fst] in *; try exact H.
  now rewrite (Hh e w').
Qed.

Lemma network_send_then {A : Type} (env : Env) (c : Axios.config)
      (k : Axios.response -> M A) (w : World) :
  (forall r, offline (k r)) ->
  network (fst (bind (send env c) k w)) = (network w ++ [c])%list.
Proof.
  intros Hk. unfold bind, send.
  destruct (axios env (List.length (network w)) c) as [e|r];
    [reflexivity|].
  now rewrite (Hk r _).
Qed.

Lemma request_catch_throws (e : Js.Error) (w : World) :
  snd (ApiClient.request_catch e w) = Throw e /\
  network (fst (ApiClient.request_catch e w)) = network w.
Proof.
  unfold ApiClient.request_catch.
  destruct (console_logs_run 2 w) as (wa & Ea & Na & _).
  erewrite bind_Return by exact Ea.
  destruct (Js.response e).
  - destruct (console_logs_run 2 wa) as (wb & Eb & Nb & _).
    erewrite bind_Return by exact Eb. cbn. split; congruence.
  - cbn. split; congruence.
Qed.



(* ================================================================== *)
(** * C10: the list of ports *)
(* ================================================================== *)

(** C10, at the failing input.  The service answers with the object whose
    [rows] is the number 5: the call succeeds and [getPortList] returns 5,
    which is not an array; [getAllPortsCCTV], which iterates over what
    [getPortList] returns, throws a [TypeError]. *)
Theorem getPortList_returns_non_array :
  snd (CctvClient.getPortList
         (answering ("{" ++ Js.quote "rows" ++ ":5}")) initial)
  = Return (Js.VNum 5) /\
  Js.isArray (Js.VNum 5) = false /\
  match snd (CctvClient.getAllPortsCCTV
               (answering ("{" ++ Js.quote "rows" ++ ":5}")) initial) with
  | Throw e => Js.name e = "TypeError"
  | _ => False
  end.
Proof. vm_compute. repeat split. Qed.

(** X3.  When the request of [getPortList] returns a result other than
    null or undefined, [getPortList] returns the [rows] of the result when
    that value is truthy, and the empty array otherwise (rows absent, or
    present and falsy).  The value returned is an array whenever [rows] is
    falsy or is an array. *)
Theorem getPortList_rows (env : Env) (w w1 : World) (result : Js.value) :
  CctvClient.request env "/open/port" port_query w = (w1, Return result) ->
  Js.nullish result = false ->
  CctvClient.getPortList env w =
  (w1, Return (if Js.truthy (Js.prop result "rows")
               then Js.prop result "rows" else Js.VArr [])) /\
  (Js.truthy (Js.prop result "rows") = false \/
   Js.isArray (Js.prop result "rows") = true ->
   exists items, CctvClient.getPortList env w = (w1, Return (Js.VArr items))).
Proof.
  intros Hr Hn.
  assert (E : CctvClient.getPortList env w =
              (w1, Return (if Js.truthy (Js.prop result "rows")
                           then Js.prop result "rows" else Js.VArr []))).
  { unfold CctvClient.getPortList. fold port_query.
    erewrite bind_Return by exact Hr.
    unfold Js.get. rewrite Hn. reflexivity. }
  split; [exact E|].
  intros [Hf|Ha]; rewrite E.
  - rewrite Hf. eauto.
  - destruct (Js.prop result "rows"); try discriminate Ha.
    cbn [Js.truthy]. eauto.
Qed.

Lemma getPortList_rows_witness :
  CctvClient.getPortList (answering one_port_text) initial =
  (fst (CctvClient.request (answering one_port_text) "/open/port"
                           port_query initial),
   Return (Js.VArr [Js.VObj [("id", Js.VNum 7)]])) /\
  exists items,
    CctvClient.getPortList (answering one_port_text) initial =
    (fst (CctvClient.request (answering one_port_text) "/open/port"
                             port_query initial),
     Return (Js.VArr items)).
Proof.
  refine (let H := getPortList_rows (answering one_port_text) initial _
                     (Js.VObj [("rows", Js.VArr [Js.VObj [("id", Js.VNum 7)]])])
                     _ _ in
          conj (proj1 H) (proj2 H (or_intror eq_refl))).
  - vm_compute. reflexivity.
  - reflexivity.
Defined.

(* ================================================================== *)
(** * C9: one failing item and its siblings *)
(* ================================================================== *)

(** C9, at the failing input.  The service answers every request.
    - The second of the three cameras of a port is null.  In
      [getPortCCTVImages] the picture of the first camera is requested;
      for the second, reading its code throws inside the [try] and reading
      its name throws again inside the [catch]: the error leaves the loop,
      the third camera is never requested (one call was issued in all) and
      no entry is returned, not even the first.
    - The first of the two ports of the list is null.  In
      [getAllPortsCCTV] reading its name, before the [try], throws: the
      error leaves the loop after the one call that fetched the list, and
      the second port is never visited. *)
Theorem batch_aborted_by_null_item :
  Js.prop NullItem.port "entryAndExitJson"
  = Js.VStr ("[" ++ Scenario.text_of (Scenario.camera "north" "01" "1")
                 ++ ",null,"
                 ++ Scenario.text_of (Scenario.camera "east" "03" "1")
                 ++ "]") /\
  match CctvClient.getPortCCTVImages NullItem.env NullItem.port initial with
  | (w, Throw e) =>
      Js.name e = "TypeError" /\
      Js.message e = "Cannot read properties of null (reading 'name')" /\
      List.length (network w) = 1%nat
  | _ => False
  end /\
  match CctvClient.getAllPortsCCTV NullItem.env initial with
  | (w, Throw e) =>
      Js.name e = "TypeError" /\
      Js.message e = "Cannot read properties of null (reading 'portName')" /\
      List.length (network w) = 1%nat
  | _ => False
  end.
Proof. vm_compute. repeat split. Qed.

(* ================================================================== *)
(** * Batches: one entry per item *)
(* ================================================================== *)

Lemma present_get (item : Js.value) (k : string) :
  present item = true -> Js.get item k = inr (Js.prop item k).
Proof.
  unfold present. intros H. apply get_non_nullish.
  now destruct (Js.nullish item).
Qed.

(** An environment whose draws all contribute, with fuel for the two
    strings of 32 characters, settles every request. *)
Lemma Productive_settles (env : Env) :
  Productive env -> (32 <= loop_fuel env)%nat -> settles env.
Proof.
  intros Hp Hf path data. now apply terminates_cctv_request.
Qed.

Section Batch.

Variable env : Env.
Hypothesis env_settles : settles env.

(** One camera: whatever its request does, return or throw, the [try]
    statement returns an entry recorded from that outcome, in the world the
    request left. *)
Lemma camera_step (port camera : Js.value) (w : World) :
  present camera = true ->
  exists entry,
    try_catch (CctvClient.camera_try env port camera)
              (CctvClient.camera_catch camera) w
    = (fst (picture env port camera w), Return entry) /\
    camera_entry camera (snd (picture env port camera w)) entry.
Proof.
  intros Hn.
  pose proof (env_settles "/open/port/getPortMonitorPic"
                (Js.VObj [("portId", Js.prop port "id");
                          ("code", Js.prop camera "code");
                          ("type", Js.prop camera "type")]) w) as T.
  unfold try_catch, CctvClient.camera_try, CctvClient.camera_catch,
    picture, CctvClient.getMonitorPic in *.
  rewrite !(present_get camera _ Hn).
  rewrite !bind_lift_inr.
  destruct (CctvClient.request env "/open/port/getPortMonitorPic" _ w)
    as [w1 [pic|e|]] eqn:E; cbn [snd fst] in *.
  - erewrite bind_Return by exact E. rewrite bind_lift_inr.
    unfold camera_entry.
    destruct (Js.get pic "data") as [e|data] eqn:D.
    + rewrite bind_lift_inl, !bind_lift_inr.
      eexists. split; [reflexivity|]. repeat split.
    + rewrite bind_lift_inr.
      eexists. split; [reflexivity|]. repeat split.
  - erewrite bind_Throw by exact E. rewrite !bind_lift_inr.
    eexists. split; [reflexivity|]. repeat split.
  - now elim T.
Qed.

(** The camera loop returns one entry per camera, in order. *)
Lemma camera_loop_visits (port : Js.value) (items acc : list Js.value)
      (w : World) :
  List.forallb present items = true ->
  exists w' cameras,
    CctvClient.camera_loop env port items acc w
    = (w', Return (acc ++ cameras)%list) /\
    visited (picture env port) camera_entry w items cameras w'.
Proof.
  revert acc w.
  induction items as [|camera items IH]; intros acc w H.
  - exists w, []. rewrite app_nil_r. split; [reflexivity | constructor].
  - cbn [List.forallb] in H. apply andb_true_iff in H as [Hc Hi].
    cbn [CctvClient.camera_loop].
    destruct (camera_step port camera w Hc) as (entry & E & R).
    erewrite bind_Return by exact E.
    destruct (IH (acc ++ [entry])%list (fst (picture env port camera w)) Hi)
      as (w' & cameras & E' & R').
    exists w', (entry :: cameras). rewrite E', <- app_assoc.
    split; [reflexivity | now constructor].
Qed.

Lemma entryAndExitList_run (port : Js.value) (items : list Js.value)
      (w : World) :
  camera_list env port items ->
  CctvClient.entryAndExitList env port w = (w, Return (Js.VArr items)).
Proof.
  unfold CctvClient.entryAndExitList.
  intros [->|(s & -> & E)]; [reflexivity|].
  unfold try_catch. now rewrite E.
Qed.

Lemma terminates_camera_loop (port : Js.value) (items acc : list Js.value) :
  terminates (CctvClient.camera_loop env port items acc).
Proof.
  revert acc. induction items as [|camera items IH]; intros acc;
    cbn [CctvClient.camera_loop]; [auto with term|].
  apply terminates_bind; [|intros entry; apply IH].
  apply terminates_try_catch.
  - unfold CctvClient.camera_try, CctvClient.getMonitorPic.
    apply terminates_bind; [auto with term | intros code].
    apply terminates_bind; [auto with term | intros type].
    apply terminates_bind; [apply env_settles | intros pic].
    apply terminates_bind; [auto with term | intros name].
    apply terminates_bind; [auto with term | intros data].
    auto with term.
  - intros e. unfold CctvClient.camera_catch.
    repeat (apply terminates_bind; [auto with term | intros ?]).
    auto with term.
Qed.

Lemma terminates_getPortCCTVImages (port : Js.value) :
  terminates (CctvClient.getPortCCTVImages env port).
Proof.
  unfold CctvClient.getPortCCTVImages.
  destruct (negb (Js.truthy port)); [auto with term|].
  apply terminates_bind.
  - unfold CctvClient.entryAndExitList.
    destruct (Js.prop port "entryAndExitJson"); auto with term.
    apply terminates_try_catch; auto with term.
  - intros l. apply terminates_bind; [auto with term | intros items].
    apply terminates_bind; [apply terminates_camera_loop | intros cameras].
    auto with term.
Qed.

(** One port: whatever the collection of its pictures does, return or
    throw, the iteration returns an entry recorded from that outcome, in the
    world the collection left. *)
Lemma port_step (port : Js.value) (w : World) :
  announceable port = true ->
  exists entry,
    (portName <- lift (Js.get port "portName") ;;
     _ <- lift (Js.toString portName) ;;
     _ <- console_log ;;
     try_catch (CctvClient.getPortCCTVImages env port)
               (CctvClient.port_catch port)) w
    = (fst (collection env port w), Return entry) /\
    port_entry port (snd (collection env port w)) entry.
Proof.
  unfold announceable. intros H. apply andb_true_iff in H as [Hn Hs].
  rewrite (present_get port _ Hn), bind_lift_inr.
  destruct (Js.toString (Js.prop port "portName")) as [e|s];
    [discriminate|].
  rewrite bind_lift_inr.
  unfold collection.
  erewrite !bind_Return by reflexivity.
  set (w0 := mkWorld _ _ _ _ _).
  pose proof (terminates_getPortCCTVImages port w0) as T.
  unfold try_catch.
  destruct (CctvClient.getPortCCTVImages env port w0) as [w1 [v|e|]] eqn:E;
    cbn [snd fst] in *.
  - exists v. split; reflexivity.
  - unfold CctvClient.port_catch.
    rewrite !(present_get port _ Hn), !bind_lift_inr.
    eexists. split; [reflexivity|]. repeat split.
  - now elim T.
Qed.

(** The port loop returns one entry per port, in order. *)
Lemma port_loop_visits (ports acc : list Js.value) (w : World) :
  List.forallb announceable ports = true ->
  exists w' results,
    CctvClient.port_loop env ports acc w = (w', Return (acc ++ results)%list) /\
    visited (collection env) port_entry w ports results w'.
Proof.
  revert acc w.
  induction ports as [|port ports IH]; intros acc w H.
  - exists w, []. rewrite app_nil_r. split; [reflexivity | constructor].
  - cbn [List.forallb] in H. apply andb_true_iff in H as [Hp Hi].
    destruct (port_step port w Hp) as (entry & E & R).
    destruct (IH (acc ++ [entry])%list (fst (collection env port w)) Hi)
      as (w' & results & E' & R').
    exists w', (entry :: results).
    split; [|now constructor].
    replace (acc ++ entry :: results)%list
      with ((acc ++ [entry]) ++ results)%list by now rewrite <- app_assoc.
    rewrite <- E'. cbn [CctvClient.port_loop].
    unfold bind in E |- *.
    destruct (lift (Js.get port "portName") w) as [w1 [n|e|]];
      try discriminate E.
    destruct (lift (Js.toString n) w1) as [w2 [t|e|]]; try discriminate E.
    destruct (console_log w2) as [w3 [u|e|]]; try discriminate E.
    rewrite E. reflexivity.
Qed.


Lemma visited_length {A : Type} (run : Js.value -> M A)
      (recorded : Js.value -> outcome A -> Js.value -> Prop)
      (w w' : World) (items entries : list Js.value) :
  visited run recorded w items entries w' ->
  List.length entries = List.length items.
Proof.
  induction 1; cbn [List.length]; [reflexivity | now f_equal].
Qed.

(** X5.  When every request settles (returns or throws) and no camera of
    the list is null or undefined, [getPortCCTVImages] on a port returns
    the summary of the port with one entry per camera, in the order of the
    list.  Each camera is requested in the world the previous ones left,
    and its entry is recorded from the outcome of its own request: the
    picture when the request returned a result, the message of the error
    when it threw.  No failure of a request prevents the entries of the
    other cameras. *)
Theorem getPortCCTVImages_isolates (port : Js.value)
        (items : list Js.value) (w : World) :
  Js.truthy port = true ->
  camera_list env port items ->
  List.forallb present items = true ->
  exists w' cameras,
    CctvClient.getPortCCTVImages env port w
    = (w',
       Return (Js.VObj
                 [ ("portId", Js.prop port "id");
                   ("portName", Js.prop port "portName");
                   ("smoothness", Js.prop port "smoothness");
                   ("exit", Js.prop port "exit");
                   ("entry", Js.prop port "entry");
                   ("exitClearanceTime", Js.prop port "exitClearanceTime");
                   ("entryClearanceTime", Js.prop port "entryClearanceTime");
                   ("cameras", Js.VArr cameras) ])) /\
    List.length cameras = List.length items /\
    visited (picture env port) camera_entry w items cameras w'.
Proof.
  intros Ht Hl Hi.
  pose proof (entryAndExitList_run port items w Hl) as El.
  destruct (camera_loop_visits port items [] w Hi) as (w' & cameras & E & R).
  exists w', cameras.
  split; [|split; [exact (visited_length _ _ _ _ _ _ R) | exact R]].
  unfold CctvClient.getPortCCTVImages. rewrite Ht. cbn [negb].
  erewrite bind_Return by exact El.
  cbn [Js.iterate]. rewrite bind_lift_inr.
  erewrite bind_Return by exact E. reflexivity.
Qed.

(** X6.  When every request settles, the list of ports was fetched and
    every port of it can be announced (it is neither null nor undefined,
    and its name has a text), [getAllPortsCCTV] returns an array with one
    entry per port, in the order of the list.  The pictures of each port
    are collected in the world the previous ports left, and its entry is
    recorded from the outcome of its own collection: the summary when it
    returned; the id and the name of the port, the message of the error
    and no camera when it threw. *)
Theorem getAllPortsCCTV_isolates (ports : list Js.value) (w w0 : World) :
  CctvClient.getPortList env w = (w0, Return (Js.VArr ports)) ->
  List.forallb announceable ports = true ->
  exists w' results,
    CctvClient.getAllPortsCCTV env w = (w', Return (Js.VArr results)) /\
    List.length results = List.length ports /\
    visited (collection env) port_entry w0 ports results w'.
Proof.
  intros Hl Hp.
  destruct (port_loop_visits ports [] w0 Hp) as (w' & results & E & R).
  exists w', results.
  split; [|split; [exact (visited_length _ _ _ _ _ _ R) | exact R]].
  unfold CctvClient.getAllPortsCCTV.
  erewrite bind_Return by exact Hl.
  cbn [Js.iterate]. rewrite bind_lift_inr.
  erewrite bind_Return by exact E. reflexivity.
Qed.

End Batch.

Lemma Scenario_settles : settles Scenario.env.
Proof.
  apply Productive_settles; [apply Reference_productive|].
  vm_compute. lia.
Qed.

Lemma getPortCCTVImages_isolates_witness :
  exists w' cameras,
    CctvClient.getPortCCTVImages Scenario.env Scenario.port initial
    = (w',
       Return (Js.VObj
                 [ ("portId", Js.prop Scenario.port "id");
                   ("portName", Js.prop Scenario.port "portName");
                   ("smoothness", Js.prop Scenario.port "smoothness");
                   ("exit", Js.prop Scenario.port "exit");
                   ("entry", Js.prop Scenario.port "entry");
                   ("exitClearanceTime",
                    Js.prop Scenario.port "exitClearanceTime");
                   ("entryClearanceTime",
                    Js.prop Scenario.port "entryClearanceTime");
                   ("cameras", Js.VArr cameras) ])) /\
    List.length cameras = List.length Scenario.cameras /\
    visited (picture Scenario.env Scenario.port) camera_entry initial
            Scenario.cameras cameras w'.
Proof.
  apply (getPortCCTVImages_isolates Scenario.env Scenario_settles
           Scenario.port Scenario.cameras initial).
  - reflexivity.
  - right. eexists. split; [reflexivity|]. vm_compute. reflexivity.
  - reflexivity.
Defined.

Lemma getAllPortsCCTV_isolates_witness :
  exists w' results,
    CctvClient.getAllPortsCCTV Scenario.env initial
    = (w', Return (Js.VArr results)) /\
    List.length results = 1%nat /\
    visited (collection Scenario.env) port_entry
            (fst (CctvClient.getPortList Scenario.env initial))
            [Scenario.port] results w'.
Proof.
  apply (getAllPortsCCTV_isolates Scenario.env Scenario_settles
           [Scenario.port] initial).
  - vm_compute. reflexivity.
  - reflexivity.
Defined.


(** The batch of the scenario, evaluated: three cameras, the second request
    fails; the result has three entries, the second with the error. *)
Example batch_with_one_timeout :
  match snd (CctvClient.getAllPortsCCTV Scenario.env initial) with
  | Return (Js.VArr [entry]) =>
      match Js.prop entry "cameras" with
      | Js.VArr cameras =>
          List.map (fun c => (Js.prop c "code", Js.prop c "imageUrl",
                              Js.prop c "error")) cameras
      | _ => []
      end
  | _ => []
  end =
  [ (Js.VStr "01", Js.VStr "http://pic/1", Js.VUndefined);
    (Js.VStr "02", Js.VNull, Js.VStr "timeout of 30000ms exceeded");
    (Js.VStr "03", Js.VStr "http://pic/1", Js.VUndefined) ] /\
  List.length (network (fst (CctvClient.getAllPortsCCTV Scenario.env initial)))
  = 4%nat.
Proof. vm_compute. split; reflexivity. Qed.

(* ================================================================== *)
(** * Ports without cameras *)
(* ================================================================== *)

(** X12.  [getPortCCTVImages] without a camera to visit.  A falsy port
    (null, undefined, 0, false, the empty string) is refused with an error,
    before anything is read.  For a truthy port whose [entryAndExitJson] is
    a text that does not parse, or is neither a text nor an array, the
    list of cameras is taken as empty: the summary of the port is returned
    with no camera.  In all these cases no request is made: the state is
    left as it was. *)
Theorem getPortCCTVImages_without_cameras (env : Env) (port : Js.value)
        (w : World) :
  (Js.truthy port = false ->
   CctvClient.getPortCCTVImages env port w
   = (w, Throw (Js.mkError "Error" text_port_required None))) /\
  (Js.truthy port = true ->
   (forall s e, Js.prop port "entryAndExitJson" = Js.VStr s ->
                JSON_parse env s = inl e ->
                CctvClient.getPortCCTVImages env port w
                = (w, Return (port_summary port []))) /\
   (String.eqb (Js.typeof (Js.prop port "entryAndExitJson")) "string"
    = false ->
    Js.isArray (Js.prop port "entryAndExitJson") = false ->
    CctvClient.getPortCCTVImages env port w
    = (w, Return (port_summary port [])))).
Proof.
  unfold CctvClient.getPortCCTVImages, CctvClient.entryAndExitList.
  split; [intros ->; reflexivity|].
  intros ->. cbn [negb]. split.
  - intros s e -> E. unfold try_catch, bind, lift. rewrite E. reflexivity.
  - intros Hs Ha.
    destruct (Js.prop port "entryAndExitJson");
      try discriminate Hs; try discriminate Ha; reflexivity.
Qed.

(** A port whose list of cameras is the text of an object, against a
    service that would answer: nothing is requested. *)
Example port_with_unreadable_cameras :
  let port := Js.VObj [("id", Js.VNum 7); ("portName", Js.VStr "Futian");
                       ("entryAndExitJson", Js.VStr "{oops")] in
  CctvClient.getPortCCTVImages Scenario.env port initial
  = (initial, Return (port_summary port [])) /\
  CctvClient.getPortCCTVImages Scenario.env Js.VNull initial
  = (initial, Throw (Js.mkError "Error" text_port_required None)).
Proof. vm_compute. split; reflexivity. Qed.

(* ================================================================== *)
(** * Clearing the application ids *)
(* ================================================================== *)

(** Induction on a value, with the hypothesis for every element of an array
    and for every property of an object. *)
Lemma value_induction (P : Js.value -> Prop) :
  P Js.VUndefined -> P Js.VNull -> (forall b, P (Js.VBool b)) ->
  (forall n, P (Js.VNum n)) -> (forall s, P (Js.VStr s)) ->
  (forall items, Forall P items -> P (Js.VArr items)) ->
  (forall props, Forall (fun kv => P (snd kv)) props -> P (Js.VObj props)) ->
  forall v, P v.
Proof.
  intros Hu Hn Hb Hz Hs Ha Ho.
  fix IH 1. intros [| |b|n|s|items|props].
  - exact Hu.
  - exact Hn.
  - apply Hb.
  - apply Hz.
  - apply Hs.
  - apply Ha. induction items as [|x items IHl]; constructor;
      [apply IH | exact IHl].
  - apply Ho. induction props as [|[k x] props IHl]; constructor;
      [apply IH | exact IHl].
Qed.

Lemma lookup_set_same (k : string) (v : Js.value)
      (props : list (string * Js.value)) :
  Js.lookup k (Js.set k v props) = Some v.
Proof.
  induction props as [|[k' v'] props IH]; cbn [Js.set Js.lookup].
  - now rewrite String.eqb_refl.
  - destruct (String.eqb k k') eqn:E; cbn [Js.lookup]; rewrite ?E;
      [now rewrite String.eqb_refl | exact IH].
Qed.

Lemma lookup_set_other (k k' : string) (v : Js.value)
      (props : list (string * Js.value)) :
  String.eqb k' k = false ->
  Js.lookup k' (Js.set k v props) = Js.lookup k' props.
Proof.
  intros N. induction props as [|[k0 v0] props IH]; cbn [Js.set Js.lookup].
  - now rewrite N.
  - destruct (String.eqb k k0) eqn:E; cbn [Js.lookup].
    + apply String.eqb_eq in E. subst k0. now rewrite N.
    + now rewrite IH.
Qed.

Lemma keys_set (k : string) (v : Js.value)
      (props : list (string * Js.value)) :
  Js.lookup k props <> None ->
  List.map fst (Js.set k v props) = List.map fst props.
Proof.
  induction props as [|[k0 v0] props IH]; cbn [Js.set Js.lookup];
    [congruence|].
  destruct (String.eqb k k0) eqn:E; cbn [List.map fst].
  - apply String.eqb_eq in E. now subst k0.
  - intros H. now rewrite IH.
Qed.

Lemma lookup_map (f : Js.value -> Js.value) (k : string)
      (props : list (string * Js.value)) :
  Js.lookup k (List.map (fun kv => (fst kv, f (snd kv))) props)
  = option_map f (Js.lookup k props).
Proof.
  induction props as [|[k0 v0] props IH]; cbn [List.map Js.lookup fst snd];
    [reflexivity|].
  destruct (String.eqb k k0); [reflexivity | exact IH].
Qed.

(** What is inside the properties after a write: the value written, or what
    was inside before. *)
Lemma in_set (k : string) (v : Js.value) (props : list (string * Js.value))
      (k' : string) (x : Js.value) :
  In (k', x) (Js.set k v props) -> (k', x) = (k, v) \/ In (k', x) props.
Proof.
  induction props as [|[k0 v0] props IH]; cbn [Js.set In].
  - intros [H|[]]. now left.
  - destruct (String.eqb k k0); cbn [In].
    + intros [H|H]; [now left | now right; right].
    + intros [H|H]; [now right; left|].
      destruct (IH H) as [H'|H']; [now left | now right; right].
Qed.

(** The properties of the object [clearAppId] makes of an object. *)
Lemma clearAppId_object (props : list (string * Js.value)) :
  exists props',
    ApiClient.clearAppId (Js.VObj props) = Js.VObj props' /\
    List.map fst props' = List.map fst props /\
    (forall x, Js.lookup "appId" props' = Some x -> x = Js.VStr "") /\
    (forall k, String.eqb k "appId" = false ->
               Js.lookup k props'
               = option_map ApiClient.clearAppId (Js.lookup k props)) /\
    (forall k x, In (k, x) props' ->
                 x = Js.VStr "" \/
                 exists y, In (k, y) props /\ x = ApiClient.clearAppId y).
Proof.
  cbn [ApiClient.clearAppId].
  set (values := List.map (fun kv => (fst kv, ApiClient.clearAppId (snd kv))) props).
  assert (K : List.map fst values = List.map fst props).
  { unfold values. rewrite List.map_map. reflexivity. }
  assert (I : forall k x, In (k, x) values ->
                          exists y, In (k, y) props /\ x = ApiClient.clearAppId y).
  { unfold values. intros k x H. apply List.in_map_iff in H.
    destruct H as ([k0 y] & [= <- <-] & H). eauto. }
  assert (L : forall k, Js.lookup k values
                        = option_map ApiClient.clearAppId (Js.lookup k props))
    by (intros k; apply lookup_map).
  destruct (Js.lookup "appId" props) as [a|] eqn:E.
  - eexists. split; [reflexivity|]. repeat split.
    + rewrite keys_set; [exact K|]. rewrite L, E. discriminate.
    + intros x. rewrite lookup_set_same. now intros [= <-].
    + intros k N. rewrite lookup_set_other by exact N. apply L.
    + intros k x H. apply in_set in H as [[= -> ->]|H]; [now left|].
      right. now apply I.
  - eexists. split; [reflexivity|]. repeat split.
    + exact K.
    + intros x. rewrite L, E. discriminate.
    + intros k N. apply L.
    + intros k x H. right. now apply I.
Qed.

(** Nothing is done on a value that is neither an array nor an object. *)
Lemma clearAppId_primitive (v : Js.value) :
  String.eqb (Js.typeof v) "object" = false -> ApiClient.clearAppId v = v.
Proof. destruct v; cbn; intros H; try reflexivity; discriminate H. Qed.

Lemma cleared_inside (v o : Js.value) :
  inside (ApiClient.clearAppId v) o ->
  if owns o "appId" then Js.prop o "appId" = Js.VStr ""
  else Js.prop o "appId" = Js.VUndefined.
Proof.
  revert o.
  induction v as [| |b|n|s|items IH|props IH] using value_induction;
    intros o H.
  1-5: inversion H; subst; reflexivity.
  - cbn [ApiClient.clearAppId] in H.
    inversion H as [v0|items0 x0 o0 Hin Hins|props0 k0 x0 o0 Hin Hins];
      subst; [reflexivity|].
    apply List.in_map_iff in Hin as (y & <- & Hy).
    rewrite Forall_forall in IH. exact (IH y Hy o Hins).
  - destruct (clearAppId_object props) as (props' & E & _ & La & _ & I).
    rewrite E in H.
    inversion H as [v0|items0 x0 o0 Hin Hins|props0 k0 x0 o0 Hin Hins];
      subst.
    + cbn [owns Js.prop].
      destruct (Js.lookup "appId" props') as [x|] eqn:Lx;
        [now apply La | reflexivity].
    + destruct (I k0 x0 Hin) as [->|(y & Hy & ->)].
      * inversion Hins; subst. reflexivity.
      * rewrite Forall_forall in IH. exact (IH (k0, y) Hy o Hins).
Qed.

Lemma clearAppId_idempotent (v : Js.value) :
  ApiClient.clearAppId (ApiClient.clearAppId v) = ApiClient.clearAppId v.
Proof.
  induction v as [| |b|n|s|items IH|props IH] using value_induction;
    try reflexivity.
  - cbn [ApiClient.clearAppId]. f_equal. rewrite List.map_map.
    apply List.map_ext_in. intros x Hx.
    rewrite Forall_forall in IH. now apply IH.
  - cbn [ApiClient.clearAppId].
    set (f := fun kv : string * Js.value => (fst kv, ApiClient.clearAppId (snd kv))).
    assert (M : List.map f (List.map f props) = List.map f props).
    { rewrite List.map_map. apply List.map_ext_in.
      intros [k x] Hx. rewrite Forall_forall in IH. unfold f. cbn [fst snd].
      f_equal. exact (IH (k, x) Hx). }
    assert (S : forall l : list (string * Js.value),
               List.map f (Js.set "appId" (Js.VStr "") l)
               = Js.set "appId" (Js.VStr "") (List.map f l)).
    { induction l as [|[k x] l IHl]; cbn [Js.set List.map]; [reflexivity|].
      unfold f at 2. cbn [fst snd].
      destruct (String.eqb "appId" k); cbn [List.map]; [reflexivity|].
      now rewrite IHl. }
    assert (T : forall l : list (string * Js.value),
               Js.set "appId" (Js.VStr "") (Js.set "appId" (Js.VStr "") l)
               = Js.set "appId" (Js.VStr "") l).
    { induction l as [|[k x] l IHl]; cbn [Js.set].
      - now rewrite String.eqb_refl.
      - destruct (String.eqb "appId" k) eqn:E; cbn [Js.set].
        + now rewrite String.eqb_refl.
        + now rewrite E, IHl. }
    destruct (Js.lookup "appId" props) as [a|] eqn:E.
    + rewrite lookup_set_same. rewrite S, M, T. reflexivity.
    + unfold f at 1. rewrite lookup_map, E. cbn [option_map].
      fold f. now rewrite M.
Qed.

Lemma clearAppId_without (v : Js.value) :
  (forall o, inside v o -> owns o "appId" = false) -> ApiClient.clearAppId v = v.
Proof.
  induction v as [| |b|n|s|items IH|props IH] using value_induction;
    intros H; try reflexivity.
  - cbn [ApiClient.clearAppId]. f_equal. rewrite <- (List.map_id items) at 2.
    apply List.map_ext_in. intros x Hx.
    rewrite Forall_forall in IH. apply (IH x Hx).
    intros o Ho. apply H. now apply inside_element with (x := x).
  - cbn [ApiClient.clearAppId].
    pose proof (H (Js.VObj props) (inside_here _)) as H0.
    cbn [owns] in H0.
    destruct (Js.lookup "appId" props); [discriminate H0|].
    f_equal. rewrite <- (List.map_id props) at 2.
    apply List.map_ext_in. intros [k x] Hx. cbn [fst snd]. f_equal.
    rewrite Forall_forall in IH. apply (IH (k, x) Hx).
    intros o Ho. apply H. now apply inside_property with (k := k) (x := x).
Qed.

Lemma clearAppId_shape (v : Js.value) :
  Js.typeof (ApiClient.clearAppId v) = Js.typeof v /\
  Js.isArray (ApiClient.clearAppId v) = Js.isArray v /\
  keys (ApiClient.clearAppId v) = keys v /\
  (forall items, v = Js.VArr items ->
                 ApiClient.clearAppId v = Js.VArr (List.map ApiClient.clearAppId items)) /\
  (forall k, String.eqb k "appId" = false -> owns v k = true ->
             Js.prop (ApiClient.clearAppId v) k = ApiClient.clearAppId (Js.prop v k)).
Proof.
  destruct v as [| |b|n|s|items|props];
    try (repeat split; try reflexivity; intros; discriminate).
  - repeat split; try reflexivity.
    + intros items' [= <-]. reflexivity.
    + intros k _ H. discriminate H.
  - destruct (clearAppId_object props) as (props' & E & K & _ & L & _).
    rewrite E. repeat split; try reflexivity.
    + exact K.
    + intros items H. discriminate H.
    + intros k N H. cbn [Js.prop owns] in *. rewrite (L k N).
      destruct (Js.lookup k props); [reflexivity | discriminate H].
Qed.

(** X7.  [clearAppId], the sanitising step of the API client's [main].
    In what it makes of the data: every object that has an [appId], at any
    depth, has the empty string there, and an object without one still has
    none; a value keeps its type, an array its length and the order of its
    elements, an object its keys and their order, and every other property
    holds what [clearAppId] makes of its value.  Clearing twice is clearing
    once, and data without any [appId] is left as it is. *)
Theorem clearAppId_spec (v : Js.value) :
  (forall o, inside (ApiClient.clearAppId v) o ->
             if owns o "appId" then Js.prop o "appId" = Js.VStr ""
             else Js.prop o "appId" = Js.VUndefined) /\
  owns (ApiClient.clearAppId v) "appId" = owns v "appId" /\
  Js.typeof (ApiClient.clearAppId v) = Js.typeof v /\
  keys (ApiClient.clearAppId v) = keys v /\
  (forall items, v = Js.VArr items ->
                 ApiClient.clearAppId v = Js.VArr (List.map ApiClient.clearAppId items)) /\
  (forall k, String.eqb k "appId" = false -> owns v k = true ->
             Js.prop (ApiClient.clearAppId v) k = ApiClient.clearAppId (Js.prop v k)) /\
  ApiClient.clearAppId (ApiClient.clearAppId v) = ApiClient.clearAppId v /\
  ((forall o, inside v o -> owns o "appId" = false) -> ApiClient.clearAppId v = v).
Proof.
  destruct (clearAppId_shape v) as (T & _ & K & A & P).
  split; [intros o; apply cleared_inside|].
  split.
  { destruct v as [| |b|n|s|items|props]; try reflexivity.
    destruct (clearAppId_object props) as (props' & E & _ & _ & _ & _).
    cbn [ApiClient.clearAppId owns].
    destruct (Js.lookup "appId" props) eqn:L.
    - now rewrite lookup_set_same.
    - now rewrite lookup_map, L. }
  repeat (split; [assumption|]).
  split; [apply clearAppId_idempotent | apply clearAppId_without].
Qed.

(** The data of a port list, with an [appId] at two depths. *)
Example clearAppId_rows :
  ApiClient.clearAppId
    (Js.VObj [("code", Js.VNum 200);
              ("appId", Js.VStr "ysxt");
              ("rows",
               Js.VArr [Js.VObj [("id", Js.VNum 7);
                                 ("appId", Js.VObj [("appId", Js.VNum 1)])];
                        Js.VNull;
                        Js.VStr "appId"])])
  = Js.VObj [("code", Js.VNum 200);
             ("appId", Js.VStr "");
             ("rows",
              Js.VArr [Js.VObj [("id", Js.VNum 7); ("appId", Js.VStr "")];
                       Js.VNull;
                       Js.VStr "appId"])].
Proof. reflexivity. Qed.

(* ================================================================== *)
(** * Scenarios *)
(* ================================================================== *)

(** The service sends the decrypted request body back, encrypted under the
    same key and iv: the request returns the object it was given. *)
Example echo_recovers_the_request :
  snd (CctvClient.request Reference.echo "/open/port" port_query initial)
  = Return port_query /\
  snd (ApiClient.request Reference.echo "/open/port" port_query None initial)
  = Return port_query.
Proof. vm_compute. split; reflexivity. Qed.

(** A body that is not a string is returned as it is, and an empty string
    too: nothing is decrypted. *)
Example other_bodies_are_returned :
  let answer (v : Js.value) : Env :=
    Reference.env_of 0 (fun _ _ => inr (Axios.mkResponse 200 v)) in
  snd (CctvClient.request (answer (Js.VObj [("code", Js.VNum 500)]))
                          "/open/port" port_query initial)
  = Return (Js.VObj [("code", Js.VNum 500)]) /\
  snd (CctvClient.request (answer (Js.VStr "")) "/open/port" port_query
                          initial)
  = Return (Js.VStr "") /\
  snd (ApiClient.request (answer (Js.VObj [("code", Js.VNum 500)]))
                         "/open/port" port_query None initial)
  = Return (Js.VObj [("code", Js.VNum 500)]).
Proof. vm_compute. repeat split. Qed.

(** A body that is not the encryption of anything under the key of the
    request: the padding check of the decryption throws. *)
Example malformed_ciphertext_throws :
  snd (CctvClient.request
         (Reference.env_of 0
            (fun _ _ => inr (Axios.mkResponse 200
               (Js.VStr "00112233445566778899aabbccddeeff"))))
         "/open/port" port_query initial)
  = Throw Sm4.padding_error.
Proof. vm_compute. reflexivity. Qed.

(** The nonces of the two layers of one request differ, and so do the key
    and the iv. *)
Example nonces_of_a_request :
  match network (fst (CctvClient.request Reference.echo "/open/port"
                                         port_query initial)) with
  | [c] =>
      (Js.lookup "x-aep-nonce" (Axios.headers c),
       Js.lookup "x-ka-nonce" (Axios.headers c))
  | _ => (None, None)
  end
  = (Some (Js.VStr "8fa11f42-aee4-3e85-ce27-5dc8ed697d0b"),
     Some (Js.VStr "0cac9c4e-2bef-bb90-4b32-dad36a75fa16")).
Proof. vm_compute. reflexivity. Qed.
